(** * Thunar's GIO extensions (thunar/thunar-gio-extensions.c)

    A shallow embedding of the convenience wrappers that Thunar puts around
    GIO's [GFile] interface, and the properties of them that the design
    document states.

    The embedding has these layers.
    - GIO's [GFile] is a GInterface: its methods that do no I/O (parent,
      child, base name, URI, equality, ...) are the fields of the class
      [GFileIface]; the wrappers are written against the class.
    - Calls that do I/O ([g_file_query_info], [g_file_copy], ...) are the
      constructors of [GioCall]; a wrapper that performs them is a tree
      of calls ([gio]), and [exec] relates a tree to the sequences of
      calls and replies it can go through and to the value it returns.
    - C strings are [string]s (a [string] is a list of bytes), a pointer
      into a buffer is an offset, a [GError **] is the pair of the pointer
      being non-NULL and the content of the caller's slot.
    - The wrappers that call into other parts of GIO and of Thunar (mounts,
      writable namespaces, the launch of an application) are trees over
      their own calls ([program]), related to their executions by
      [performs].

    The guards [_thunar_return_val_if_fail (G_IS_FILE (file), ...)] hold by
    typing: an argument of type [GFile] is a file handle.  The other guards
    are modelled as taken: the function returns the guard's value when the
    test fails. *)

From Stdlib Require Import ZArith Ascii String List Bool Lia.
From stdpp Require Import base tactics option list strings gmap.

Local Open Scope string_scope.
Local Open Scope list_scope.

(** ** GLib strings *)

(** [g_strcmp0]: compares two possibly-NULL strings; only its being 0 is
    ever used by the wrappers. *)
Definition g_strcmp0_is_0 (str1 str2 : option string) : bool :=
  match str1, str2 with
  | None, None => true
  | Some a, Some b => String.eqb a b
  | _, _ => false
  end.

(** [strcmp (a, b) == 0]. *)
Definition strcmp_is_0 (a b : string) : bool := String.eqb a b.

(** [strlen]. *)
Definition strlen (s : string) : nat := String.length s.

(** [g_str_has_prefix (str, prefix)]. *)
Definition g_str_has_prefix (str prefix : string) : bool := String.prefix prefix str.

(** [strchr (s + p, c)] for a pointer [s + p] into the buffer [s]: the
    offset in [s] of the first [c] at or after offset [p], [None] for NULL. *)
Fixpoint strchr (s : string) (p : nat) (c : ascii) : option nat :=
  match s with
  | EmptyString => None
  | String a s' =>
      match p with
      | O => if Ascii.eqb a c then Some O else S <$> strchr s' O c
      | S p' => S <$> strchr s' p' c
      end
  end.

(** The loop [while ( *p == ':' || *p == '/') ++p;] from offset [p] of the
    buffer [s]: the offset it stops at (the terminating NUL stops it). *)
Fixpoint skip_colon_slash (s : string) (p : nat) : nat :=
  match s with
  | EmptyString => p
  | String a s' =>
      match p with
      | O => if Ascii.eqb a ":" || Ascii.eqb a "/" then S (skip_colon_slash s' O) else O
      | S p' => S (skip_colon_slash s' p')
      end
  end.

(** [g_strndup (s + p, n)] and [g_strdup (s + p)]. *)
Definition g_strndup (s : string) (p n : nat) : string := String.substring p n s.
Definition g_strdup (s : string) (p : nat) : string :=
  String.substring p (String.length s - p) s.

(** What [printf] writes for a [%s] argument; glibc writes [(null)] for a
    NULL one. *)
Definition printf_string_arg (arg : option string) : string :=
  match arg with
  | Some s => s
  | None => "(null)"
  end.

(** [g_strdup_printf (format, args...)] for a format whose only conversion
    specifications are plain [%s]. *)
Fixpoint g_strdup_printf (format : string) (args : list (option string)) : string :=
  match format with
  | EmptyString => EmptyString
  | String c rest =>
      match rest with
      | String d rest' =>
          if Ascii.eqb c "%" && Ascii.eqb d "s"
          then match args with
               | arg :: args' => printf_string_arg arg +:+ g_strdup_printf rest' args'
               | [] => g_strdup_printf rest' []
               end
          else String c (g_strdup_printf rest args)
      | EmptyString => String c EmptyString
      end
  end.

(** ** The GFile interface *)

(** The methods of [GFile] that do no blocking I/O.  [None] stands for a
    NULL result. *)
Class GFileIface (GFile : Type) : Type := {
  g_file_new_for_path : string -> GFile;
  g_file_new_for_uri : string -> GFile;
  g_file_get_uri : GFile -> string;
  g_file_get_uri_scheme : GFile -> option string;
  g_file_get_parse_name : GFile -> string;
  g_file_get_basename : GFile -> option string;
  g_file_peek_path : GFile -> option string;
  g_file_get_parent : GFile -> option GFile;
  g_file_get_child : GFile -> string -> GFile;
  g_file_equal : GFile -> GFile -> bool;
  g_file_is_native : GFile -> bool
}.

(** What the wrappers read from the process environment and from the
    headers that define their constants. *)
Class Environment : Type := {
  (** libxfce4util's [xfce_get_homedir ()] *)
  xfce_get_homedir : string;
  (** the message catalogue behind the [_()] macro *)
  gettext : string -> string;
  (** thunarx's [THUNARX_FILESYSTEM_INFO_NAMESPACE] *)
  THUNARX_FILESYSTEM_INFO_NAMESPACE : string;
  (** GLib's [g_utf8_validate (str, -1, NULL)] *)
  g_utf8_validate : string -> bool;
  (** GLib's [g_uri_escape_string (unescaped, reserved_chars_allowed, allow_utf8)] *)
  g_uri_escape_string : string -> string -> bool -> string;
  (** GLib's [g_uri_unescape_string (escaped, NULL)]; NULL on an invalid escape *)
  g_uri_unescape_string : string -> option string;
  (** thunar-enum-types.h: the execute bits of [ThunarFileMode] *)
  THUNAR_FILE_MODE_USR_EXEC : Z;
  THUNAR_FILE_MODE_GRP_EXEC : Z;
  THUNAR_FILE_MODE_OTH_EXEC : Z
}.

(** GLib's key-file parser, for a type [GKeyFile] of key files. *)
Class GKeyFileLib (GKeyFile : Type) : Type := {
  g_key_file_new : GKeyFile;
  (** the key file after a successful load, or the parse error *)
  g_key_file_load_from_data : GKeyFile -> string -> nat -> Z -> GKeyFile + (string * Z * string);
  g_key_file_to_data : GKeyFile -> option string
}.

(** A [gpointer] kept in a [GList]: [G_IS_FILE] holds of it or not. *)
Inductive gpointer (GFile : Type) : Type :=
| G_FILE (file : GFile)
| NOT_A_FILE.
Arguments G_FILE {GFile} file.
Arguments NOT_A_FILE {GFile}.

(** ** Errors, cancellables, flags and file infos *)

Record GError : Type := { domain : string; code : Z; message : string }.

Definition G_IO_ERROR : string := "g-io-error-quark".
Definition G_IO_ERROR_EXISTS : Z := 2%Z.

Definition g_error_new (domain : string) (code : Z) (message : string) : GError :=
  {| domain := domain; code := code; message := message |}.

(** A [GCancellable *] that is not NULL; an optional one is an
    [option GCancellable]. *)
Inductive GCancellable : Type := Cancellable (id : nat).

(** A [GFileProgressCallback] and the [gpointer] handed back to it: both are
    only passed on. *)
Inductive GFileProgressCallback : Type := ProgressCallback (id : nat).
Inductive user_data : Type := UserData (id : nat).

Definition GFileCopyFlags : Type := Z.
Definition G_FILE_COPY_NONE : GFileCopyFlags := 0%Z.
Definition G_FILE_COPY_OVERWRITE : GFileCopyFlags := Z.shiftl 1 0.
Definition G_FILE_COPY_NOFOLLOW_SYMLINKS : GFileCopyFlags := Z.shiftl 1 2.

Definition GFileQueryInfoFlags : Type := Z.
Definition G_FILE_QUERY_INFO_NONE : GFileQueryInfoFlags := 0%Z.
Definition G_FILE_QUERY_INFO_NOFOLLOW_SYMLINKS : GFileQueryInfoFlags := Z.shiftl 1 0.

(** The C condition [flags & mask]. *)
Definition flags_and (flags mask : Z) : bool := negb (Z.land flags mask =? 0)%Z.

Inductive GFileType : Type :=
| G_FILE_TYPE_UNKNOWN
| G_FILE_TYPE_REGULAR
| G_FILE_TYPE_DIRECTORY
| G_FILE_TYPE_SYMBOLIC_LINK
| G_FILE_TYPE_SPECIAL
| G_FILE_TYPE_SHORTCUT
| G_FILE_TYPE_MOUNTABLE.

Definition GFileType_of_uint32 (v : Z) : GFileType :=
  match v with
  | 1 => G_FILE_TYPE_REGULAR
  | 2 => G_FILE_TYPE_DIRECTORY
  | 3 => G_FILE_TYPE_SYMBOLIC_LINK
  | 4 => G_FILE_TYPE_SPECIAL
  | 5 => G_FILE_TYPE_SHORTCUT
  | 6 => G_FILE_TYPE_MOUNTABLE
  | _ => G_FILE_TYPE_UNKNOWN
  end%Z.

Definition GFileType_eqb (a b : GFileType) : bool :=
  match a, b with
  | G_FILE_TYPE_UNKNOWN, G_FILE_TYPE_UNKNOWN
  | G_FILE_TYPE_REGULAR, G_FILE_TYPE_REGULAR
  | G_FILE_TYPE_DIRECTORY, G_FILE_TYPE_DIRECTORY
  | G_FILE_TYPE_SYMBOLIC_LINK, G_FILE_TYPE_SYMBOLIC_LINK
  | G_FILE_TYPE_SPECIAL, G_FILE_TYPE_SPECIAL
  | G_FILE_TYPE_SHORTCUT, G_FILE_TYPE_SHORTCUT
  | G_FILE_TYPE_MOUNTABLE, G_FILE_TYPE_MOUNTABLE => true
  | _, _ => false
  end.

Definition G_FILE_ATTRIBUTE_STANDARD_TYPE : string := "standard::type".
Definition G_FILE_ATTRIBUTE_UNIX_MODE : string := "unix::mode".
Definition G_FILE_ATTRIBUTE_FILESYSTEM_SIZE : string := "filesystem::size".
Definition G_FILE_ATTRIBUTE_FILESYSTEM_FREE : string := "filesystem::free".

(** A [GFileInfo] is a bag of attributes keyed by name. *)
Inductive GFileAttributeValue : Type :=
| ATTRIBUTE_UINT32 (v : Z)
| ATTRIBUTE_UINT64 (v : Z).

Definition GFileInfo : Type := gmap string GFileAttributeValue.

Definition g_file_info_has_attribute (info : GFileInfo) (attribute : string) : bool :=
  match (info : gmap string GFileAttributeValue) !! attribute with
  | Some _ => true
  | None => false
  end.

(** The getters return 0 for an attribute that is not set. *)
Definition g_file_info_get_attribute_uint32 (info : GFileInfo) (attribute : string) : Z :=
  match (info : gmap string GFileAttributeValue) !! attribute with
  | Some (ATTRIBUTE_UINT32 v) => v
  | _ => 0%Z
  end.

Definition g_file_info_get_attribute_uint64 (info : GFileInfo) (attribute : string) : Z :=
  match (info : gmap string GFileAttributeValue) !! attribute with
  | Some (ATTRIBUTE_UINT64 v) => v
  | _ => 0%Z
  end.

Definition g_file_info_get_file_type (info : GFileInfo) : GFileType :=
  GFileType_of_uint32 (g_file_info_get_attribute_uint32 info G_FILE_ATTRIBUTE_STANDARD_TYPE).

(** ** Calls into the library, and programs that make them *)

(** What a fallible call hands back: its result, or the [GError] it
    reports (the call then returns FALSE or NULL). *)
Inductive gresult (A : Type) : Type :=
| G_OK (a : A)
| G_FAILED (e : GError).
Arguments G_OK {A} a.
Arguments G_FAILED {A} e.

(** The boolean, or the pointer compared with NULL, that the call returns. *)
Definition gresult_ok {A} (r : gresult A) : bool :=
  match r with G_OK _ => true | G_FAILED _ => false end.

Definition gresult_pointer {A} (r : gresult A) : option A :=
  match r with G_OK a => Some a | G_FAILED _ => None end.

(** The calls that do I/O, with the arguments the wrappers choose.  The
    [GError **] argument is not part of the call: what the callee does with
    it is [g_propagate] below. *)
Inductive GioCall (GFile : Type) : Type :=
| g_file_query_info (file : GFile) (attributes : string)
    (flags : GFileQueryInfoFlags) (cancellable : option GCancellable)
| g_file_query_filesystem_info (file : GFile) (attributes : string)
    (cancellable : option GCancellable)
| g_file_query_exists (file : GFile) (cancellable : option GCancellable)
| g_file_delete (file : GFile) (cancellable : option GCancellable)
| g_file_copy (source destination : GFile) (flags : GFileCopyFlags)
    (cancellable : option GCancellable)
    (progress_callback : option GFileProgressCallback)
    (progress_callback_data : user_data)
| g_file_set_display_name (file : GFile) (display_name : string)
    (cancellable : option GCancellable)
| g_file_load_contents (file : GFile) (cancellable : option GCancellable)
| g_file_replace_contents (file : GFile) (contents : string) (length : nat)
    (cancellable : option GCancellable)
| g_file_set_attribute_uint32 (file : GFile) (attribute : string) (value : Z)
    (flags : GFileQueryInfoFlags) (cancellable : option GCancellable)
| xfce_g_file_create_checksum (file : GFile) (cancellable : option GCancellable)
| g_warning (message : string).
Arguments g_file_query_info {GFile}.
Arguments g_file_query_filesystem_info {GFile}.
Arguments g_file_query_exists {GFile}.
Arguments g_file_delete {GFile}.
Arguments g_file_copy {GFile}.
Arguments g_file_set_display_name {GFile}.
Arguments g_file_load_contents {GFile}.
Arguments g_file_replace_contents {GFile}.
Arguments g_file_set_attribute_uint32 {GFile}.
Arguments xfce_g_file_create_checksum {GFile}.
Arguments g_warning {GFile}.

Definition reply {GFile : Type} (c : GioCall GFile) : Type :=
  match c with
  | g_file_query_info _ _ _ _ => gresult GFileInfo
  | g_file_query_filesystem_info _ _ _ => gresult GFileInfo
  | g_file_query_exists _ _ => bool
  | g_file_delete _ _ => gresult unit
  | g_file_copy _ _ _ _ _ _ => gresult unit
  | g_file_set_display_name _ _ _ => gresult GFile
  | g_file_load_contents _ _ => gresult string
  | g_file_replace_contents _ _ _ _ => gresult unit
  | g_file_set_attribute_uint32 _ _ _ _ _ => gresult unit
  | xfce_g_file_create_checksum _ _ => gresult string
  | g_warning _ => unit
  end.

(** The cancellable a call is given; [g_warning] takes none. *)
Definition call_cancellable {GFile : Type} (c : GioCall GFile) : option GCancellable :=
  match c with
  | g_file_query_info _ _ _ cancellable
  | g_file_query_filesystem_info _ _ cancellable
  | g_file_query_exists _ cancellable
  | g_file_delete _ cancellable
  | g_file_copy _ _ _ cancellable _ _
  | g_file_set_display_name _ _ cancellable
  | g_file_load_contents _ cancellable
  | g_file_replace_contents _ _ _ cancellable
  | g_file_set_attribute_uint32 _ _ _ _ cancellable
  | xfce_g_file_create_checksum _ cancellable => cancellable
  | g_warning _ => None
  end.

(** A wrapper that does I/O: it returns, or makes a call and goes on from
    its reply. *)
Inductive gio (GFile A : Type) : Type :=
| Ret (a : A)
| Call (c : GioCall GFile) (k : reply c -> gio GFile A).
Arguments Ret {GFile A} a.
Arguments Call {GFile A} c k.

Fixpoint gio_bind {GFile A B : Type} (f : A -> gio GFile B) (m : gio GFile A) : gio GFile B :=
  match m with
  | Ret a => f a
  | Call c k => Call c (fun r => gio_bind f (k r))
  end.

#[export] Instance gio_ret {GFile : Type} : MRet (gio GFile) := fun A a => Ret a.
#[export] Instance gio_mbind {GFile : Type} : MBind (gio GFile) := fun A B f m => gio_bind f m.

Definition call {GFile : Type} (c : GioCall GFile) : gio GFile (reply c) := Call c Ret.

(** One call and the reply it got. *)
Inductive event (GFile : Type) : Type :=
| Event (c : GioCall GFile) (r : reply c).
Arguments Event {GFile} c r.

Definition event_call {GFile : Type} (ev : event GFile) : GioCall GFile :=
  match ev with Event c _ => c end.

(** [exec m trace a]: [m] can make the calls of [trace], get the replies of
    [trace], and return [a]. *)
Inductive exec {GFile A : Type} : gio GFile A -> list (event GFile) -> A -> Prop :=
| exec_Ret (a : A) : exec (Ret a) [] a
| exec_Call (c : GioCall GFile) (k : reply c -> gio GFile A) (r : reply c)
    (trace : list (event GFile)) (a : A) :
    exec (k r) trace a -> exec (Call c k) (Event c r :: trace) a.

(** A library to run a program against: it answers each call from its
    state. *)
Definition library (GFile World : Type) : Type :=
  forall c : GioCall GFile, World -> reply c * World.

Fixpoint run {GFile World A : Type} (lib : library GFile World) (m : gio GFile A)
    (w : World) : list (event GFile) * A * World :=
  match m with
  | Ret a => ([], a, w)
  | Call c k =>
      let '(r, w) := lib c w in
      let '(trace, a, w) := run lib (k r) w in
      (Event c r :: trace, a, w)
  end.

(** What a callee does with the [GError **error] it was given when it
    fails with [e] ([g_set_error]): nothing through a NULL pointer; it
    fills an empty slot; it leaves a full one as it is. *)
Definition g_set_error (error : bool) (slot : option GError) (e : GError) : option GError :=
  if error
  then match slot with
       | None => Some e
       | Some old => Some old
       end
  else slot.

(** The caller's slot after a call that was given [error]. *)
Definition g_propagate {A} (error : bool) (slot : option GError) (r : gresult A) : option GError :=
  match r with
  | G_OK _ => slot
  | G_FAILED e => g_set_error error slot e
  end.

(** [g_clear_error (error)], under the caller's test [error != NULL]. *)
Definition g_clear_error (slot : option GError) : option GError := None.

Definition dquote : string := String (Ascii.ascii_of_nat 34) EmptyString.

Definition G_KEY_FILE_KEEP_COMMENTS : Z := Z.shiftl 1 0.
Definition G_KEY_FILE_KEEP_TRANSLATIONS : Z := Z.shiftl 1 1.

(** The guard [error == NULL || *error == NULL]. *)
Definition error_is_unset (error : bool) (slot : option GError) : bool :=
  negb error || match slot with None => true | Some _ => false end.

Section Wrappers.
Context {GFile : Type} `{GFileIface GFile} `{Environment}.
Context {GKeyFile : Type} `{GKeyFileLib GKeyFile}.

(** GIO's [g_file_has_parent (file, parent)]. *)
Definition g_file_has_parent (file : GFile) (parent : option GFile) : bool :=
  match g_file_get_parent file with
  | Some actual_parent =>
      match parent with
      | Some parent => g_file_equal parent actual_parent
      | None => true
      end
  | None => false
  end.

(** ** Constructors of the pseudo-locations (lines 88-132) *)

Definition thunar_g_file_new_for_home : GFile :=
  g_file_new_for_path xfce_get_homedir.

Definition thunar_g_file_new_for_root : GFile :=
  g_file_new_for_uri "file:///".

Definition thunar_g_file_new_for_recent : GFile :=
  g_file_new_for_uri "recent:///".

Definition thunar_g_file_new_for_trash : GFile :=
  g_file_new_for_uri "trash:///".

Definition thunar_g_file_new_for_computer : GFile :=
  g_file_new_for_uri "computer://".

Definition thunar_g_file_new_for_network : GFile :=
  g_file_new_for_uri "network://".

(** ** Predicates (lines 214-331) *)

Definition thunar_g_file_is_root (file : GFile) : bool :=
  match g_file_get_parent file with
  | Some parent => false
  | None => true
  end.

Definition thunar_g_file_is_home (file : GFile) : bool :=
  let home := thunar_g_file_new_for_home in
  g_file_equal home file.

Definition thunar_g_file_is_trash (file : GFile) : bool :=
  let uri := g_file_get_uri file in
  g_strcmp0_is_0 (Some uri) (Some "trash:///").

Definition thunar_g_file_is_recent (file : GFile) : bool :=
  let uri := g_file_get_uri file in
  g_strcmp0_is_0 (Some uri) (Some "recent:///").

Definition thunar_g_file_is_computer (file : GFile) : bool :=
  let uri := g_file_get_uri file in
  g_strcmp0_is_0 (Some uri) (Some "computer:///").

Definition thunar_g_file_is_network (file : GFile) : bool :=
  let uri := g_file_get_uri file in
  g_strcmp0_is_0 (Some uri) (Some "network:///").

(** ** Display names (lines 476-586) *)

(** GLib's [G_URI_RESERVED_CHARS_ALLOWED_IN_PATH]. *)
Definition G_URI_RESERVED_CHARS_ALLOWED_IN_PATH : string := "!$&'()*+,;=:@/".

Definition thunar_g_file_get_display_name (file : GFile) : string :=
  match g_file_get_basename file with
  | Some base_name =>
      if strcmp_is_0 base_name "/" then gettext "File System"
      else if thunar_g_file_is_trash file then gettext "Trash"
      else if g_utf8_validate base_name then base_name
      else g_uri_escape_string base_name G_URI_RESERVED_CHARS_ALLOWED_IN_PATH true
  | None => "?"
  end.

(** The body of the [for] loop over [skip_chars] (lines 547-551): [p],
    [path] and [firstdot] are offsets into [parse_name]. *)
Definition skip_login (parse_name : string) (path : option nat) (firstdot : nat)
    (p : nat) (skip_char : ascii) : nat :=
  match strchr parse_name p skip_char with
  | Some skip =>
      if match path with None => true | Some path => skip <? path end
         && (skip <? firstdot)
      then S skip
      else p
  | None => p
  end%nat.

Definition skip_chars : list ascii := [":"; "@"]%char.

Definition thunar_g_file_get_display_name_remote (mount_point : GFile) : string :=
  let display_name :=
    (* not intended for local mounts *)
    if negb (g_file_is_native mount_point) then
      let scheme := g_file_get_uri_scheme mount_point in
      let parse_name := g_file_get_parse_name mount_point in
      match scheme with
      | Some scheme =>
          if g_str_has_prefix parse_name scheme then
            (* extract the hostname *)
            let p := skip_colon_slash parse_name (strlen scheme) in
            (* goto path part *)
            let path := strchr parse_name p "/" in
            let firstdot := strchr parse_name p "." in
            (* skip password or login names in the hostname *)
            let p :=
              match firstdot with
              | Some firstdot => fold_left (skip_login parse_name path firstdot) skip_chars p
              | None => p
              end in
            (* extract the path and hostname from the string *)
            let '(hostname, path) :=
              match path with
              | Some path => (g_strndup parse_name p (path - p), g_strdup parse_name path)
              | None => (g_strdup parse_name p, "/")
              end in
            (* unescape the path so that spaces and other characters are shown correctly *)
            let unescaped := g_uri_unescape_string path in
            Some (g_strdup_printf (gettext "%s on %s") [unescaped; Some hostname])
          else None
      | None => None
      end
    else None in
  (* never return null *)
  match display_name with
  | Some display_name => display_name
  | None => thunar_g_file_get_display_name mount_point
  end.

(** ** Key files (lines 335-405) *)

(** The result, and the caller's error slot afterwards. *)
Definition thunar_g_file_query_key_file (file : GFile) (cancellable : option GCancellable)
    (error : bool) (slot : option GError) : gio GFile (option GKeyFile * option GError) :=
  if negb (error_is_unset error slot) then mret (None, slot) else
  (* try to load the entire file into memory *)
  r ← call (g_file_load_contents file cancellable);
  let slot := g_propagate error slot r in
  match r with
  | G_FAILED _ => mret (None, slot)
  | G_OK contents =>
      let length := String.length contents in
      (* allocate a new key file *)
      let key_file := g_key_file_new in
      (* try to parse the key file from the contents of the file *)
      if (length =? 0)%nat then mret (Some key_file, slot)
      else
        match g_key_file_load_from_data key_file contents length
                (Z.lor G_KEY_FILE_KEEP_COMMENTS G_KEY_FILE_KEEP_TRANSLATIONS) with
        | inl key_file => mret (Some key_file, slot)
        | inr (domain, code, message) =>
            mret (None, g_set_error error slot (g_error_new domain code message))
        end
  end.

Definition thunar_g_file_write_key_file (file : GFile) (key_file : GKeyFile)
    (cancellable : option GCancellable)
    (error : bool) (slot : option GError) : gio GFile (bool * option GError) :=
  if negb (error_is_unset error slot) then mret (false, slot) else
  let result := true in
  (* write the key file into the contents buffer *)
  match g_key_file_to_data key_file with
  | Some contents =>
      let length := String.length contents in
      (* try to replace the file contents with the key file data *)
      r ← call (g_file_replace_contents file contents length cancellable);
      mret (gresult_ok r, g_propagate error slot r)
  | None => mret (result, slot)
  end.

(** ** Free space (lines 629-661) *)

(** The result, and what was written through [fs_free_return] and
    [fs_size_return]; the two booleans say whether these pointers are
    non-NULL. *)
Definition thunar_g_file_get_free_space (file : GFile) (fs_free_return fs_size_return : bool)
    : gio GFile (bool * option Z * option Z) :=
  let success := false in
  r ← call (g_file_query_filesystem_info file THUNARX_FILESYSTEM_INFO_NAMESPACE None);
  match gresult_pointer r with
  | Some filesystem_info =>
      let '(success, fs_free) :=
        if fs_free_return
        then (g_file_info_has_attribute filesystem_info G_FILE_ATTRIBUTE_FILESYSTEM_FREE,
              Some (g_file_info_get_attribute_uint64 filesystem_info G_FILE_ATTRIBUTE_FILESYSTEM_FREE))
        else (success, None) in
      let '(success, fs_size) :=
        if fs_size_return
        then (g_file_info_has_attribute filesystem_info G_FILE_ATTRIBUTE_FILESYSTEM_SIZE,
              Some (g_file_info_get_attribute_uint64 filesystem_info G_FILE_ATTRIBUTE_FILESYSTEM_SIZE))
        else (success, None) in
      mret (success, fs_free, fs_size)
  | None => mret (success, None, None)
  end.

(** ** Copying through a partial file (lines 728-839) *)

(** [g_strdup_printf ("%.100s.partial~", base_name)]: at most 100 bytes of
    [base_name], then the suffix. *)
Definition partial_name_of (base_name : string) : string :=
  String.substring 0 100 base_name +:+ ".partial~".

(** Lines 798-838, reached with the local [error] and the caller's slot. *)
Definition thunar_g_file_copy_to_partial (source destination : GFile) (flags : GFileCopyFlags)
    (cancellable : option GCancellable)
    (progress_callback : option GFileProgressCallback) (progress_callback_data : user_data)
    (error : bool) (slot : option GError) : gio GFile (bool * option GError) :=
  (* generate partial file name *)
  let base_name :=
    match g_file_get_basename destination with
    | Some base_name => base_name
    | None => "UNNAMED"
    end in
  (* limit filename length *)
  let partial_name := partial_name_of base_name in
  match g_file_get_parent destination with
  | None => mret (false, slot) (* not reached: the guard of line 746 *)
  | Some parent =>
      let partial := g_file_get_child parent partial_name in
      (* check if partial file exists *)
      partial_exists ← call (g_file_query_exists partial None);
      slot ← (if partial_exists : bool
              then r ← call (g_file_delete partial None); mret (g_propagate error slot r)
              else mret slot);
      (* copy file to .partial *)
      r ← call (g_file_copy source partial flags cancellable
                  progress_callback progress_callback_data);
      let success := gresult_ok r in
      let slot := g_propagate error slot r in
      '(success, slot) ←
        (if success
         then (* rename .partial if done without problem *)
              r ← call (g_file_set_display_name partial base_name None);
              mret (gresult_ok r, g_propagate error slot r)
         else mret (success, slot));
      (if negb success
       then (* try to remove incomplete file; the error and the cancellable are ignored *)
            call (g_file_delete partial None) ≫= λ _, mret tt
       else mret tt) ≫= λ _,
      mret (success, slot)
  end.

Definition thunar_g_file_copy (source destination : GFile) (flags : GFileCopyFlags)
    (use_partial : bool) (cancellable : option GCancellable)
    (progress_callback : option GFileProgressCallback) (progress_callback_data : user_data)
    (error : bool) (slot : option GError) : gio GFile (bool * option GError) :=
  if negb (g_file_has_parent destination None) then mret (false, slot) else
  info ←
    (if use_partial
     then
       let query_flags :=
         if flags_and flags G_FILE_COPY_NOFOLLOW_SYMLINKS
         then G_FILE_QUERY_INFO_NOFOLLOW_SYMLINKS
         else G_FILE_QUERY_INFO_NONE in
       r ← call (g_file_query_info source G_FILE_ATTRIBUTE_STANDARD_TYPE query_flags cancellable);
       mret (gresult_pointer r)
     else mret None);
  (* directory does not need .partial *)
  let use_partial :=
    match info with
    | None => false
    | Some info => GFileType_eqb (g_file_info_get_file_type info) G_FILE_TYPE_REGULAR
    end in
  if negb use_partial
  then
    r ← call (g_file_copy source destination flags cancellable
                progress_callback progress_callback_data);
    mret (gresult_ok r, g_propagate error slot r)
  else
    (* check destination *)
    destination_exists ← call (g_file_query_exists destination None);
    if destination_exists : bool
    then
      if flags_and flags G_FILE_COPY_OVERWRITE
      then
        (* We want to overwrite. Just delete the old file *)
        let slot := if error then g_clear_error slot else slot in
        let error := false in
        r ← call (g_file_delete destination None);
        let slot := g_propagate error slot r in
        if error
        then mret (false, slot)
        else thunar_g_file_copy_to_partial source destination flags cancellable
               progress_callback progress_callback_data error slot
      else
        (* Try to mimic g_file_copy() error *)
        let slot :=
          if error
          then Some (g_error_new G_IO_ERROR G_IO_ERROR_EXISTS
                       ("Error opening file " +:+ dquote
                        +:+ printf_string_arg (g_file_peek_path destination)
                        +:+ dquote +:+ ": File exists"))
          else slot in
        mret (false, slot)
    else thunar_g_file_copy_to_partial source destination flags cancellable
           progress_callback progress_callback_data error slot.

(** ** Checksums (lines 854-875) *)

Definition thunar_g_file_compare_checksum (file_a file_b : GFile)
    (cancellable : option GCancellable)
    (error : bool) (slot : option GError) : gio GFile (bool * option GError) :=
  if negb (error_is_unset error slot) then mret (false, slot) else
  r_a ← call (xfce_g_file_create_checksum file_a cancellable);
  let slot := g_propagate error slot r_a in
  r_b ← call (xfce_g_file_create_checksum file_b cancellable);
  let slot := g_propagate error slot r_b in
  let is_equal := g_strcmp0_is_0 (gresult_pointer r_a) (gresult_pointer r_b) in
  mret (is_equal, slot).

(** ** Executable flags (lines 1265-1309) *)

Definition thunar_g_file_set_executable_flags (file : GFile)
    (error : bool) (slot : option GError) : gio GFile (bool * option GError) :=
  if negb (error_is_unset error slot) then mret (false, slot) else
  (* try to query information about the file *)
  r ← call (g_file_query_info file G_FILE_ATTRIBUTE_UNIX_MODE
              G_FILE_QUERY_INFO_NOFOLLOW_SYMLINKS None);
  let slot := g_propagate error slot r in
  slot ←
    match gresult_pointer r with
    | Some info =>
        if g_file_info_has_attribute info G_FILE_ATTRIBUTE_UNIX_MODE
        then
          (* determine the current mode *)
          let old_mode := g_file_info_get_attribute_uint32 info G_FILE_ATTRIBUTE_UNIX_MODE in
          (* generate the new mode *)
          let new_mode :=
            Z.lor (Z.lor (Z.lor old_mode THUNAR_FILE_MODE_USR_EXEC)
                     THUNAR_FILE_MODE_GRP_EXEC) THUNAR_FILE_MODE_OTH_EXEC in
          if negb (old_mode =? new_mode)%Z
          then
            r ← call (g_file_set_attribute_uint32 file G_FILE_ATTRIBUTE_UNIX_MODE new_mode
                        G_FILE_QUERY_INFO_NOFOLLOW_SYMLINKS None);
            mret (g_propagate error slot r)
          else mret slot
        else
          call (g_warning ("No " +:+ G_FILE_ATTRIBUTE_UNIX_MODE +:+ " attribute found"))
            ≫= λ _, mret slot
    | None => mret slot
    end;
  (* return (error == NULL) *)
  mret (negb error, slot).

(** ** Parents of a list of files (lines 961-994) *)

Definition g_list_append {A} (l : list A) (data : A) : list A := l ++ [data].

(** The inner loop (lines 979-986): is [parent_folder] equal to a folder of
    [parent_folder_list]? *)
Fixpoint folder_already_added (parent_folder_list : list GFile) (parent_folder : GFile) : bool :=
  match parent_folder_list with
  | [] => false
  | data :: next =>
      if g_file_equal data parent_folder
      then true
      else folder_already_added next parent_folder
  end.

(** The outer loop, from the list node [file_list] on. *)
Fixpoint list_get_parents_from (file_list : list (gpointer GFile))
    (parent_folder_list : list GFile) : list GFile :=
  match file_list with
  | [] => parent_folder_list
  | data :: next =>
      match data with
      | NOT_A_FILE => list_get_parents_from next parent_folder_list
      | G_FILE file =>
          match g_file_get_parent file with
          | None => list_get_parents_from next parent_folder_list
          | Some parent_folder =>
              (* Check if the folder already is in our list *)
              if folder_already_added parent_folder_list parent_folder
              then list_get_parents_from next parent_folder_list
              else list_get_parents_from next (g_list_append parent_folder_list parent_folder)
          end
      end
  end.

Definition thunar_g_file_list_get_parents (file_list : list (gpointer GFile)) : list GFile :=
  list_get_parents_from file_list [].

(** An element of the input list that passes both tests of the loop: it is
    a file handle and it has a parent. *)
Definition has_parent_folder (data : gpointer GFile) : bool :=
  match data with
  | G_FILE file =>
      match g_file_get_parent file with
      | Some _ => true
      | None => false
      end
  | NOT_A_FILE => false
  end.

(** Handle equality, as a relation. *)
Definition same_file (a b : GFile) : Prop := g_file_equal a b = true.

(** No folder of the list is equal to one that comes later in it. *)
Definition distinct_folders (folders : list GFile) : Prop :=
  forall (i j : nat) (p q : GFile),
    i < j -> folders !! i = Some p -> folders !! j = Some q -> g_file_equal p q = false.

(** ** Descendants (lines 1008-1027) *)

(** The [for] loop from the handle [parent] on ([None] is NULL).  Each
    iteration spends one unit of [fuel]; [None] is returned when the loop
    is still running after [fuel] iterations. *)
Fixpoint is_descendant_from (fuel : nat) (parent : option GFile) (ancestor : GFile)
    : option bool :=
  match parent with
  | None => Some false
  | Some parent =>
      if g_file_equal parent ancestor
      then Some true
      else match fuel with
           | O => None
           | S fuel => is_descendant_from fuel (g_file_get_parent parent) ancestor
           end
  end.

Definition thunar_g_file_is_descendant (fuel : nat) (descendant ancestor : GFile) : option bool :=
  is_descendant_from fuel (Some descendant) ancestor.

(** The handles the walk goes through when nothing stops it: [file], its
    parent, ..., up to the root, which has no parent. *)
Inductive parent_chain : GFile -> list GFile -> Prop :=
| parent_chain_root (file : GFile) :
    g_file_get_parent file = None -> parent_chain file [file]
| parent_chain_step (file parent : GFile) (chain : list GFile) :
    g_file_get_parent file = Some parent ->
    parent_chain parent chain ->
    parent_chain file (file :: chain).

End Wrappers.

(** ** The remote display name, as the design document words it *)

Fixpoint string_drop (n : nat) (s : string) : string :=
  match n, s with
  | O, _ => s
  | S n, String _ s' => string_drop n s'
  | S _, EmptyString => EmptyString
  end.

Fixpoint string_take (n : nat) (s : string) : string :=
  match n, s with
  | S n, String c s' => String c (string_take n s')
  | _, _ => EmptyString
  end.

(** The offset of the first [c] in [s]. *)
Fixpoint index_of (c : ascii) (s : string) : option nat :=
  match s with
  | EmptyString => None
  | String a s' => if Ascii.eqb a c then Some O else S <$> index_of c s'
  end.

(** [s] without the [':'] and ['/'] it starts with. *)
Fixpoint drop_colons_slashes (s : string) : string :=
  match s with
  | String a s' => if Ascii.eqb a ":" || Ascii.eqb a "/" then drop_colons_slashes s' else s
  | EmptyString => EmptyString
  end.

(** Skip what ends with the first [sep] of [host], when that [sep] comes
    before the first ['.'], which is at offset [dot] of [host] or beyond
    its end. *)
Definition skip_credential (sep : ascii) (x : nat * string) : nat * string :=
  let '(dot, host) := x in
  match index_of sep host with
  | Some i => if (i <? dot)%nat then ((dot - S i)%nat, string_drop (S i) host) else x
  | None => x
  end.

(** Host and path of a parse name that starts with [scheme]. *)
Definition remote_host_and_path (scheme parse_name : string) : string * string :=
  (* strip the scheme and the ':' and '/' after it *)
  let rest := drop_colons_slashes (string_drop (String.length scheme) parse_name) in
  (* split at the first '/' *)
  let '(host, path) :=
    match index_of "/" rest with
    | Some slash => (string_take slash rest, string_drop slash rest)
    | None => (rest, "/")
    end in
  (* skip user:password@, up to the first '.' *)
  let host :=
    match index_of "." rest with
    | Some dot => snd (skip_credential "@" (skip_credential ":" (dot, host)))
    | None => host
    end in
  (host, path).

(** ** Traces of the copy through a partial file *)

Section Traces.
Context {GFile : Type}.

(** The error a call reported, for an event whose call failed. *)
Definition gresult_error {A} (r : gresult A) : option GError :=
  match r with G_OK _ => None | G_FAILED e => Some e end.

Definition event_error (ev : event GFile) : option GError :=
  match ev with
  | Event c r =>
      match c return reply c -> option GError with
      | g_file_query_info _ _ _ _ => gresult_error
      | g_file_query_filesystem_info _ _ _ => gresult_error
      | g_file_query_exists _ _ => fun _ => None
      | g_file_delete _ _ => gresult_error
      | g_file_copy _ _ _ _ _ _ => gresult_error
      | g_file_set_display_name _ _ _ => gresult_error
      | g_file_load_contents _ _ => gresult_error
      | g_file_replace_contents _ _ _ _ => gresult_error
      | g_file_set_attribute_uint32 _ _ _ _ _ => gresult_error
      | xfce_g_file_create_checksum _ _ => gresult_error
      | g_warning _ => fun _ => None
      end r
  end.

(** The errors that the calls of a trace reported, in order. *)
Definition trace_errors (trace : list (event GFile)) : list GError :=
  omap event_error trace.

Definition is_copy_call (c : GioCall GFile) : bool :=
  match c with g_file_copy _ _ _ _ _ _ => true | _ => false end.

Definition is_rename_call (c : GioCall GFile) : bool :=
  match c with g_file_set_display_name _ _ _ => true | _ => false end.

(** The three ways the copy to [partial] can go: copied and renamed to
    [base_name]; copied, not renamed, and [partial] deleted; not copied, and
    [partial] deleted.  The reply to the deletion is not looked at. *)
Inductive partial_copy_steps (source partial : GFile) (base_name : string)
    (flags : GFileCopyFlags) (cancellable : option GCancellable)
    (progress_callback : option GFileProgressCallback) (progress_callback_data : user_data)
    : list (event GFile) -> bool -> Prop :=
| copied_and_renamed (renamed : GFile) :
    partial_copy_steps source partial base_name flags cancellable
      progress_callback progress_callback_data
      [Event (g_file_copy source partial flags cancellable
                progress_callback progress_callback_data) (G_OK tt);
       Event (g_file_set_display_name partial base_name None) (G_OK renamed)]
      true
| copied_not_renamed (e : GError) (deleted : gresult unit) :
    partial_copy_steps source partial base_name flags cancellable
      progress_callback progress_callback_data
      [Event (g_file_copy source partial flags cancellable
                progress_callback progress_callback_data) (G_OK tt);
       Event (g_file_set_display_name partial base_name None) (G_FAILED e);
       Event (g_file_delete partial None) deleted]
      false
| not_copied (e : GError) (deleted : gresult unit) :
    partial_copy_steps source partial base_name flags cancellable
      progress_callback progress_callback_data
      [Event (g_file_copy source partial flags cancellable
                progress_callback progress_callback_data) (G_FAILED e);
       Event (g_file_delete partial None) deleted]
      false.

(** The file type that a type query found. *)
Definition event_file_type (ev : event GFile) : option GFileType :=
  match ev with
  | Event c r =>
      match c return reply c -> option GFileType with
      | g_file_query_info _ _ _ _ =>
          fun r => g_file_info_get_file_type <$> gresult_pointer r
      | _ => fun _ => None
      end r
  end.

(** The answer of an existence check. *)
Definition event_found (ev : event GFile) : bool :=
  match ev with
  | Event c r =>
      match c return reply c -> bool with
      | g_file_query_exists _ _ => fun r => r
      | _ => fun _ => false
      end r
  end.

(** The first call was the type query on [source], and it found a regular
    file. *)
Definition source_found_regular (source : GFile) (trace : list (event GFile)) : Prop :=
  exists ev : event GFile,
    trace !! 0 = Some ev
    /\ (exists (flags : GFileQueryInfoFlags) (cancellable : option GCancellable),
          event_call ev
          = g_file_query_info source G_FILE_ATTRIBUTE_STANDARD_TYPE flags cancellable)
    /\ event_file_type ev = Some G_FILE_TYPE_REGULAR.

(** The second call was the existence check on [destination], and it found
    the file. *)
Definition destination_found (destination : GFile) (trace : list (event GFile)) : Prop :=
  exists ev : event GFile,
    trace !! 1 = Some ev
    /\ event_call ev = g_file_query_exists destination None
    /\ event_found ev = true.

(** In [thunar_g_file_copy], the type query and the copy are given the
    caller's cancellable, every other call is given none. *)
Definition copy_cancellable_rule (cancellable : option GCancellable)
    (c : GioCall GFile) : Prop :=
  match c with
  | g_file_query_info _ _ _ given | g_file_copy _ _ _ given _ _ => given = cancellable
  | _ => call_cancellable c = None
  end.

End Traces.

(** The error that [thunar_g_file_copy] makes itself (lines 792-793). *)
Definition file_exists_error {GFile : Type} `{GFileIface GFile} (destination : GFile) : GError :=
  g_error_new G_IO_ERROR G_IO_ERROR_EXISTS
    ("Error opening file " +:+ dquote
     +:+ printf_string_arg (g_file_peek_path destination)
     +:+ dquote +:+ ": File exists").

(** ** The pseudo-locations, as the design document lists them *)

Inductive pseudo_location : Type := HOME | TRASH | RECENT | COMPUTER | NETWORK.

Inductive location_string : Type :=
| PATH (path : string)
| URI (uri : string).

Definition pseudo_location_string `{Environment} (name : pseudo_location) : location_string :=
  match name with
  | HOME => PATH xfce_get_homedir
  | TRASH => URI "trash:///"
  | RECENT => URI "recent:///"
  | COMPUTER => URI "computer://"
  | NETWORK => URI "network://"
  end.

Definition g_file_new_for_location_string {GFile : Type} `{GFileIface GFile}
    (s : location_string) : GFile :=
  match s with
  | PATH path => g_file_new_for_path path
  | URI uri => g_file_new_for_uri uri
  end.

(** The constructor that the source has for each name. *)
Definition pseudo_location_constructor {GFile : Type} `{GFileIface GFile} `{Environment}
    (name : pseudo_location) : GFile :=
  match name with
  | HOME => thunar_g_file_new_for_home
  | TRASH => thunar_g_file_new_for_trash
  | RECENT => thunar_g_file_new_for_recent
  | COMPUTER => thunar_g_file_new_for_computer
  | NETWORK => thunar_g_file_new_for_network
  end.

(** ** More of GLib and GIO, for the remaining wrappers *)

(** [g_str_has_prefix (str, prefix)] and [g_str_has_suffix (str, suffix)]
    on a [str] that can be NULL: the guard of these functions then returns
    FALSE.  The suffix is compared as GLib does it, from the offset
    [str_len - suffix_len]. *)
Definition g_str_has_prefix_or_NULL (str : option string) (prefix : string) : bool :=
  match str with
  | Some str => g_str_has_prefix str prefix
  | None => false
  end.

Definition g_str_has_suffix (str : option string) (suffix : string) : bool :=
  match str with
  | Some str =>
      let str_len := strlen str in
      let suffix_len := strlen suffix in
      if (str_len <? suffix_len)%nat then false
      else strcmp_is_0 (g_strdup str (str_len - suffix_len)) suffix
  | None => false
  end.

(** [g_pattern_match_simple (pattern, string)]: ['*'] stands for any
    sequence of bytes, also the empty one, and ['?'] for one character,
    here one byte (no pattern of this file has a ['?']). *)
Fixpoint g_pattern_match_simple (pattern : string) (s : string) : bool :=
  match pattern with
  | EmptyString =>
      match s with
      | EmptyString => true
      | String _ _ => false
      end
  | String c pattern' =>
      if Ascii.eqb c "*"
      then (fix any_sequence (s : string) : bool :=
              g_pattern_match_simple pattern' s
              || match s with
                 | EmptyString => false
                 | String _ s' => any_sequence s'
                 end) s
      else match s with
           | EmptyString => false
           | String a s' =>
               (Ascii.eqb c "?" || Ascii.eqb c a) && g_pattern_match_simple pattern' s'
           end
  end.

(** [g_strconcat (string1, string2, NULL)]: a NULL [string2] ends the
    argument list. *)
Definition g_strconcat (string1 : string) (string2 : option string) : string :=
  match string2 with
  | Some string2 => string1 +:+ string2
  | None => string1
  end.

(** What the remaining wrappers read from GLib and from the default
    [GVfs]. *)
Class GLibEnvironment : Type := {
  (** [g_vfs_get_supported_uri_schemes (g_vfs_get_default ())] *)
  g_vfs_get_supported_uri_schemes : option (list string);
  (** [g_get_system_data_dirs ()] *)
  g_get_system_data_dirs : option (list string);
  (** [g_filename_to_uri (filename, NULL, NULL)]; NULL when it fails *)
  g_filename_to_uri : string -> option string;
  (** [g_uri_list_extract_uris (uri_list)] *)
  g_uri_list_extract_uris : string -> list string
}.

(** Two more methods of [GFile] that do no I/O. *)
Class GFilePaths (GFile : Type) : Type := {
  g_file_has_uri_scheme : GFile -> string -> bool;
  g_file_get_relative_path : GFile -> GFile -> option string
}.

(** The array [device_icon_name] (lines 51-80), without its terminating
    NULL entry: a pattern for the icon name, and the message for the type
    of the device. *)
Definition device_icon_name : list (string * string) := [
  (* Implementation specific *)
  ("multimedia-player-apple-ipod-touch", "iPod touch");
  ("computer-apple-ipad", "iPad");
  ("phone-apple-iphone", "iPhone");
  ("drive-harddisk-solidstate", "Solid State Drive");
  ("drive-harddisk-system", "System Drive");
  ("drive-harddisk-usb", "USB Drive");
  ("drive-removable-media-usb", "USB Drive");
  (* Freedesktop icon-naming-spec *)
  ("camera*", "Camera");
  ("drive-harddisk*", "Harddisk");
  ("drive-optical*", "Optical Drive");
  ("drive-removable-media*", "Removable Drive");
  ("media-flash*", "Flash Drive");
  ("media-floppy*", "Floppy");
  ("media-optical*", "Optical Media");
  ("media-tape*", "Tape");
  ("multimedia-player*", "Multimedia Player");
  ("pda*", "PDA");
  ("phone*", "Phone")
].

(** A NULL-terminated array of strings, as its readers see it: the
    entries before the first NULL. *)
Fixpoint g_strv (array : list (option string)) : list string :=
  match array with
  | Some str :: rest => str :: g_strv rest
  | _ => []
  end.

Section MoreWrappers.
Context {GFile : Type} `{GFileIface GFile} `{Environment}.
Context `{GLibEnvironment} `{GFilePaths GFile}.

(** [g_file_get_path] is a copy of what [g_file_peek_path] points to. *)
Definition g_file_get_path (file : GFile) : option string := g_file_peek_path file.

(** ** Device types (lines 425-434) *)

(** The [for] loop, from the entry [table] of the array on;
    [g_dgettext (NULL, type)] is the catalogue behind [_()]. *)
Fixpoint guess_device_type_from (table : list (string * string)) (icon_name : string)
    : option string :=
  match table with
  | [] => None
  | (pattern, type) :: rest =>
      if g_pattern_match_simple pattern icon_name
      then Some (gettext type)
      else guess_device_type_from rest icon_name
  end.

Definition guess_device_type_from_icon_name (icon_name : string) : option string :=
  guess_device_type_from device_icon_name icon_name.

(** ** Supported URI schemes (lines 590-611) *)

(** The loop [for (n = 0; !supported && supported_schemes[n] != NULL; ++n)],
    from the entry [supported_schemes] on. *)
Fixpoint uri_scheme_supported_from (supported : bool) (supported_schemes : list string)
    (scheme : string) : bool :=
  if negb supported
  then match supported_schemes with
       | candidate :: rest =>
           uri_scheme_supported_from
             (if g_strcmp0_is_0 (Some candidate) (Some scheme) then true else supported)
             rest scheme
       | [] => supported
       end
  else supported.

Definition thunar_g_vfs_is_uri_scheme_supported (scheme : option string) : bool :=
  match scheme with
  | Some scheme =>
      if negb (String.eqb scheme EmptyString)
      then
        let supported := false in
        match g_vfs_get_supported_uri_schemes with
        | Some supported_schemes => uri_scheme_supported_from supported supported_schemes scheme
        | None => false
        end
      else false
  | None => false
  end.

(** ** Lists of files and URI lists (lines 893-947) *)

(** The loop over [uris], from the entry [uris] on. *)
Fixpoint list_new_from_uris (uris : list string) (l : list GFile) : list GFile :=
  match uris with
  | [] => l
  | uri :: rest => list_new_from_uris rest (g_list_append l (g_file_new_for_uri uri))
  end.

Definition thunar_g_file_list_new_from_string (str : string) : list GFile :=
  let l := [] in
  let uris := g_uri_list_extract_uris str in
  list_new_from_uris uris l.

(** The loop over the list, from the node [lp] on: [n] is the next index
    and [uris] the array. *)
Fixpoint list_to_stringv_from (lp : list GFile) (n : nat) (uris : list (option string))
    : list (option string) :=
  match lp with
  | [] => uris
  | data :: next =>
      (* Prefer native paths for interoperability. *)
      match g_file_get_path data with
      | None => list_to_stringv_from next (S n) (<[n := Some (g_file_get_uri data)]> uris)
      | Some path => list_to_stringv_from next (S n) (<[n := g_filename_to_uri path]> uris)
      end
  end.

Definition thunar_g_file_list_to_stringv (l : list GFile) : list (option string) :=
  (* allocate initial string *)
  let uris := replicate (length l + 1) None in
  list_to_stringv_from l 0 uris.

(** ** XDG data directories (lines 1321-1349) *)

Fixpoint is_in_data_dirs_from (path : option string) (data_dirs : list string) : bool :=
  match data_dirs with
  | [] => false
  | data_dir :: rest =>
      if g_str_has_prefix_or_NULL path data_dir
      then true
      else is_in_data_dirs_from path rest
  end.

Definition thunar_g_file_is_in_xdg_data_dir (file : GFile) : bool :=
  let found := false in
  if g_file_is_native file
  then match g_get_system_data_dirs with
       | Some data_dirs =>
           let path := g_file_get_path file in
           is_in_data_dirs_from path data_dirs
       | None => found
       end
  else found.

(** ** Desktop files (lines 1361-1383) *)

(** [g_str_has_suffix] on a NULL base name and [g_object_unref] on a NULL
    [info] log a critical message and do nothing else; the messages are
    not part of the model. *)
Definition thunar_g_file_is_desktop_file (file : GFile) : gio GFile bool :=
  let is_desktop_file := false in
  let basename := g_file_get_basename file in
  (* only allow regular files with a .desktop extension *)
  if g_str_has_suffix basename ".desktop"
  then
    r ← call (g_file_query_info file G_FILE_ATTRIBUTE_STANDARD_TYPE
                G_FILE_QUERY_INFO_NOFOLLOW_SYMLINKS None);
    match gresult_pointer r with
    | Some info =>
        if GFileType_eqb (g_file_info_get_file_type info) G_FILE_TYPE_REGULAR
        then mret true
        else mret is_desktop_file
    | None => mret is_desktop_file
    end
  else mret is_desktop_file.

(** ** The target of a symbolic link to create (lines 1397-1429) *)

(** The loop [while ((parent = g_file_get_parent (root)) != NULL) root = parent;].
    Each iteration spends one unit of [fuel]; [None] is returned when the
    loop is still running after [fuel] iterations. *)
Fixpoint filesystem_root_from (fuel : nat) (root : GFile) : option GFile :=
  match g_file_get_parent root with
  | None => Some root
  | Some parent =>
      match fuel with
      | O => None
      | S fuel => filesystem_root_from fuel parent
      end
  end.

(** The pointer that is returned, which can be NULL. *)
Definition thunar_g_file_get_link_path_for_symlink (fuel : nat) (file_to_link symlink : GFile)
    : option (option string) :=
  if g_file_is_native file_to_link || g_file_is_native symlink
  then Some (g_file_get_path file_to_link)
  else
    (* Search for the filesystem root *)
    match filesystem_root_from fuel file_to_link with
    | Some root =>
        (* Build a absolute path, using the relative path up to the filesystem root *)
        let relative_path := g_file_get_relative_path root file_to_link in
        let link_path := g_strconcat "/" relative_path in
        Some (Some link_path)
    | None => None
    end.

(** What the loop of [thunar_g_file_list_to_stringv] stores for one file. *)
Definition stringv_entry (file : GFile) : option string :=
  match g_file_get_path file with
  | None => Some (g_file_get_uri file)
  | Some path => g_filename_to_uri path
  end.

End MoreWrappers.

(** ** Patterns without wildcards, and patterns that end with the only one *)

(** No ['*'] and no ['?'] in [pattern]. *)
Fixpoint is_literal (pattern : string) : bool :=
  match pattern with
  | EmptyString => true
  | String c pattern' =>
      negb (Ascii.eqb c "*") && negb (Ascii.eqb c "?") && is_literal pattern'
  end.

(** A test on icon names: being [name], or starting with [prefix]. *)
Inductive icon_name_test : Type :=
| IS (name : string)
| STARTS_WITH (prefix : string).

Definition icon_name_passes (test : icon_name_test) (icon_name : string) : bool :=
  match test with
  | IS name => String.eqb icon_name name
  | STARTS_WITH prefix => String.prefix prefix icon_name
  end.

(** [pattern] without its last byte when that is ['*']. *)
Fixpoint before_final_star (pattern : string) : option string :=
  match pattern with
  | EmptyString => None
  | String c EmptyString => if Ascii.eqb c "*" then Some EmptyString else None
  | String c pattern' => String c <$> before_final_star pattern'
  end.

(** The test that a pattern of [device_icon_name] stands for. *)
Definition test_of_pattern (pattern : string) : icon_name_test :=
  match before_final_star pattern with
  | Some prefix => STARTS_WITH prefix
  | None => IS pattern
  end.

(** The prefixes of the families of the icon naming specification that
    [device_icon_name] lists. *)
Definition device_icon_families : list string :=
  ["camera"; "drive-harddisk"; "drive-optical"; "drive-removable-media"; "media-flash";
   "media-floppy"; "media-optical"; "media-tape"; "multimedia-player"; "pda"; "phone"].

(** A pattern of [device_icon_name]: a name, or a prefix and a final ['*']. *)
Definition simple_pattern (pattern : string) : bool :=
  match before_final_star pattern with
  | Some prefix => is_literal prefix
  | None => is_literal pattern
  end.

(** The icon name passes the test of the entry. *)
Definition passes_entry (icon_name : string) (entry : string * string) : bool :=
  icon_name_passes (test_of_pattern entry.1) icon_name.

(** ** More about traces and about handle equality *)

(** The file that a call deletes. *)
Definition deleted_file {GFile : Type} (c : GioCall GFile) : option GFile :=
  match c with
  | g_file_delete file _ => Some file
  | _ => None
  end.

(** Equal handles have equal parents, or both have none. *)
Definition parents_respect_equality {GFile : Type} `{GFileIface GFile} : Prop :=
  forall a b : GFile,
    same_file a b ->
    match g_file_get_parent a, g_file_get_parent b with
    | Some p, Some q => same_file p q
    | None, None => True
    | _, _ => False
    end.

(** ** Programs over other calls

    The remaining wrappers call into parts of GIO and of Thunar that the
    wrappers above do not use.  Their programs are trees over their own
    calls: [Reply c] is what the call [c] hands back. *)

Inductive program (Call : Type) (Reply : Call -> Type) (A : Type) : Type :=
| Return (a : A)
| Perform (c : Call) (k : Reply c -> program Call Reply A).
Arguments Return {Call Reply A} a.
Arguments Perform {Call Reply A} c k.

Fixpoint program_bind {Call : Type} {Reply : Call -> Type} {A B : Type}
    (f : A -> program Call Reply B) (m : program Call Reply A) : program Call Reply B :=
  match m with
  | Return a => f a
  | Perform c k => Perform c (fun r => program_bind f (k r))
  end.

#[export] Instance program_ret {Call : Type} {Reply : Call -> Type} :
  MRet (program Call Reply) := fun A a => Return a.
#[export] Instance program_mbind {Call : Type} {Reply : Call -> Type} :
  MBind (program Call Reply) := fun A B f m => program_bind f m.

Definition perform {Call : Type} {Reply : Call -> Type} (c : Call)
    : program Call Reply (Reply c) :=
  Perform c Return.

(** One call and the reply it got. *)
Inductive step (Call : Type) (Reply : Call -> Type) : Type :=
| Step (c : Call) (r : Reply c).
Arguments Step {Call Reply} c r.

Definition step_call {Call : Type} {Reply : Call -> Type} (s : step Call Reply) : Call :=
  match s with Step c _ => c end.

(** [performs m steps a]: [m] can make the calls of [steps], get their
    replies, and return [a]. *)
Inductive performs {Call : Type} {Reply : Call -> Type} {A : Type}
    : program Call Reply A -> list (step Call Reply) -> A -> Prop :=
| performs_Return (a : A) : performs (Return a) [] a
| performs_Perform (c : Call) (k : Reply c -> program Call Reply A) (r : Reply c)
    (steps : list (step Call Reply)) (a : A) :
    performs (k r) steps a -> performs (Perform c k) (Step c r :: steps) a.

(** A program run against a library that answers each call from its
    state. *)
Fixpoint run_program {Call : Type} {Reply : Call -> Type} {World A : Type}
    (lib : forall c : Call, World -> Reply c * World) (m : program Call Reply A)
    (w : World) : list (step Call Reply) * A * World :=
  match m with
  | Return a => ([], a, w)
  | Perform c k =>
      let '(r, w) := lib c w in
      let '(steps, a, w) := run_program lib (k r) w in
      (Step c r :: steps, a, w)
  end.

(** ** Mounts and writable namespaces *)

Module Mounts.

(** The calls of [thunar_g_file_is_on_local_device] and of
    [thunar_g_vfs_metadata_is_supported]; the [GError **] they are given is
    NULL. *)
Inductive Call (GFile : Type) : Type :=
| g_file_query_exists (file : GFile) (cancellable : option GCancellable)
| g_file_find_enclosing_mount (file : GFile) (cancellable : option GCancellable)
| g_file_query_writable_namespaces (file : GFile) (cancellable : option GCancellable).
Arguments g_file_query_exists {GFile}.
Arguments g_file_find_enclosing_mount {GFile}.
Arguments g_file_query_writable_namespaces {GFile}.

(** The mount is NULL when there is none, and on an error; the list of
    namespaces is the list of the [name]s of a [GFileAttributeInfoList],
    which is never NULL when no cancellable is given. *)
Definition Reply {GFile : Type} (GMount : Type) (c : Call GFile) : Type :=
  match c with
  | g_file_query_exists _ _ => bool
  | g_file_find_enclosing_mount _ _ => option GMount
  | g_file_query_writable_namespaces _ _ => list string
  end.

End Mounts.

Class GMountIface (GMount : Type) : Type := {
  g_mount_can_unmount : GMount -> bool
}.

Section MountWrappers.
Context {GFile : Type} `{GFileIface GFile} `{GFilePaths GFile}.
Context {GMount : Type} `{GMountIface GMount}.

(** The [for] loop of lines 1222-1233, from the handle [target_file] on
    ([None] is NULL): the handle it ends with.  Each iteration spends one
    unit of [fuel]; [None] is returned when the loop is still running after
    [fuel] iterations. *)
Fixpoint existing_target_from (fuel : nat) (target_file : option GFile)
    : program (Mounts.Call GFile) (Mounts.Reply GMount) (option (option GFile)) :=
  match target_file with
  | None => mret (Some None)
  | Some target_file =>
      found ← perform (Mounts.g_file_query_exists target_file None);
      if found : bool
      then mret (Some (Some target_file))
      else
        (* file or parent directory does not exist (yet)
           query the parent directory *)
        match fuel with
        | O => mret None
        | S fuel => existing_target_from fuel (g_file_get_parent target_file)
        end
  end.

Definition thunar_g_file_is_on_local_device (fuel : nat) (file : GFile)
    : program (Mounts.Call GFile) (Mounts.Reply GMount) (option bool) :=
  let is_local := false in
  if negb (g_file_has_uri_scheme file "file") then mret (Some false) else
  target_file ← existing_target_from fuel (Some file);
  match target_file with
  | None => mret None
  | Some None => mret (Some false)
  | Some (Some target_file) =>
      (* file_mount will be NULL for local files on local partitions/devices *)
      file_mount ← perform (Mounts.g_file_find_enclosing_mount target_file None);
      match file_mount with
      | None => mret (Some true)
      | Some file_mount =>
          (* mountpoints which cannot be unmounted are local devices. *)
          mret (Some (negb (g_mount_can_unmount file_mount)))
      end
  end.

(** The loop of lines 1174-1181 over the names of the list. *)
Fixpoint metadata_is_supported_from (infos : list string) : bool :=
  match infos with
  | [] => false
  | name :: rest =>
      if g_strcmp0_is_0 (Some name) (Some "metadata")
      then true
      else metadata_is_supported_from rest
  end.

Definition thunar_g_vfs_metadata_is_supported
    : program (Mounts.Call GFile) (Mounts.Reply GMount) bool :=
  (* get a GFile for the root directory, and obtain the list of writable namespaces for it *)
  let root := thunar_g_file_new_for_root in
  attr_info_list ← perform (Mounts.g_file_query_writable_namespaces root None);
  (* loop through the returned namespace names and check if "metadata" is included *)
  mret (metadata_is_supported_from attr_info_list).

(** The existence checks that found nothing, for the handles of [files]. *)
Definition found_nothing (files : list GFile) : list (step (Mounts.Call GFile) (Mounts.Reply GMount)) :=
  (fun file => Step (Mounts.g_file_query_exists file None) false) <$> files.

End MountWrappers.

(** ** Launching an application (lines 1031-1133) *)

Module Launch.

(** The calls of [thunar_g_app_info_launch], with the arguments it
    chooses: [thunar_file_get] and [g_app_info_set_as_last_used_for_type]
    are given NULL for their [GError **]. *)
Inductive Call (GFile GAppInfo GAppLaunchContext ThunarFile : Type) : Type :=
| thunar_util_change_working_directory (new_directory : string)
| g_app_info_launch (info : GAppInfo) (files : list GFile) (context : GAppLaunchContext)
| thunar_file_get (file : GFile)
| thunar_file_get_content_type (file : ThunarFile)
| thunar_file_get_default_handler (file : ThunarFile)
| g_app_info_get_recommended_for_type (content_type : option string)
| g_app_info_set_as_last_used_for_type (info : GAppInfo) (content_type : option string)
| thunar_file_changed (file : ThunarFile).
Arguments thunar_util_change_working_directory {GFile GAppInfo GAppLaunchContext ThunarFile}.
Arguments g_app_info_launch {GFile GAppInfo GAppLaunchContext ThunarFile}.
Arguments thunar_file_get {GFile GAppInfo GAppLaunchContext ThunarFile}.
Arguments thunar_file_get_content_type {GFile GAppInfo GAppLaunchContext ThunarFile}.
Arguments thunar_file_get_default_handler {GFile GAppInfo GAppLaunchContext ThunarFile}.
Arguments g_app_info_get_recommended_for_type {GFile GAppInfo GAppLaunchContext ThunarFile}.
Arguments g_app_info_set_as_last_used_for_type {GFile GAppInfo GAppLaunchContext ThunarFile}.
Arguments thunar_file_changed {GFile GAppInfo GAppLaunchContext ThunarFile}.

(** [thunar_util_change_working_directory] returns the directory that was
    left, or NULL when it could not change. *)
Definition Reply {GFile GAppInfo GAppLaunchContext ThunarFile : Type}
    (c : Call GFile GAppInfo GAppLaunchContext ThunarFile) : Type :=
  match c with
  | thunar_util_change_working_directory _ => option string
  | g_app_info_launch _ _ _ => gresult unit
  | thunar_file_get _ => option ThunarFile
  | thunar_file_get_content_type _ => option string
  | thunar_file_get_default_handler _ => option GAppInfo
  | g_app_info_get_recommended_for_type _ => list GAppInfo
  | g_app_info_set_as_last_used_for_type _ _ => bool
  | thunar_file_changed _ => unit
  end.

Definition is_change_working_directory {GFile GAppInfo GAppLaunchContext ThunarFile : Type}
    (c : Call GFile GAppInfo GAppLaunchContext ThunarFile) : bool :=
  match c with thunar_util_change_working_directory _ => true | _ => false end.

Definition is_launch {GFile GAppInfo GAppLaunchContext ThunarFile : Type}
    (c : Call GFile GAppInfo GAppLaunchContext ThunarFile) : bool :=
  match c with g_app_info_launch _ _ _ => true | _ => false end.

(** The calls that look at, or change, the application last used for a
    type, and the signal that tells of the change. *)
Definition is_last_used_call {GFile GAppInfo GAppLaunchContext ThunarFile : Type}
    (c : Call GFile GAppInfo GAppLaunchContext ThunarFile) : bool :=
  match c with
  | g_app_info_get_recommended_for_type _
  | g_app_info_set_as_last_used_for_type _ _
  | thunar_file_changed _ => true
  | _ => false
  end.

Definition changed_file {GFile GAppInfo GAppLaunchContext ThunarFile : Type}
    (c : Call GFile GAppInfo GAppLaunchContext ThunarFile) : option ThunarFile :=
  match c with thunar_file_changed file => Some file | _ => None end.

(** A successful [g_app_info_set_as_last_used_for_type (info, ...)]. *)
Definition set_as_last_used {GFile GAppInfo GAppLaunchContext ThunarFile : Type}
    (s : step (Call GFile GAppInfo GAppLaunchContext ThunarFile) Reply) : option GAppInfo :=
  match s with
  | Step c r =>
      match c return Reply c -> option GAppInfo with
      | g_app_info_set_as_last_used_for_type info _ =>
          fun r : bool => if r then Some info else None
      | _ => fun _ => None
      end r
  end.

End Launch.

Class GAppInfoIface (GAppInfo : Type) : Type := {
  g_app_info_equal : GAppInfo -> GAppInfo -> bool;
  (** [g_object_get_data (G_OBJECT (info), key)] *)
  g_object_get_data : GAppInfo -> string -> option user_data
}.

Section LaunchWrapper.
Context {GFile : Type} `{GFileIface GFile}.
Context {GAppInfo : Type} `{GAppInfoIface GAppInfo}.
Context {GAppLaunchContext ThunarFile : Type}.

(** One turn of the loop of lines 1077-1117, for the element [data] of
    the list. *)
Definition update_last_used (info : GAppInfo) (skip_app_info_update : bool) (data : GFile)
    : program (Launch.Call GFile GAppInfo GAppLaunchContext ThunarFile) Launch.Reply unit :=
  let update_app_info := negb skip_app_info_update in
  file ← perform (Launch.thunar_file_get data);
  match file with
  | None => mret tt
  | Some file =>
      content_type ← perform (Launch.thunar_file_get_content_type file);
      (* determine default application *)
      default_app_info ← perform (Launch.thunar_file_get_default_handler file);
      let update_app_info :=
        match default_app_info with
        | Some default_app_info =>
            (* check if the application is the default one *)
            if g_app_info_equal info default_app_info then false else update_app_info
        | None => update_app_info
        end in
      update_app_info ←
        (if update_app_info
         then
           (* obtain list of last used applications *)
           recommended_app_infos ←
             perform (Launch.g_app_info_get_recommended_for_type content_type);
           match recommended_app_infos with
           | first :: _ =>
               (* check if the application is already the last used one
                  by comparing it with the first entry in the list *)
               if g_app_info_equal info first then mret false else mret update_app_info
           | [] => mret update_app_info
           end
         else mret update_app_info);
      (* emit "changed" on the file if we successfully changed the last used application *)
      if update_app_info : bool
      then
        set ← perform (Launch.g_app_info_set_as_last_used_for_type info content_type);
        if set : bool
        then perform (Launch.thunar_file_changed file)
        else mret tt
      else mret tt
  end.

(** The loop, from the node [lp] on. *)
Fixpoint update_last_used_from (info : GAppInfo) (skip_app_info_update : bool)
    (lp : list GFile)
    : program (Launch.Call GFile GAppInfo GAppLaunchContext ThunarFile) Launch.Reply unit :=
  match lp with
  | [] => mret tt
  | data :: next =>
      update_last_used info skip_app_info_update data ≫= λ _,
      update_last_used_from info skip_app_info_update next
  end.

(** The result, and the caller's error slot afterwards; [working_directory]
    is [None] for NULL. *)
Definition thunar_g_app_info_launch (info : GAppInfo) (working_directory : option GFile)
    (path_list : list GFile) (context : GAppLaunchContext)
    (error : bool) (slot : option GError)
    : program (Launch.Call GFile GAppInfo GAppLaunchContext ThunarFile) Launch.Reply
        (bool * option GError) :=
  let result := false in
  match path_list with
  | [] => mret (false, slot)
  | _ :: _ =>
      if negb (error_is_unset error slot) then mret (false, slot) else
      let skip_app_info_update :=
        match g_object_get_data info "skip-app-info-update" with
        | Some _ => true
        | None => false
        end in
      (* check if we want to set the working directory of the spawned app *)
      old_path ←
        match working_directory with
        | Some working_directory =>
            (* determine the working directory path *)
            match g_file_get_path working_directory with
            | Some new_path =>
                (* switch to the desired working directory, remember that of Thunar itself *)
                perform (Launch.thunar_util_change_working_directory new_path)
            | None => mret None
            end
        | None => mret None
        end;
      (* launch the paths with the specified app info *)
      r ← perform (Launch.g_app_info_launch info path_list context);
      let result := gresult_ok r in
      let slot := g_propagate error slot r in
      (* if successful, remember the application as last used for the file types *)
      (if result
       then update_last_used_from info skip_app_info_update path_list
       else mret tt) ≫= λ _,
      (* check if we need to reset the working directory to the one Thunar was
         opened from *)
      match old_path with
      | Some old_path =>
          (* switch to Thunar's original working directory *)
          perform (Launch.thunar_util_change_working_directory old_path) ≫= λ _,
          mret (result, slot)
      | None => mret (result, slot)
      end
  end.

End LaunchWrapper.

(** ** What the loop over the launched files does *)

Section LaunchSteps.
Context {GFile GAppInfo GAppLaunchContext ThunarFile : Type}.

Local Abbreviation launch_step :=
  (step (Launch.Call GFile GAppInfo GAppLaunchContext ThunarFile) Launch.Reply).

(** What one turn of the loop does: no change of directory and no launch;
    with the flag that skips the update nothing about the last used
    application; the signal only straight after a successful change of the
    last used application, to [info]. *)
Definition update_steps (info : GAppInfo) (skip_app_info_update : bool)
    (steps : list launch_step) : Prop :=
  Forall (fun s => Launch.is_change_working_directory (step_call s) = false
                   /\ Launch.is_launch (step_call s) = false) steps
  /\ (skip_app_info_update = true ->
      Forall (fun s => Launch.is_last_used_call (step_call s) = false) steps)
  /\ (forall (i : nat) (s : launch_step),
        steps !! i = Some s -> Launch.changed_file (step_call s) <> None ->
        exists (j : nat) (s' : launch_step),
          i = S j /\ steps !! j = Some s' /\ Launch.set_as_last_used s' = Some info).

End LaunchSteps.

(** ** When the last used application is set *)

Section LaunchChecks.
Context {GFile GAppInfo GAppLaunchContext ThunarFile : Type} `{GAppInfoIface GAppInfo}.

Local Abbreviation launch_step :=
  (step (Launch.Call GFile GAppInfo GAppLaunchContext ThunarFile) Launch.Reply).

Definition is_set_as_last_used (c : Launch.Call GFile GAppInfo GAppLaunchContext ThunarFile)
    : bool :=
  match c with
  | Launch.g_app_info_set_as_last_used_for_type _ _ => true
  | _ => false
  end.

(** Every call that sets the last used application sets [info], for the
    content type of a file of which the four calls before it got the
    handle, the content type, the default handler and the recommended
    applications; [info] is neither that default handler nor the first of
    the recommended applications. *)
Definition set_after_checks (info : GAppInfo) (steps : list launch_step) : Prop :=
  forall (i : nat) (s : launch_step),
    steps !! i = Some s ->
    is_set_as_last_used (step_call s) = true ->
    exists (j : nat) (data : GFile) (file : ThunarFile) (content_type : option string)
           (default_app_info : option GAppInfo) (recommended_app_infos : list GAppInfo),
      i = j + 4
      /\ steps !! j = Some (Step (Launch.thunar_file_get data) (Some file))
      /\ steps !! (j + 1)
         = Some (Step (Launch.thunar_file_get_content_type file) content_type)
      /\ steps !! (j + 2)
         = Some (Step (Launch.thunar_file_get_default_handler file) default_app_info)
      /\ steps !! (j + 3)
         = Some (Step (Launch.g_app_info_get_recommended_for_type content_type)
                   recommended_app_infos)
      /\ step_call s = Launch.g_app_info_set_as_last_used_for_type info content_type
      /\ (forall default : GAppInfo,
            default_app_info = Some default -> g_app_info_equal info default = false)
      /\ (forall (first : GAppInfo) (others : list GAppInfo),
            recommended_app_infos = first :: others -> g_app_info_equal info first = false).

End LaunchChecks.

(** ** A small implementation of the interfaces

    Handles are parsed URIs; the replies of the library are scripted.  The
    theorems below are stated for every implementation; this one provides
    the concrete handles on which they are instantiated. *)

Module Toy.

Record file : Type := { scheme : string; host : string; segments : list string }.

#[export] Instance file_eq_dec : EqDecision file.
Proof. solve_decision. Defined.

(** The pieces of [s] between the occurrences of [sep]. *)
Fixpoint split (sep : ascii) (s : string) : list string :=
  match s with
  | EmptyString => [EmptyString]
  | String c s' =>
      if Ascii.eqb c sep
      then EmptyString :: split sep s'
      else match split sep s' with
           | piece :: pieces => String c piece :: pieces
           | [] => [String c EmptyString]
           end
  end.

Definition nonempty (s : string) : bool := negb (String.eqb s EmptyString).

Definition join_path (segments : list string) : string :=
  "/" +:+ String.concat "/" segments.

Definition new_for_path (path : string) : file :=
  {| scheme := "file"; host := EmptyString; segments := filter nonempty (split "/" path) |}.

(** [scheme://host/seg/...]; an empty path is the root. *)
Definition new_for_uri (uri : string) : file :=
  match split ":" uri with
  | scheme :: _ =>
      let rest := string_drop (S (String.length scheme)) uri in
      if String.prefix "//" rest
      then match split "/" (string_drop 2 rest) with
           | host :: pieces =>
               {| scheme := scheme; host := host; segments := filter nonempty pieces |}
           | [] => {| scheme := scheme; host := EmptyString; segments := [] |}
           end
      else {| scheme := scheme; host := EmptyString;
              segments := filter nonempty (split "/" rest) |}
  | [] => {| scheme := EmptyString; host := EmptyString; segments := [] |}
  end.

Definition get_uri (f : file) : string :=
  scheme f +:+ "://" +:+ host f +:+ join_path (segments f).

Definition is_native (f : file) : bool := String.eqb (scheme f) "file".

Definition get_basename (f : file) : option string :=
  Some (List.last (segments f) "/").

Definition get_parent (f : file) : option file :=
  match segments f with
  | [] => None
  | _ :: _ => Some {| scheme := scheme f; host := host f; segments := removelast (segments f) |}
  end.

Definition get_child (f : file) (name : string) : file :=
  {| scheme := scheme f; host := host f; segments := segments f ++ [name] |}.

#[export] Instance file_iface : GFileIface file := {|
  g_file_new_for_path := new_for_path;
  g_file_new_for_uri := new_for_uri;
  g_file_get_uri := get_uri;
  g_file_get_uri_scheme := fun f => Some (scheme f);
  g_file_get_parse_name := fun f => if is_native f then join_path (segments f) else get_uri f;
  g_file_get_basename := get_basename;
  g_file_peek_path := fun f => if is_native f then Some (join_path (segments f)) else None;
  g_file_get_parent := get_parent;
  g_file_get_child := get_child;
  g_file_equal := fun a b => bool_decide (a = b);
  g_file_is_native := is_native
|}.

(** Percent-decoding. *)
Definition hex_digit (c : ascii) : option nat :=
  let n := nat_of_ascii c in
  if (48 <=? n)%nat && (n <=? 57)%nat then Some (n - 48)%nat
  else if (65 <=? n)%nat && (n <=? 70)%nat then Some (n - 55)%nat
  else if (97 <=? n)%nat && (n <=? 102)%nat then Some (n - 87)%nat
  else None.

Fixpoint unescape (fuel : nat) (s : string) : option string :=
  match fuel with
  | O => Some EmptyString
  | S fuel =>
      match s with
      | EmptyString => Some EmptyString
      | String "%" (String a (String b s')) =>
          match hex_digit a, hex_digit b with
          | Some x, Some y =>
              if (16 * x + y =? 0)%nat then None
              else String (ascii_of_nat (16 * x + y)) <$> unescape fuel s'
          | _, _ => None
          end
      | String "%" _ => None
      | String c s' => String c <$> unescape fuel s'
      end
  end.

(** Bytes below 0x80 only: a stand-in for UTF-8 validation. *)
Fixpoint ascii_only (s : string) : bool :=
  match s with
  | EmptyString => true
  | String c s' => (nat_of_ascii c <? 128)%nat && ascii_only s'
  end.

Definition hex_char (n : nat) : ascii :=
  ascii_of_nat (if (n <? 10)%nat then 48 + n else 55 + n).

Fixpoint occurs (c : ascii) (s : string) : bool :=
  match s with
  | EmptyString => false
  | String a s' => Ascii.eqb a c || occurs c s'
  end.

(** Letters, digits and [-._~]. *)
Definition is_unreserved (c : ascii) : bool :=
  let n := nat_of_ascii c in
  ((48 <=? n)%nat && (n <=? 57)%nat) || ((65 <=? n)%nat && (n <=? 90)%nat)
  || ((97 <=? n)%nat && (n <=? 122)%nat) || occurs c "-._~".

(** Percent-encoding of every byte that is neither unreserved nor allowed.
    Bytes from 0x80 on are always encoded: this stand-in does not decode
    UTF-8. *)
Fixpoint escape (reserved_chars_allowed : string) (s : string) : string :=
  match s with
  | EmptyString => EmptyString
  | String c s' =>
      let n := nat_of_ascii c in
      if is_unreserved c || occurs c reserved_chars_allowed
      then String c (escape reserved_chars_allowed s')
      else String "%" (String (hex_char (n / 16)) (String (hex_char (n mod 16))
                                                     (escape reserved_chars_allowed s')))
  end.

#[export] Instance environment : Environment := {|
  xfce_get_homedir := "/home/user";
  gettext := fun msgid => msgid;
  THUNARX_FILESYSTEM_INFO_NAMESPACE := "filesystem::*";
  g_utf8_validate := ascii_only;
  g_uri_escape_string := fun unescaped reserved_chars_allowed _ =>
                           escape reserved_chars_allowed unescaped;
  g_uri_unescape_string := fun escaped => unescape (String.length escaped) escaped;
  THUNAR_FILE_MODE_USR_EXEC := 64;
  THUNAR_FILE_MODE_GRP_EXEC := 8;
  THUNAR_FILE_MODE_OTH_EXEC := 1
|}.

(** Handles used in the examples. *)
Definition notes : file := new_for_path "/home/user/notes.txt".
Definition backup : file := new_for_path "/media/usb/notes.txt".
Definition backup_partial : file := new_for_path "/media/usb/notes.txt.partial~".
Definition share : file := new_for_uri "sftp://user:pw@host.example.org/some%20dir/x".
Definition request : option GCancellable := Some (Cancellable 7).

(** Key files are their text. *)
#[export] Instance key_file_lib : GKeyFileLib string := {|
  g_key_file_new := EmptyString;
  g_key_file_load_from_data := fun _ data _ _ => inl data;
  g_key_file_to_data := fun key_file => Some key_file
|}.

(** A library whose state is the list of the files that exist: queries
    and copies succeed on existing files, deletion removes a file. *)
Definition ENOENT : GError :=
  g_error_new G_IO_ERROR 1 "No such file or directory".

Definition exists_in (w : list file) (f : file) : bool := bool_decide (f ∈ w).

Definition remove_file (w : list file) (f : file) : list file :=
  filter (fun g => negb (bool_decide (g = f))) w.

Definition regular_info : GFileInfo :=
  <[G_FILE_ATTRIBUTE_STANDARD_TYPE := ATTRIBUTE_UINT32 1]>
    (<[G_FILE_ATTRIBUTE_UNIX_MODE := ATTRIBUTE_UINT32 420]> ∅).

(** A backend that reports the size of the file system but not the free
    space on it. *)
Definition size_only_info : GFileInfo :=
  <[G_FILE_ATTRIBUTE_FILESYSTEM_SIZE := ATTRIBUTE_UINT64 1000]> ∅.

Definition renamed (f : file) (name : string) : file :=
  {| scheme := scheme f; host := host f; segments := removelast (segments f) ++ [name] |}.

Definition lib : library file (list file) :=
  fun c =>
    match c as c' return list file -> reply c' * list file with
    | g_file_query_info f _ _ _ =>
        fun w => (if exists_in w f then G_OK regular_info else G_FAILED ENOENT, w)
    | g_file_query_filesystem_info f _ _ =>
        fun w => (G_OK size_only_info, w)
    | g_file_query_exists f _ =>
        fun w => (exists_in w f, w)
    | g_file_delete f _ =>
        fun w => if exists_in w f then (G_OK tt, remove_file w f) else (G_FAILED ENOENT, w)
    | g_file_copy source destination _ _ _ _ =>
        fun w => if exists_in w source
                 then (G_OK tt, destination :: remove_file w destination)
                 else (G_FAILED ENOENT, w)
    | g_file_set_display_name f name _ =>
        fun w => if exists_in w f
                 then (G_OK (renamed f name), renamed f name :: remove_file w f)
                 else (G_FAILED ENOENT, w)
    | g_file_load_contents f _ =>
        fun w => (if exists_in w f then G_OK EmptyString else G_FAILED ENOENT, w)
    | g_file_replace_contents f _ _ _ =>
        fun w => (G_OK tt, f :: remove_file w f)
    | g_file_set_attribute_uint32 f _ _ _ _ =>
        fun w => (if exists_in w f then G_OK tt else G_FAILED ENOENT, w)
    | xfce_g_file_create_checksum f _ =>
        fun w => (if exists_in w f then G_OK "d41d8cd9" else G_FAILED ENOENT, w)
    | g_warning _ =>
        fun w => (tt, w)
    end.

(** [file://] in front of an absolute file name. *)
Definition filename_to_uri (filename : string) : option string :=
  if String.prefix "/" filename then Some ("file://" +:+ filename) else None.

Definition newline : ascii := ascii_of_nat 10.

(** The lines that are neither empty nor comments. *)
Definition extract_uris (uri_list : string) : list string :=
  filter (fun line => nonempty line && negb (String.prefix "#" line)) (split newline uri_list).

#[export] Instance glib_environment : GLibEnvironment := {|
  g_vfs_get_supported_uri_schemes := Some ["file"; "trash"; "sftp"];
  g_get_system_data_dirs := Some ["/usr/local/share"; "/usr/share"];
  g_filename_to_uri := filename_to_uri;
  g_uri_list_extract_uris := extract_uris
|}.

(** The segments of [descendant] below [parent], when there are some. *)
Fixpoint segments_below (parent descendant : list string) : option (list string) :=
  match parent, descendant with
  | [], _ :: _ => Some descendant
  | p :: parent, d :: descendant =>
      if String.eqb p d then segments_below parent descendant else None
  | _, [] => None
  end.

Definition get_relative_path (parent descendant : file) : option string :=
  if String.eqb (scheme parent) (scheme descendant) && String.eqb (host parent) (host descendant)
  then String.concat "/" <$> segments_below (segments parent) (segments descendant)
  else None.

#[export] Instance file_paths : GFilePaths file := {|
  g_file_has_uri_scheme := fun f uri_scheme => String.eqb (scheme f) uri_scheme;
  g_file_get_relative_path := get_relative_path
|}.

(** Mounts are named by their mount points; the volumes below [/media]
    are mounted and can be unmounted. *)
#[export] Instance mount_iface : GMountIface string := {|
  g_mount_can_unmount := fun mount => String.prefix "/media/" mount
|}.

Definition enclosing_mount (f : file) : option string :=
  match segments f with
  | top :: volume :: _ =>
      if String.eqb top "media" then Some ("/media/" +:+ volume) else None
  | _ => None
  end.

Definition mount_lib : forall c : Mounts.Call file, list file -> Mounts.Reply string c * list file :=
  fun c =>
    match c as c' return list file -> Mounts.Reply string c' * list file with
    | Mounts.g_file_query_exists f _ => fun w => (exists_in w f, w)
    | Mounts.g_file_find_enclosing_mount f _ => fun w => (enclosing_mount f, w)
    | Mounts.g_file_query_writable_namespaces _ _ => fun w => (["xattr"; "metadata"], w)
    end.

(** Applications are their names; [helper] carries the flag that skips
    the update of the last used application. *)
#[export] Instance app_info_iface : GAppInfoIface string := {|
  g_app_info_equal := String.eqb;
  g_object_get_data := fun info key =>
    if String.eqb info "helper" && String.eqb key "skip-app-info-update"
    then Some (UserData 1)
    else None
|}.

(** A desktop whose state is the working directory of the process:
    every file is a text file, which [mousepad] opens by default. *)
Definition launch_lib
    : forall c : Launch.Call file string unit file, string -> Launch.Reply c * string :=
  fun c =>
    match c as c' return string -> Launch.Reply c' * string with
    | Launch.thunar_util_change_working_directory new_directory =>
        fun cwd => (Some cwd, new_directory)
    | Launch.g_app_info_launch _ _ _ => fun cwd => (G_OK tt, cwd)
    | Launch.thunar_file_get f => fun cwd => (Some f, cwd)
    | Launch.thunar_file_get_content_type _ => fun cwd => (Some "text/plain", cwd)
    | Launch.thunar_file_get_default_handler _ => fun cwd => (Some "mousepad", cwd)
    | Launch.g_app_info_get_recommended_for_type _ => fun cwd => (["mousepad"], cwd)
    | Launch.g_app_info_set_as_last_used_for_type _ _ => fun cwd => (true, cwd)
    | Launch.thunar_file_changed _ => fun cwd => (tt, cwd)
    end.

(** More handles for the examples. *)
Definition home : file := new_for_path "/home/user".
Definition usb : file := new_for_path "/media/usb".
Definition launcher : file := new_for_path "/usr/share/applications/thunar.desktop".
Definition share_root : file := new_for_uri "sftp://user:pw@host.example.org/".
Definition uri_list : string :=
  "sftp://host/a" +:+ String newline "file:///home/user/notes.txt".

(** A name of 100 bytes followed by [.partial~], and the file of that name
    on the volume: the partial file of this file is the file itself. *)
Definition own_partial_name : string :=
  "0123456789012345678901234567890123456789012345678901234567890123456789012345678901234567890123456789.partial~".
Definition own_partial : file := get_child usb own_partial_name.

(** The copy of [notes] to [backup], asked with the partial option. *)
Definition copy_notes (flags : GFileCopyFlags) : gio file (bool * option GError) :=
  thunar_g_file_copy notes backup flags true request None (UserData 0) true None.

Definition type_query_of_notes : event file :=
  Event (g_file_query_info notes "standard::type" 0%Z request) (G_OK regular_info).

End Toy.

(** * Properties *)

(** ** Executions *)

Section Executions.
Context {GFile : Type}.

Lemma exec_inv {A : Type} (m : gio GFile A) (trace : list (event GFile)) (a : A) :
  exec m trace a ->
  match m with
  | Ret a' => trace = [] /\ a = a'
  | Call c k => exists r trace', trace = Event c r :: trace' /\ exec (k r) trace' a
  end.
Proof. destruct 1; eauto. Qed.

Lemma exec_Ret_iff {A : Type} (a a' : A) (trace : list (event GFile)) :
  exec (Ret a') trace a <-> trace = [] /\ a = a'.
Proof.
  split.
  - apply (exec_inv (Ret a')).
  - intros [-> ->]. constructor.
Qed.

Lemma exec_Call_iff {A : Type} (c : GioCall GFile) (k : reply c -> gio GFile A)
    (trace : list (event GFile)) (a : A) :
  exec (Call c k) trace a <->
  exists r trace', trace = Event c r :: trace' /\ exec (k r) trace' a.
Proof.
  split.
  - apply (exec_inv (Call c k)).
  - intros (r & trace' & -> & Hk). by constructor.
Qed.

Lemma exec_bind {A B : Type} (m : gio GFile A) (f : A -> gio GFile B)
    (trace : list (event GFile)) (b : B) :
  exec (m ≫= f) trace b <->
  exists trace1 a trace2,
    exec m trace1 a /\ exec (f a) trace2 b /\ trace = trace1 ++ trace2.
Proof.
  revert trace. induction m as [a | c k IH]; intros trace; simpl.
  - split.
    + intros Hf. exists [], a, trace. split; [constructor | done].
    + intros (trace1 & a' & trace2 & Hm & Hf & ->).
      apply exec_Ret_iff in Hm as [-> ->]. done.
  - change (Call c k ≫= f) with (Call c (fun r => k r ≫= f)).
    rewrite exec_Call_iff. split.
    + intros (r & trace' & -> & Hk). apply IH in Hk as (trace1 & a & trace2 & Hm & Hf & ->).
      exists (Event c r :: trace1), a, trace2. split; [by constructor | done].
    + intros (trace1 & a & trace2 & Hm & Hf & ->).
      apply exec_Call_iff in Hm as (r & trace' & -> & Hk).
      exists r, (trace' ++ trace2). split; [done |]. apply IH. eauto 6.
Qed.

Lemma exec_call (c : GioCall GFile) (trace : list (event GFile)) (r : reply c) :
  exec (call c) trace r <-> trace = [Event c r].
Proof.
  unfold call. rewrite exec_Call_iff. split.
  - intros (r' & trace' & -> & Hr). apply exec_Ret_iff in Hr as [-> ->]. done.
  - intros ->. exists r, []. split; [done | constructor].
Qed.

(** Running a program against a library is one of its executions: every
    program returns, whatever the library answers. *)
Lemma run_exec {World A : Type} (lib : library GFile World) (m : gio GFile A) (w : World) :
  exec m (run lib m w).1.1 (run lib m w).1.2.
Proof.
  revert w. induction m as [a | c k IH]; intros w; simpl.
  - constructor.
  - destruct (lib c w) as [r w'] eqn:Hlib.
    specialize (IH r w'). destruct (run lib (k r) w') as [[trace a] w''].
    simpl in *. by constructor.
Qed.

End Executions.

(** ** Pseudo-locations *)

Section PseudoLocations.
Context {GFile : Type} `{GFileIface GFile} `{Environment}.

(** C7: each constructor of a named pseudo-location is the handle of the
    fixed string the design document gives for the name: the path of the
    user's home directory for home, the URIs [trash:///], [recent:///],
    [computer://] and [network://] for the others.  The constructors are
    plain values: they are not [gio] programs and make no call. *)
Theorem pseudo_location_constructor_fixed_string (name : pseudo_location) :
  pseudo_location_constructor name
  = g_file_new_for_location_string (pseudo_location_string name).
Proof. destruct name; reflexivity. Qed.

Lemma g_strcmp0_is_0_spec (a b : string) :
  g_strcmp0_is_0 (Some a) (Some b) = true <-> a = b.
Proof. apply String.eqb_eq. Qed.

(** Each predicate compares the URI that the library reports for a handle
    with a literal, and each constructor hands a literal to the library:
    the predicate accepts the handle of its constructor exactly when the
    library reports that literal for the handle it made from the
    constructor's. *)
Lemma pseudo_location_predicates_by_library :
  (thunar_g_file_is_trash thunar_g_file_new_for_trash = true
   <-> g_file_get_uri (g_file_new_for_uri "trash:///") = "trash:///")
  /\ (thunar_g_file_is_recent thunar_g_file_new_for_recent = true
      <-> g_file_get_uri (g_file_new_for_uri "recent:///") = "recent:///")
  /\ (thunar_g_file_is_computer thunar_g_file_new_for_computer = true
      <-> g_file_get_uri (g_file_new_for_uri "computer://") = "computer:///")
  /\ (thunar_g_file_is_network thunar_g_file_new_for_network = true
      <-> g_file_get_uri (g_file_new_for_uri "network://") = "network:///").
Proof. repeat split; apply g_strcmp0_is_0_spec. Qed.

(** ** Display names *)

(** The cascade of lines 487-494, in its order: the label [File System]
    for the base name [/]; otherwise the label [Trash] for a handle that
    [thunar_g_file_is_trash] accepts; otherwise the base name itself when it
    is valid UTF-8; otherwise what [g_uri_escape_string] makes of it. *)
Lemma thunar_g_file_get_display_name_cases (file : GFile) (base_name : string) :
  g_file_get_basename file = Some base_name ->
  (base_name = "/" ->
     thunar_g_file_get_display_name file = gettext "File System")
  /\ (base_name <> "/" -> g_file_get_uri file = "trash:///" ->
     thunar_g_file_get_display_name file = gettext "Trash")
  /\ (base_name <> "/" -> g_file_get_uri file <> "trash:///" ->
      g_utf8_validate base_name = true ->
     thunar_g_file_get_display_name file = base_name)
  /\ (base_name <> "/" -> g_file_get_uri file <> "trash:///" ->
      g_utf8_validate base_name = false ->
     thunar_g_file_get_display_name file
     = g_uri_escape_string base_name G_URI_RESERVED_CHARS_ALLOWED_IN_PATH true).
Proof.
  intros Hbase. unfold thunar_g_file_get_display_name, strcmp_is_0. rewrite Hbase.
  destruct (String.eqb_spec base_name "/") as [Hroot | Hroot].
  { repeat split; intros; done. }
  unfold thunar_g_file_is_trash.
  destruct (g_strcmp0_is_0 (Some (g_file_get_uri file)) (Some "trash:///")) eqn:Htrash.
  { apply g_strcmp0_is_0_spec in Htrash. repeat split; intros; done. }
  assert (g_file_get_uri file <> "trash:///") as Hnot.
  { intros Heq. apply g_strcmp0_is_0_spec in Heq. congruence. }
  repeat split; intros; try done.
  - match goal with Hv : g_utf8_validate _ = _ |- _ => by rewrite Hv end.
  - match goal with Hv : g_utf8_validate _ = _ |- _ => by rewrite Hv end.
Qed.

(** C6: the test of the base name against [/] comes before the test for
    the trash root (lines 487-490): a handle that [thunar_g_file_is_trash]
    accepts and whose base name is [/] gets the label [File System], not
    the label [Trash]. *)
Theorem thunar_g_file_get_display_name_trash_root (file : GFile) :
  g_file_get_basename file = Some "/" ->
  thunar_g_file_is_trash file = true ->
  thunar_g_file_get_display_name file = gettext "File System".
Proof.
  intros Hbase _. unfold thunar_g_file_get_display_name. by rewrite Hbase.
Qed.

End PseudoLocations.

(** ** Walks along parent links *)

Section Parents.
Context {GFile : Type} `{GFileIface GFile}.

Lemma is_descendant_from_chain (ancestor : GFile) (file : GFile) (chain : list GFile) :
  parent_chain file chain ->
  forall fuel, length chain <= fuel ->
    is_descendant_from fuel (Some file) ancestor
    = Some (existsb (fun f => g_file_equal f ancestor) chain).
Proof.
  induction 1 as [file Hroot | file parent chain Hparent Hchain IH]; intros fuel Hfuel;
    (destruct fuel as [| fuel]; simpl in *; [lia |]);
    (destruct (g_file_equal file ancestor); [done |]).
  - rewrite Hroot. by destruct fuel.
  - rewrite Hparent. apply IH. lia.
Qed.

Lemma is_descendant_from_first_match (ancestor : GFile) (file : GFile) (chain : list GFile) :
  parent_chain file chain ->
  forall before f after,
    chain = before ++ f :: after ->
    g_file_equal f ancestor = true ->
    is_descendant_from (length before) (Some file) ancestor = Some true.
Proof.
  induction 1 as [file Hroot | file parent chain Hparent Hchain IH];
    intros before f after Hsplit Hmatch.
  - destruct before as [| g before]; simplify_eq/=.
    + by rewrite Hmatch.
    + by destruct before.
  - destruct before as [| g before]; simplify_eq/=.
    + by rewrite Hmatch.
    + destruct (g_file_equal g ancestor); [done |].
      rewrite Hparent. by eapply IH.
Qed.

(** C8: when the parent links from the candidate lead to a root, through
    the handles of [chain], the check returns (given fuel for the walk),
    and it returns TRUE exactly when a handle of [chain] equals the
    ancestor.  The walk stops at the first match: as many iterations as
    there are handles before it are enough; the candidate itself is the
    first handle looked at. *)
Theorem thunar_g_file_is_descendant_iff (descendant ancestor : GFile) (chain : list GFile) :
  parent_chain descendant chain ->
  (exists result : bool,
     (forall fuel, length chain <= fuel ->
        thunar_g_file_is_descendant fuel descendant ancestor = Some result)
     /\ (result = true <-> exists f, f ∈ chain /\ g_file_equal f ancestor = true))
  /\ (forall before f after,
        chain = before ++ f :: after ->
        g_file_equal f ancestor = true ->
        thunar_g_file_is_descendant (length before) descendant ancestor = Some true)
  /\ (g_file_equal descendant ancestor = true ->
        forall fuel, thunar_g_file_is_descendant fuel descendant ancestor = Some true).
Proof.
  intros Hchain. split; [| split].
  - exists (existsb (fun f => g_file_equal f ancestor) chain). split.
    + intros fuel Hfuel. by apply is_descendant_from_chain.
    + rewrite existsb_exists. by setoid_rewrite list_elem_of_In.
  - intros before f after. by apply is_descendant_from_first_match.
  - intros Heq fuel. unfold thunar_g_file_is_descendant. destruct fuel; simpl; by rewrite Heq.
Qed.

Lemma folder_already_added_iff (folders : list GFile) (parent_folder : GFile) :
  folder_already_added folders parent_folder = true
  <-> exists q, q ∈ folders /\ same_file q parent_folder.
Proof.
  unfold same_file. induction folders as [| data next IH]; simpl.
  - split; [done |]. intros (q & Hq & _). by apply elem_of_nil in Hq.
  - destruct (g_file_equal data parent_folder) eqn:Heq.
    + split; [| done]. intros _. exists data. split; [left | done].
    + rewrite IH. split.
      * intros (q & Hq & Hsame). exists q. split; [by right | done].
      * intros (q & Hq & Hsame). apply elem_of_cons in Hq as [-> | Hq]; [congruence |].
        by exists q.
Qed.

Lemma distinct_folders_nil : distinct_folders [].
Proof. intros i j p q _ Hi. by rewrite lookup_nil in Hi. Qed.

Lemma distinct_folders_snoc (folders : list GFile) (parent_folder : GFile) :
  distinct_folders folders ->
  folder_already_added folders parent_folder = false ->
  distinct_folders (g_list_append folders parent_folder).
Proof.
  intros Hdistinct Hnew i j p q Hij Hi Hj. unfold g_list_append in *.
  apply lookup_snoc_Some in Hj as [[Hlt Hj] | [-> ->]].
  - rewrite lookup_app_l in Hi by lia. exact (Hdistinct i j p q Hij Hi Hj).
  - rewrite lookup_app_l in Hi by lia.
    destruct (g_file_equal p q) eqn:Heq; [| done].
    assert (folder_already_added folders q = true) as Hadded.
    { apply folder_already_added_iff. exists p. split; [| done].
      by eapply list_elem_of_lookup_2. }
    congruence.
Qed.

(** The outer loop extends the folders it has with parents of files of the
    list, keeps them distinct, and ends with a folder equal to the parent
    of each file. *)
Lemma list_get_parents_from_spec (file_list : list (gpointer GFile)) :
  forall folders : list GFile,
    distinct_folders folders ->
    exists added : list GFile,
      list_get_parents_from file_list folders = folders ++ added
      /\ distinct_folders (folders ++ added)
      /\ (forall p, p ∈ added ->
            exists file, G_FILE file ∈ file_list /\ g_file_get_parent file = Some p)
      /\ (Reflexive same_file ->
          forall file p, G_FILE file ∈ file_list -> g_file_get_parent file = Some p ->
            exists q, q ∈ folders ++ added /\ same_file q p).
Proof.
  induction file_list as [| data next IH]; intros folders Hdistinct; simpl.
  - exists []. rewrite app_nil_r. repeat split; try done.
    + intros p Hp. by apply elem_of_nil in Hp.
    + intros _ file p Hin. by apply elem_of_nil in Hin.
  - destruct data as [file |].
    2:{ destruct (IH folders Hdistinct) as (added & Heq & Hd & Hparents & Hall).
        exists added. repeat split; try done.
        - intros p Hp. destruct (Hparents p Hp) as (f & Hf & Hfp).
          exists f. split; [by right | done].
        - intros Hrefl f p Hf Hfp. apply elem_of_cons in Hf as [Hf | Hf]; [done |].
          by eapply Hall. }
    destruct (g_file_get_parent file) as [parent_folder |] eqn:Hparent.
    2:{ destruct (IH folders Hdistinct) as (added & Heq & Hd & Hparents & Hall).
        exists added. repeat split; try done.
        - intros p Hp. destruct (Hparents p Hp) as (f & Hf & Hfp).
          exists f. split; [by right | done].
        - intros Hrefl f p Hf Hfp. apply elem_of_cons in Hf as [Hf | Hf].
          + simplify_eq.
          + by eapply Hall. }
    destruct (folder_already_added folders parent_folder) eqn:Hadded.
    + destruct (IH folders Hdistinct) as (added & Heq & Hd & Hparents & Hall).
      exists added. repeat split; try done.
      * intros p Hp. destruct (Hparents p Hp) as (f & Hf & Hfp).
        exists f. split; [by right | done].
      * intros Hrefl f p Hf Hfp. apply elem_of_cons in Hf as [Hf | Hf].
        -- injection Hf as ->. rewrite Hparent in Hfp. injection Hfp as <-.
           apply folder_already_added_iff in Hadded as (q & Hq & Hsame).
           exists q. split; [| done]. apply elem_of_app. by left.
        -- by eapply Hall.
    + destruct (IH (g_list_append folders parent_folder)) as (added & Heq & Hd & Hparents & Hall).
      { by apply distinct_folders_snoc. }
      unfold g_list_append in *. rewrite <- app_assoc in Heq, Hd, Hall. simpl in *.
      exists (parent_folder :: added). repeat split; try done.
      * intros p Hp. apply elem_of_cons in Hp as [-> | Hp].
        -- exists file. split; [left | done].
        -- destruct (Hparents p Hp) as (f & Hf & Hfp). exists f. split; [by right | done].
      * intros Hrefl f p Hf Hfp. apply elem_of_cons in Hf as [Hf | Hf].
        -- injection Hf as ->. rewrite Hparent in Hfp. injection Hfp as <-.
           exists parent_folder. split; [| apply Hrefl].
           apply elem_of_app. right. left.
        -- by eapply Hall.
Qed.

Lemma list_get_parents_from_filter (file_list : list (gpointer GFile)) :
  forall folders : list GFile,
    list_get_parents_from file_list folders
    = list_get_parents_from (List.filter has_parent_folder file_list) folders.
Proof.
  induction file_list as [| data next IH]; intros folders; simpl; [done |].
  destruct data as [file |]; simpl; [| done].
  destruct (g_file_get_parent file) as [parent_folder |] eqn:Hparent; simpl; [| done].
  rewrite Hparent. destruct (folder_already_added folders parent_folder); apply IH.
Qed.

(** C10: when handle equality is an equivalence, the returned list holds
    exactly one entry for each parent folder of the input: its entries
    are pairwise non-equal, each is the parent of an input file, the parent
    of each input file is equal to the entry at exactly one position, and
    the elements that are no file handles or have no parent can be left
    out of the input without changing the result. *)
Theorem thunar_g_file_list_get_parents_one_entry_per_parent
    (file_list : list (gpointer GFile)) :
  Equivalence same_file ->
  let parents := thunar_g_file_list_get_parents file_list in
  (forall (i j : nat) (p q : GFile),
     i <> j -> parents !! i = Some p -> parents !! j = Some q -> g_file_equal p q = false)
  /\ (forall p, p ∈ parents ->
        exists file, G_FILE file ∈ file_list /\ g_file_get_parent file = Some p)
  /\ (forall file p, G_FILE file ∈ file_list -> g_file_get_parent file = Some p ->
        exists (i : nat) (q : GFile),
          parents !! i = Some q /\ g_file_equal q p = true
          /\ forall (j : nat) (q' : GFile),
               parents !! j = Some q' -> g_file_equal q' p = true -> j = i)
  /\ parents = thunar_g_file_list_get_parents (List.filter has_parent_folder file_list).
Proof.
  intros [Hrefl Hsym Htrans] parents.
  destruct (list_get_parents_from_spec file_list [] distinct_folders_nil)
    as (added & Heq & Hdistinct & Hparents & Hall).
  simpl in *. fold (thunar_g_file_list_get_parents file_list) in Heq. fold parents in Heq.
  rewrite <- Heq in *. clear Heq added.
  assert (forall (i j : nat) (p q : GFile),
            i <> j -> parents !! i = Some p -> parents !! j = Some q ->
            g_file_equal p q = false) as Hpairwise.
  { intros i j p q Hij Hi Hj.
    destruct (decide (i < j)) as [Hlt | Hge]; [exact (Hdistinct i j p q Hlt Hi Hj) |].
    destruct (g_file_equal p q) eqn:Hpq; [| done].
    apply Hsym in Hpq. unfold same_file in Hpq.
    rewrite (Hdistinct j i q p) in Hpq; [done | lia | done | done]. }
  repeat split; try done.
  - intros file p Hfile Hparent.
    destruct (Hall Hrefl file p Hfile Hparent) as (q & Hq & Hsame).
    apply list_elem_of_lookup in Hq as [i Hi].
    exists i, q. repeat split; try done.
    intros j q' Hj Hsame'.
    destruct (decide (j = i)) as [| Hne]; [done |].
    assert (same_file q' q) as Hqq.
    { eapply Htrans; [exact Hsame' |]. by apply Hsym. }
    unfold same_file in Hqq. by rewrite (Hpairwise j i q' q) in Hqq.
  - apply list_get_parents_from_filter.
Qed.

End Parents.

(** ** Offsets into a buffer and the strings they point to *)

Section Buffers.

Lemma string_drop_0 (s : string) : string_drop 0 s = s.
Proof. by destruct s. Qed.

Lemma string_drop_empty (n : nat) : string_drop n EmptyString = EmptyString.
Proof. by destruct n. Qed.

Lemma string_drop_add (a b : nat) (s : string) :
  string_drop (a + b) s = string_drop b (string_drop a s).
Proof.
  revert s. induction a as [| a IH]; intros s; simpl; [done |].
  destruct s as [| c s]; [by rewrite string_drop_empty | apply IH].
Qed.

Lemma string_take_empty (n : nat) : string_take n EmptyString = EmptyString.
Proof. by destruct n. Qed.

Lemma string_drop_length (n : nat) (s : string) :
  String.length (string_drop n s) = String.length s - n.
Proof. revert s. induction n as [| n IH]; intros [| c s]; simpl; done. Qed.

Lemma string_take_length_id (s : string) : string_take (String.length s) s = s.
Proof. induction s as [| c s IH]; simpl; [done | by rewrite IH]. Qed.

Lemma string_drop_take (k m : nat) (s : string) :
  string_drop k (string_take m s) = string_take (m - k) (string_drop k s).
Proof.
  revert m s. induction k as [| k IH]; intros m s; simpl.
  - by rewrite Nat.sub_0_r.
  - destruct m as [| m], s as [| c s]; simpl;
      rewrite ?string_take_empty, ?string_drop_empty; done.
Qed.

Lemma substring_take_drop (p n : nat) (s : string) :
  String.substring p n s = string_take n (string_drop p s).
Proof.
  revert n s. induction p as [| p IH]; intros n s.
  - rewrite string_drop_0. revert s. induction n as [| n IHn]; intros [| c s]; simpl; try done.
    by rewrite IHn.
  - destruct s as [| c s]; simpl; [by destruct n | apply IH].
Qed.

Lemma g_strndup_take_drop (s : string) (p n : nat) :
  g_strndup s p n = string_take n (string_drop p s).
Proof. apply substring_take_drop. Qed.

Lemma g_strdup_drop (s : string) (p : nat) : g_strdup s p = string_drop p s.
Proof.
  unfold g_strdup. rewrite substring_take_drop, <- string_drop_length.
  apply string_take_length_id.
Qed.

Lemma strchr_index_of (s : string) (p : nat) (c : ascii) :
  strchr s p c = (fun i => p + i) <$> index_of c (string_drop p s).
Proof.
  revert p. induction s as [| a s IH]; intros p; simpl.
  - by rewrite string_drop_empty.
  - destruct p as [| p]; simpl.
    + destruct (Ascii.eqb a c); [done |].
      rewrite IH, string_drop_0. by destruct (index_of c s).
    + rewrite IH. by destruct (index_of c (string_drop p s)).
Qed.

Lemma index_of_take (c : ascii) (m : nat) (s : string) :
  index_of c (string_take m s)
  = match index_of c s with
    | Some i => if (i <? m)%nat then Some i else None
    | None => None
    end.
Proof.
  revert m. induction s as [| a s IH]; intros [| m]; simpl; try done.
  - by destruct (if Ascii.eqb a c then _ else _).
  - destruct (Ascii.eqb a c); [done |].
    rewrite IH. destruct (index_of c s) as [i |]; simpl; [| done].
    change (S i <? S m)%nat with (i <? m)%nat. by destruct (i <? m)%nat.
Qed.

Lemma skip_colon_slash_drop (s : string) (p : nat) :
  string_drop (skip_colon_slash s p) s = drop_colons_slashes (string_drop p s).
Proof.
  revert p. induction s as [| a s IH]; intros p; simpl.
  - by rewrite string_drop_empty.
  - destruct p as [| p]; simpl.
    + destruct (Ascii.eqb a ":" || Ascii.eqb a "/"); simpl; [| done].
      by rewrite IH, string_drop_0.
    + apply IH.
Qed.

Lemma append_empty_r (s : string) : s +:+ EmptyString = s.
Proof.
  induction s as [| c s IH]; [done |].
  change (String c s +:+ EmptyString) with (String c (s +:+ EmptyString)). by rewrite IH.
Qed.

End Buffers.

(** ** The remote display name *)

Section RemoteDisplayName.
Context {GFile : Type} `{GFileIface GFile} `{Environment}.

Local Opaque string_drop.

(** One turn of the loop over [skip_chars], on offsets into the buffer [s],
    does what [skip_credential] does on the host string: the pointer [p] is
    [k] bytes into [rest], the string after the scheme and its separators. *)
Lemma skip_login_credential (s : string) (p0 : nat) (slash : option nat) (dot k : nat)
    (c : ascii) :
  let rest := string_drop p0 s in
  let host := match slash with Some sl => string_take sl rest | None => rest end in
  k <= dot ->
  (forall sl, slash = Some sl -> k <= sl) ->
  exists k' : nat,
    skip_login s ((fun i => p0 + i) <$> slash) (p0 + dot) (p0 + k) c = p0 + k'
    /\ skip_credential c (dot - k, string_drop k host) = (dot - k', string_drop k' host)
    /\ k' <= dot
    /\ (forall sl, slash = Some sl -> k' <= sl).
Proof.
  intros rest host Hdot Hslash.
  unfold skip_login, skip_credential.
  rewrite strchr_index_of, string_drop_add. fold rest.
  assert (index_of c (string_drop k host)
          = match index_of c (string_drop k rest) with
            | Some i =>
                if match slash with Some sl => (i <? sl - k)%nat | None => true end
                then Some i else None
            | None => None
            end) as ->.
  { subst host. destruct slash as [sl |].
    - by rewrite string_drop_take, index_of_take.
    - by destruct (index_of c (string_drop k rest)). }
  assert (exists k' : nat,
            p0 + k = p0 + k'
            /\ (dot - k, string_drop k host) = (dot - k', string_drop k' host)
            /\ k' <= dot
            /\ (forall sl, slash = Some sl -> k' <= sl)) as Hsame.
  { by exists k. }
  destruct (index_of c (string_drop k rest)) as [i |]; simpl; [| done].
  destruct slash as [sl |]; simpl.
  - specialize (Hslash sl eq_refl).
    destruct (Nat.ltb_spec (p0 + k + i) (p0 + sl)), (Nat.ltb_spec i (sl - k)); try lia;
      simpl; [| done].
    destruct (Nat.ltb_spec (p0 + k + i) (p0 + dot)), (Nat.ltb_spec i (dot - k)); try lia;
      [| done].
    exists (k + S i). rewrite (string_drop_add k (S i)).
    repeat split; [lia | f_equal; lia | lia |].
    intros sl' [= <-]. lia.
  - destruct (Nat.ltb_spec (p0 + k + i) (p0 + dot)), (Nat.ltb_spec i (dot - k)); try lia;
      [| done].
    exists (k + S i). rewrite (string_drop_add k (S i)).
    repeat split; [lia | f_equal; lia | lia | done].
Qed.

(** The pointer arithmetic of lines 534-564 computes the host and the path
    of [remote_host_and_path]. *)
Lemma remote_host_and_path_offsets (scheme parse_name : string) :
  let p := skip_colon_slash parse_name (strlen scheme) in
  let path := strchr parse_name p "/" in
  let firstdot := strchr parse_name p "." in
  let p :=
    match firstdot with
    | Some firstdot => fold_left (skip_login parse_name path firstdot) skip_chars p
    | None => p
    end in
  match path with
  | Some path => (g_strndup parse_name p (path - p), g_strdup parse_name path)
  | None => (g_strdup parse_name p, "/")
  end
  = remote_host_and_path scheme parse_name.
Proof.
  unfold remote_host_and_path, strlen.
  set (p0 := skip_colon_slash parse_name (String.length scheme)).
  rewrite <- (skip_colon_slash_drop parse_name (String.length scheme)). fold p0.
  set (rest := string_drop p0 parse_name).
  rewrite !strchr_index_of. fold rest.
  set (slash := index_of "/" rest).
  destruct (index_of "." rest) as [dot |]; simpl.
  - destruct (skip_login_credential parse_name p0 slash dot 0 ":")
      as (k1 & Hcode1 & Hspec1 & Hdot1 & Hslash1); [lia | intros; lia |].
    destruct (skip_login_credential parse_name p0 slash dot k1 "@")
      as (k2 & Hcode2 & Hspec2 & Hdot2 & Hslash2); [done | done |].
    fold rest in Hspec1, Hspec2.
    rewrite Nat.add_0_r in Hcode1. rewrite Nat.sub_0_r, string_drop_0 in Hspec1.
    rewrite Hcode1, Hcode2.
    destruct slash as [sl |]; simpl in *.
    + rewrite Hspec1. unfold skip_credential. rewrite Hspec2. simpl.
      rewrite g_strndup_take_drop, g_strdup_drop, !string_drop_add. fold rest.
      rewrite string_drop_take. specialize (Hslash2 sl eq_refl).
      by replace (p0 + sl - (p0 + k2)) with (sl - k2) by lia.
    + rewrite Hspec1. unfold skip_credential. rewrite Hspec2. simpl.
      by rewrite g_strdup_drop, string_drop_add.
  - destruct slash as [sl |]; simpl.
    + rewrite g_strndup_take_drop, g_strdup_drop, string_drop_add. fold rest.
      by replace (p0 + sl - p0) with sl by lia.
    + by rewrite g_strdup_drop.
Qed.

(** C4, amended: for a handle that is not native and whose parse name
    starts with its URI scheme, the display name is made of the host and
    the path of [remote_host_and_path]: the scheme and the [:] and [/] after
    it are stripped; what is left is split at its first [/], with [/] as
    the path when there is none; in the host, what ends with the first [:]
    and then what ends with the first [@] is skipped when that separator
    comes before the first [.] of what is left, in the host or in the path,
    and nothing is skipped when there is no [.].  The path is unescaped and
    the two are formatted with the translation of [%s on %s], which gives
    [<path> on <host>] when the message is not translated and the path
    unescapes. *)
Theorem thunar_g_file_get_display_name_remote_host_and_path
    (mount_point : GFile) (scheme : string) :
  g_file_is_native mount_point = false ->
  g_file_get_uri_scheme mount_point = Some scheme ->
  g_str_has_prefix (g_file_get_parse_name mount_point) scheme = true ->
  let host := (remote_host_and_path scheme (g_file_get_parse_name mount_point)).1 in
  let path := (remote_host_and_path scheme (g_file_get_parse_name mount_point)).2 in
  thunar_g_file_get_display_name_remote mount_point
  = g_strdup_printf (gettext "%s on %s") [g_uri_unescape_string path; Some host]
  /\ (gettext "%s on %s" = "%s on %s" ->
      forall unescaped : string,
        g_uri_unescape_string path = Some unescaped ->
        thunar_g_file_get_display_name_remote mount_point
        = unescaped +:+ " on " +:+ host).
Proof.
  intros Hnative Hscheme Hprefix host path.
  assert (thunar_g_file_get_display_name_remote mount_point
          = g_strdup_printf (gettext "%s on %s") [g_uri_unescape_string path; Some host])
    as Hname.
  { unfold thunar_g_file_get_display_name_remote.
    rewrite Hnative, Hscheme, Hprefix. simpl.
    pose proof (remote_host_and_path_offsets scheme (g_file_get_parse_name mount_point))
      as Hoffsets.
    simpl in Hoffsets. subst host path.
    destruct (remote_host_and_path scheme (g_file_get_parse_name mount_point))
      as [host path].
    by rewrite Hoffsets. }
  split; [done |].
  intros Hmsg unescaped Hunescaped. rewrite Hname, Hmsg, Hunescaped. simpl.
  by rewrite append_empty_r.
Qed.

End RemoteDisplayName.

(** ** Wrappers that call into the library *)

Ltac exec_simpl H :=
  unfold mret, mbind, gio_ret, gio_mbind in H;
  cbn [gio_bind call gresult_pointer gresult_ok negb] in H.

(** Take the next step of the execution [H]: a return or a call. *)
Ltac exec_next H :=
  exec_simpl H;
  lazymatch type of H with
  | exec (Ret _) _ _ => apply exec_Ret_iff in H as [-> H]
  | exec (Call _ _) _ _ =>
      let r := fresh "r" in
      let trace := fresh "trace" in
      apply exec_Call_iff in H as (r & trace & -> & H)
  end.

Section FreeSpace.
Context {GFile : Type} `{GFileIface GFile} `{Environment}.

(** What [thunar_g_file_get_free_space] returns: one query, and the answer
    of the last test that was made. *)
Lemma thunar_g_file_get_free_space_result (file : GFile)
    (fs_free_return fs_size_return : bool)
    (trace : list (event GFile)) (res : bool * option Z * option Z) :
  exec (thunar_g_file_get_free_space file fs_free_return fs_size_return) trace res ->
  exists r : gresult GFileInfo,
    trace = [Event (g_file_query_filesystem_info file THUNARX_FILESYSTEM_INFO_NAMESPACE None) r]
    /\ res.1.1
       = match r with
         | G_OK info =>
             if fs_size_return
             then g_file_info_has_attribute info G_FILE_ATTRIBUTE_FILESYSTEM_SIZE
             else if fs_free_return
                  then g_file_info_has_attribute info G_FILE_ATTRIBUTE_FILESYSTEM_FREE
                  else false
         | G_FAILED _ => false
         end.
Proof.
  intros Hexec. unfold thunar_g_file_get_free_space in Hexec.
  exec_next Hexec. exists r.
  destruct r as [info | e]; exec_simpl Hexec.
  - destruct fs_free_return, fs_size_return; simpl in Hexec; exec_next Hexec; by subst.
  - exec_next Hexec. by subst.
Qed.

(** C1, amended: [thunar_g_file_get_free_space] reports success only if the
    filesystem info was obtained and an attribute that the caller asked for
    is present in it: the total size when [fs_size_return] is not NULL; the
    free space when [fs_size_return] is NULL, and [fs_free_return] is then
    not NULL. *)
Theorem thunar_g_file_get_free_space_success_only_if (file : GFile)
    (fs_free_return fs_size_return : bool)
    (trace : list (event GFile)) (success : bool) (fs_free fs_size : option Z) :
  exec (thunar_g_file_get_free_space file fs_free_return fs_size_return) trace
    (success, fs_free, fs_size) ->
  success = true ->
  exists info : GFileInfo,
    trace = [Event (g_file_query_filesystem_info file THUNARX_FILESYSTEM_INFO_NAMESPACE None)
               (G_OK info)]
    /\ (fs_size_return = true ->
        g_file_info_has_attribute info G_FILE_ATTRIBUTE_FILESYSTEM_SIZE = true)
    /\ (fs_size_return = false ->
        fs_free_return = true
        /\ g_file_info_has_attribute info G_FILE_ATTRIBUTE_FILESYSTEM_FREE = true).
Proof.
  intros Hexec ->.
  destruct (thunar_g_file_get_free_space_result _ _ _ _ _ Hexec) as (r & -> & Hres).
  simpl in Hres. destruct r as [info | e]; [| done].
  exists info. split; [done |].
  destruct fs_size_return, fs_free_return; split; intros; done.
Qed.

End FreeSpace.

Section Copy.
Context {GFile : Type} `{GFileIface GFile}.

Lemma g_propagate_cases {A : Type} (error : bool) (slot : option GError) (r : gresult A) :
  g_propagate error slot r = slot
  \/ (error = true /\ slot = None
      /\ exists e, gresult_error r = Some e /\ g_propagate error slot r = Some e).
Proof.
  destruct r as [a | e]; simpl; [by left |].
  destruct error, slot as [old |]; simpl; eauto 8.
Qed.

Lemma g_propagate_NULL {A : Type} (slot : option GError) (r : gresult A) :
  g_propagate false slot r = slot.
Proof. by destruct r. Qed.

(** The tail of the copy (lines 798-838): the stale partial file is looked
    for and deleted, then the copy to the partial file goes one of its three
    ways.  An error that reaches the caller's slot is one that a call of the
    trace reported. *)
Lemma thunar_g_file_copy_to_partial_trace (source destination parent : GFile)
    (flags : GFileCopyFlags) (cancellable : option GCancellable)
    (progress_callback : option GFileProgressCallback) (progress_callback_data : user_data)
    (error : bool) (slot : option GError)
    (trace : list (event GFile)) (success : bool) (slot' : option GError) :
  g_file_get_parent destination = Some parent ->
  exec (thunar_g_file_copy_to_partial source destination flags cancellable
          progress_callback progress_callback_data error slot) trace (success, slot') ->
  let base_name :=
    match g_file_get_basename destination with
    | Some base_name => base_name
    | None => "UNNAMED"
    end in
  let partial := g_file_get_child parent (partial_name_of base_name) in
  exists preparation steps : list (event GFile),
    trace = preparation ++ steps
    /\ (preparation = [Event (g_file_query_exists partial None) false]
        \/ exists deleted : gresult unit,
             preparation = [Event (g_file_query_exists partial None) true;
                            Event (g_file_delete partial None) deleted])
    /\ partial_copy_steps source partial base_name flags cancellable
         progress_callback progress_callback_data steps success
    /\ (slot' = slot
        \/ (error = true /\ slot = None
            /\ exists e, slot' = Some e /\ e ∈ trace_errors trace)).
Proof.
  intros Hparent Hexec base_name partial.
  unfold thunar_g_file_copy_to_partial in Hexec. rewrite Hparent in Hexec.
  fold base_name partial in Hexec.
  exec_next Hexec. rename r into partial_exists.
  assert (forall (pre steps : list (event GFile)) (slot1 : option GError),
            (slot1 = slot
             \/ (error = true /\ slot = None
                 /\ exists e, slot1 = Some e /\ e ∈ trace_errors pre)) ->
            exec
              (r ← call (g_file_copy source partial flags cancellable
                           progress_callback progress_callback_data);
               let success := gresult_ok r in
               let slot := g_propagate error slot1 r in
               '(success, slot) ←
                 (if success
                  then r ← call (g_file_set_display_name partial base_name None);
                       mret (gresult_ok r, g_propagate error slot r)
                  else mret (success, slot));
               (if negb success
                then call (g_file_delete partial None) ≫= λ _, mret tt
                else mret tt) ≫= λ _,
               mret (success, slot)) steps (success, slot') ->
            partial_copy_steps source partial base_name flags cancellable
              progress_callback progress_callback_data steps success
            /\ (slot' = slot
                \/ (error = true /\ slot = None
                    /\ exists e, slot' = Some e /\ e ∈ trace_errors (pre ++ steps))))
    as Hsteps.
  { clear Hexec. intros pre steps slot1 Hslot1 Hexec.
    exec_next Hexec. destruct r as [[] | e_copy]; exec_simpl Hexec.
    - exec_next Hexec. destruct r as [renamed | e_rename]; exec_simpl Hexec.
      + exec_next Hexec. injection Hexec as -> ->.
        split; [constructor |].
        destruct Hslot1 as [-> | (-> & -> & e & -> & He)]; [by left |].
        right. repeat split; try done. exists e. split; [done |].
        unfold trace_errors in *. rewrite omap_app. apply elem_of_app. by left.
      + exec_next Hexec. exec_next Hexec. injection Hexec as -> ->.
        split; [constructor |].
        destruct Hslot1 as [-> | (-> & -> & e & -> & He)].
        * destruct error, slot as [old |]; simpl; try by left.
          right. repeat split; try done. exists e_rename. split; [done |].
          unfold trace_errors. rewrite omap_app. apply elem_of_app. right.
          simpl. left.
        * right. repeat split; try done. exists e. split; [done |].
          unfold trace_errors in *. rewrite omap_app. apply elem_of_app. by left.
    - exec_next Hexec. exec_next Hexec. injection Hexec as -> ->.
      split; [constructor |].
      destruct Hslot1 as [-> | (-> & -> & e & -> & He)].
      * destruct error, slot as [old |]; simpl; try by left.
        right. repeat split; try done. exists e_copy. split; [done |].
        unfold trace_errors. rewrite omap_app. apply elem_of_app. right.
        simpl. left.
      * right. repeat split; try done. exists e. split; [done |].
        unfold trace_errors in *. rewrite omap_app. apply elem_of_app. by left. }
  destruct partial_exists; exec_simpl Hexec.
  - exec_next Hexec. rename r into deleted.
    destruct (Hsteps [Event (g_file_query_exists partial None) true;
                      Event (g_file_delete partial None) deleted] trace
                (g_propagate error slot deleted)) as (Hway & Hslot).
    { destruct (g_propagate_cases error slot deleted)
        as [-> | (-> & -> & e & He & ->)]; [by left |].
      right. repeat split; try done. exists e. split; [done |].
      unfold trace_errors. simpl. rewrite He. left. }
    { exact Hexec. }
    exists [Event (g_file_query_exists partial None) true;
            Event (g_file_delete partial None) deleted], trace.
    split; [reflexivity |]. split; [right; by eexists |]. done.
  - destruct (Hsteps [Event (g_file_query_exists partial None) false] trace0 slot)
      as (Hway & Hslot); [by left | exact Hexec |].
    exists [Event (g_file_query_exists partial None) false], trace0.
    split; [reflexivity |]. split; [by left |]. done.
Qed.

(** The ways through [thunar_g_file_copy] when the destination has a
    parent: the direct copy (the partial option is off, or the type query
    fails or finds no regular file), the refusal (the destination exists and
    may not be overwritten), and the copy through the partial file, after
    the destination was deleted or was found absent. *)
Lemma thunar_g_file_copy_cases (source destination parent : GFile)
    (flags : GFileCopyFlags) (use_partial : bool) (cancellable : option GCancellable)
    (progress_callback : option GFileProgressCallback) (progress_callback_data : user_data)
    (error : bool) (slot : option GError)
    (trace : list (event GFile)) (success : bool) (slot' : option GError) :
  g_file_get_parent destination = Some parent ->
  exec (thunar_g_file_copy source destination flags use_partial cancellable
          progress_callback progress_callback_data error slot) trace (success, slot') ->
  let query :=
    g_file_query_info source G_FILE_ATTRIBUTE_STANDARD_TYPE
      (if flags_and flags G_FILE_COPY_NOFOLLOW_SYMLINKS
       then G_FILE_QUERY_INFO_NOFOLLOW_SYMLINKS
       else G_FILE_QUERY_INFO_NONE) cancellable in
  let copy :=
    g_file_copy source destination flags cancellable
      progress_callback progress_callback_data in
  (use_partial = false
   /\ exists r, trace = [Event copy r]
        /\ success = gresult_ok r /\ slot' = g_propagate error slot r)
  \/ (use_partial = true
      /\ exists (found : reply query) r,
           trace = [Event query found; Event copy r]
           /\ event_file_type (Event query found) <> Some G_FILE_TYPE_REGULAR
           /\ success = gresult_ok r /\ slot' = g_propagate error slot r)
  \/ (use_partial = true
      /\ exists found : reply query,
           trace = [Event query found; Event (g_file_query_exists destination None) true]
           /\ event_file_type (Event query found) = Some G_FILE_TYPE_REGULAR
           /\ flags_and flags G_FILE_COPY_OVERWRITE = false
           /\ success = false
           /\ slot' = if error then Some (file_exists_error destination) else slot)
  \/ (use_partial = true
      /\ exists (found : reply query) (deleted : gresult unit) rest,
           trace = Event query found
                   :: Event (g_file_query_exists destination None) true
                   :: Event (g_file_delete destination None) deleted :: rest
           /\ event_file_type (Event query found) = Some G_FILE_TYPE_REGULAR
           /\ flags_and flags G_FILE_COPY_OVERWRITE = true
           /\ exec (thunar_g_file_copy_to_partial source destination flags cancellable
                      progress_callback progress_callback_data
                      false (if error then None else slot)) rest (success, slot'))
  \/ (use_partial = true
      /\ exists (found : reply query) rest,
           trace = Event query found
                   :: Event (g_file_query_exists destination None) false :: rest
           /\ event_file_type (Event query found) = Some G_FILE_TYPE_REGULAR
           /\ exec (thunar_g_file_copy_to_partial source destination flags cancellable
                      progress_callback progress_callback_data
                      error slot) rest (success, slot')).
Proof.
  intros Hparent Hexec query copy.
  unfold thunar_g_file_copy, g_file_has_parent in Hexec. rewrite Hparent in Hexec.
  exec_simpl Hexec. destruct use_partial; exec_simpl Hexec.
  2:{ left. split; [done |]. exec_next Hexec. exec_next Hexec.
      injection Hexec as -> ->. by exists r. }
  right. exec_next Hexec. rename r into found. fold query in found.
  destruct found as [info | e]; exec_simpl Hexec.
  2:{ left. split; [done |]. exec_next Hexec. exec_next Hexec.
      injection Hexec as -> ->. by exists (G_FAILED e), r. }
  destruct (GFileType_eqb (g_file_info_get_file_type info) G_FILE_TYPE_REGULAR) eqn:Htype;
    exec_simpl Hexec.
  2:{ left. split; [done |]. exec_next Hexec. exec_next Hexec.
      injection Hexec as -> ->. exists (G_OK info), r. repeat split; try done.
      simpl. intros [= Hregular]. by rewrite Hregular in Htype. }
  assert (event_file_type (Event query (G_OK info)) = Some G_FILE_TYPE_REGULAR) as Hregular.
  { simpl. by destruct (g_file_info_get_file_type info). }
  right. exec_next Hexec. rename r into destination_exists.
  destruct destination_exists; exec_simpl Hexec.
  2:{ right. right. split; [done |].
      lazymatch type of Hexec with exec _ ?rest _ => by exists (G_OK info), rest end. }
  destruct (flags_and flags G_FILE_COPY_OVERWRITE) eqn:Hoverwrite; exec_simpl Hexec.
  - right. left. split; [done |]. exec_next Hexec. rename r into deleted.
    rewrite g_propagate_NULL in Hexec. unfold g_clear_error in Hexec.
    lazymatch type of Hexec with exec _ ?rest _ => by exists (G_OK info), deleted, rest end.
  - left. split; [done |]. exec_next Hexec. injection Hexec as -> ->.
    by exists (G_OK info).
Qed.


(** In [thunar_g_file_copy] the caller's cancellable goes to the type query
    and to the copy; the existence checks, the deletions and the renaming
    are given none. *)
Lemma thunar_g_file_copy_cancellable (source destination : GFile)
    (flags : GFileCopyFlags) (use_partial : bool) (cancellable : option GCancellable)
    (progress_callback : option GFileProgressCallback) (progress_callback_data : user_data)
    (error : bool) (slot : option GError)
    (trace : list (event GFile)) (res : bool * option GError) :
  exec (thunar_g_file_copy source destination flags use_partial cancellable
          progress_callback progress_callback_data error slot) trace res ->
  Forall (fun ev => copy_cancellable_rule cancellable (event_call ev)) trace.
Proof.
  destruct res as [success slot']. intros Hexec.
  destruct (g_file_get_parent destination) as [parent |] eqn:Hparent.
  2:{ unfold thunar_g_file_copy, g_file_has_parent in Hexec. rewrite Hparent in Hexec.
      exec_next Hexec. constructor. }
  assert (forall rest error0 slot0,
            exec (thunar_g_file_copy_to_partial source destination flags cancellable
                    progress_callback progress_callback_data error0 slot0)
              rest (success, slot') ->
            Forall (fun ev => copy_cancellable_rule cancellable (event_call ev)) rest)
    as Htail.
  { intros rest error0 slot0 Hrest.
    destruct (thunar_g_file_copy_to_partial_trace _ _ _ _ _ _ _ _ _ _ _ _ Hparent Hrest)
      as (preparation & steps & -> & Hprep & Hsteps & _).
    apply Forall_app. split.
    - destruct Hprep as [-> | [deleted ->]]; by repeat constructor.
    - inversion Hsteps; subst; by repeat constructor. }
  destruct (thunar_g_file_copy_cases _ _ _ _ _ _ _ _ _ _ _ _ _ Hparent Hexec)
    as [(Huse & r & -> & _)
       | [(Huse & found & r & -> & _)
         | [(Huse & found & -> & _)
           | [(Huse & found & deleted & rest & -> & _ & _ & Hrest)
             | (Huse & found & rest & -> & _ & Hrest)]]]].
  - by repeat constructor.
  - by repeat constructor.
  - by repeat constructor.
  - repeat (constructor; [done |]). by eapply Htail.
  - repeat (constructor; [done |]). by eapply Htail.
Qed.

(** [thunar_g_file_copy] called with an empty error slot: an error that
    reaches the slot was asked for, and it is an error
    reported by a call of the trace, or the error that the function makes
    itself when the destination exists and may not be overwritten; at most
    one copy and one renaming are made; when the partial step is not in
    effect, the result and the error are those of the one copy. *)
Lemma thunar_g_file_copy_errors (source destination : GFile)
    (flags : GFileCopyFlags) (use_partial : bool) (cancellable : option GCancellable)
    (progress_callback : option GFileProgressCallback) (progress_callback_data : user_data)
    (error : bool)
    (trace : list (event GFile)) (success : bool) (slot' : option GError) :
  exec (thunar_g_file_copy source destination flags use_partial cancellable
          progress_callback progress_callback_data error None) trace (success, slot') ->
  (forall e : GError, slot' = Some e ->
     error = true
     /\ (e ∈ trace_errors trace
         \/ (e = file_exists_error destination
             /\ destination_found destination trace
             /\ flags_and flags G_FILE_COPY_OVERWRITE = false
             /\ success = false)))
  /\ length (List.filter (fun ev => is_copy_call (event_call ev)) trace) <= 1
  /\ length (List.filter (fun ev => is_rename_call (event_call ev)) trace) <= 1
  /\ (g_file_has_parent destination None = true ->
      ~ (use_partial = true /\ source_found_regular source trace) ->
      exists r : gresult unit,
        last trace = Some (Event (g_file_copy source destination flags cancellable
                                    progress_callback progress_callback_data) r)
        /\ success = gresult_ok r
        /\ slot' = if error then gresult_error r else None).
Proof.
  intros Hexec.
  destruct (g_file_get_parent destination) as [parent |] eqn:Hparent.
  2:{ unfold thunar_g_file_copy, g_file_has_parent in Hexec. rewrite Hparent in Hexec.
      exec_next Hexec. injection Hexec as -> ->.
      unfold g_file_has_parent. rewrite Hparent. repeat split; simpl; try done; lia. }
  assert (forall rest error0,
            exec (thunar_g_file_copy_to_partial source destination flags cancellable
                    progress_callback progress_callback_data error0 None)
              rest (success, slot') ->
            (forall e : GError, slot' = Some e -> error0 = true /\ e ∈ trace_errors rest)
            /\ length (List.filter (fun ev => is_copy_call (event_call ev)) rest) <= 1
            /\ length (List.filter (fun ev => is_rename_call (event_call ev)) rest) <= 1)
    as Htail.
  { intros rest error0 Hrest.
    destruct (thunar_g_file_copy_to_partial_trace _ _ _ _ _ _ _ _ _ _ _ _ Hparent Hrest)
      as (preparation & steps & -> & Hprep & Hsteps & Hslot).
    split; [| split].
    - intros e ->. destruct Hslot as [? | (-> & _ & e' & [= <-] & He)]; done.
    - destruct Hprep as [-> | [deleted ->]]; inversion Hsteps; subst; simpl; lia.
    - destruct Hprep as [-> | [deleted ->]]; inversion Hsteps; subst; simpl; lia. }
  destruct (thunar_g_file_copy_cases _ _ _ _ _ _ _ _ _ _ _ _ _ Hparent Hexec)
    as [(Huse & r & -> & -> & ->)
       | [(Huse & found & r & -> & Htype & -> & ->)
         | [(Huse & found & -> & Htype & Hoverwrite & -> & ->)
           | [(Huse & found & deleted & rest & -> & Htype & Hoverwrite & Hrest)
             | (Huse & found & rest & -> & Htype & Hrest)]]]];
    (split; [| split; [| split]]); simpl; try lia.
  (* the partial option is off *)
  - intros e He. destruct r as [[] | e_copy], error; simplify_eq/=.
    split; [done |]. left. left.
  - intros _ _. exists r. by destruct r, error.
  (* the type query fails or finds no regular file *)
  - intros e He. destruct r as [[] | e_copy], error; simplify_eq/=.
    split; [done |]. left. unfold trace_errors. simpl.
    destruct (gresult_error found); [right |]; left.
  - intros _ _. exists r. by destruct r, error.
  (* the destination exists and may not be overwritten *)
  - intros e He. destruct error; simplify_eq/=. split; [done |]. right.
    repeat split; try done. eexists. repeat split; done.
  - intros _ Hnot. destruct Hnot. split; [done |].
    eexists. repeat split; try done. by eexists _, _.
  (* the destination exists and is deleted *)
  - intros e He. destruct error; simpl in Hrest;
      destruct (Htail _ _ Hrest) as (Herr & _); destruct (Herr e He); done.
  - destruct error; simpl in Hrest; destruct (Htail _ _ Hrest) as (_ & Hcopy & _); done.
  - destruct error; simpl in Hrest; destruct (Htail _ _ Hrest) as (_ & _ & Hren); done.
  - intros _ Hnot. destruct Hnot. split; [done |].
    eexists. repeat split; try done. by eexists _, _.
  (* the destination does not exist *)
  - intros e He. destruct (Htail _ _ Hrest) as (Herr & _).
    destruct (Herr e He) as [-> Hin]. split; [done |]. left.
    unfold trace_errors in *. simpl. destruct (gresult_error found); [right |]; done.
  - by destruct (Htail _ _ Hrest) as (_ & Hcopy & _).
  - by destruct (Htail _ _ Hrest) as (_ & _ & Hren).
  - intros _ Hnot. destruct Hnot. split; [done |].
    eexists. repeat split; try done. by eexists _, _.
Qed.

End Copy.

Section OtherWrappers.
Context {GFile : Type} `{GFileIface GFile} `{Environment}.
Context {GKeyFile : Type} `{GKeyFileLib GKeyFile}.

Lemma thunar_g_file_query_key_file_cancellable (file : GFile)
    (cancellable : option GCancellable) (error : bool) (slot : option GError)
    (trace : list (event GFile)) (res : option GKeyFile * option GError) :
  exec (thunar_g_file_query_key_file file cancellable error slot) trace res ->
  Forall (fun ev => call_cancellable (event_call ev) = cancellable) trace.
Proof.
  intros Hexec. unfold thunar_g_file_query_key_file in Hexec.
  destruct (error_is_unset error slot); exec_simpl Hexec; [| exec_next Hexec; constructor].
  exec_next Hexec. constructor; [done |].
  destruct r as [contents | e]; exec_simpl Hexec; [| exec_next Hexec; constructor].
  destruct (String.length contents =? 0)%nat; [exec_next Hexec; constructor |].
  destruct (g_key_file_load_from_data _ _ _ _) as [key_file | [[d c] m]];
    exec_next Hexec; constructor.
Qed.

Lemma thunar_g_file_write_key_file_cancellable (file : GFile) (key_file : GKeyFile)
    (cancellable : option GCancellable) (error : bool) (slot : option GError)
    (trace : list (event GFile)) (res : bool * option GError) :
  exec (thunar_g_file_write_key_file file key_file cancellable error slot) trace res ->
  Forall (fun ev => call_cancellable (event_call ev) = cancellable) trace.
Proof.
  intros Hexec. unfold thunar_g_file_write_key_file in Hexec.
  destruct (error_is_unset error slot); exec_simpl Hexec; [| exec_next Hexec; constructor].
  destruct (g_key_file_to_data key_file) as [contents |]; exec_simpl Hexec.
  - exec_next Hexec. exec_next Hexec. by repeat constructor.
  - exec_next Hexec. constructor.
Qed.

Lemma thunar_g_file_compare_checksum_cancellable (file_a file_b : GFile)
    (cancellable : option GCancellable) (error : bool) (slot : option GError)
    (trace : list (event GFile)) (res : bool * option GError) :
  exec (thunar_g_file_compare_checksum file_a file_b cancellable error slot) trace res ->
  Forall (fun ev => call_cancellable (event_call ev) = cancellable) trace.
Proof.
  intros Hexec. unfold thunar_g_file_compare_checksum in Hexec.
  destruct (error_is_unset error slot); exec_simpl Hexec; [| exec_next Hexec; constructor].
  exec_next Hexec. exec_next Hexec. exec_next Hexec. by repeat constructor.
Qed.

(** [thunar_g_file_set_executable_flags] called with an empty error slot:
    an error that reaches the slot was asked for and was reported by a call
    of the trace; no call is made twice. *)
Lemma thunar_g_file_set_executable_flags_errors (file : GFile) (error : bool)
    (trace : list (event GFile)) (success : bool) (slot' : option GError) :
  exec (thunar_g_file_set_executable_flags file error None) trace (success, slot') ->
  (forall e : GError, slot' = Some e -> error = true /\ e ∈ trace_errors trace)
  /\ NoDup (event_call <$> trace).
Proof.
  intros Hexec. unfold thunar_g_file_set_executable_flags in Hexec.
  replace (error_is_unset error None) with true in Hexec by (by destruct error).
  exec_next Hexec. rename r into queried.
  destruct queried as [info | e_query]; exec_simpl Hexec.
  - destruct (g_file_info_has_attribute info G_FILE_ATTRIBUTE_UNIX_MODE); exec_simpl Hexec.
    + match type of Hexec with
      | context [negb (?old =? ?new)%Z] => destruct (old =? new)%Z
      end; exec_simpl Hexec.
      * exec_next Hexec. injection Hexec as -> ->. split; [done |].
        apply NoDup_singleton.
      * exec_next Hexec. exec_next Hexec. injection Hexec as -> ->. split.
        -- intros e He. destruct r as [[] | e_set], error; simplify_eq/=.
           split; [done |]. left.
        -- apply NoDup_cons. split; [| apply NoDup_singleton].
           intros Hin. by apply list_elem_of_singleton in Hin.
    + exec_next Hexec. exec_next Hexec. injection Hexec as -> ->. split; [done |].
      apply NoDup_cons. split; [| apply NoDup_singleton].
      intros Hin. by apply list_elem_of_singleton in Hin.
  - exec_next Hexec. injection Hexec as -> ->. split.
    + intros e He. destruct error; simplify_eq/=. split; [done |]. left.
    + apply NoDup_singleton.
Qed.

(** [thunar_g_file_query_key_file] called with an empty error slot makes
    at most one call; an error reaches the slot only when it was asked for
    and NULL is returned, and it is the error of the call or of the key-file
    parser; when errors are asked for, NULL comes with an error. *)
Lemma thunar_g_file_query_key_file_errors (file : GFile)
    (cancellable : option GCancellable) (error : bool)
    (trace : list (event GFile)) (res : option GKeyFile) (slot' : option GError) :
  exec (thunar_g_file_query_key_file file cancellable error None) trace (res, slot') ->
  (forall e : GError, slot' = Some e ->
     error = true /\ res = None
     /\ (e ∈ trace_errors trace
         \/ exists key_file contents length flags,
              g_key_file_load_from_data key_file contents length flags
              = inr (domain e, code e, message e)))
  /\ (res = None -> error = true -> exists e, slot' = Some e)
  /\ length trace <= 1.
Proof.
  intros Hexec. unfold thunar_g_file_query_key_file in Hexec.
  replace (error_is_unset error None) with true in Hexec by (by destruct error).
  exec_next Hexec. destruct r as [contents | e_load]; exec_simpl Hexec.
  - destruct (String.length contents =? 0)%nat.
    { exec_next Hexec. injection Hexec as -> ->. repeat split; simpl; try done; lia. }
    destruct (g_key_file_load_from_data _ _ _ _) as [key_file | [[d c] m]] eqn:Hparse;
      exec_next Hexec; injection Hexec as -> ->.
    + repeat split; simpl; try done; lia.
    + split; [| split; [| simpl; lia]].
      * intros err Herr. destruct error; simplify_eq/=. repeat split; try done.
        right. by eexists _, _, _, _.
      * intros _ ->. by eexists.
  - exec_next Hexec. injection Hexec as -> ->. split; [| split; [| simpl; lia]].
    + intros err Herr. destruct error; simplify_eq/=. repeat split; try done. left. left.
    + intros _ ->. by eexists.
Qed.

(** [thunar_g_file_write_key_file] called with an empty error slot makes at
    most one call; an error reaches the slot only when it was asked for and
    FALSE is returned, and it is the error of the call; when errors are
    asked for, FALSE comes with an error. *)
Lemma thunar_g_file_write_key_file_errors (file : GFile) (key_file : GKeyFile)
    (cancellable : option GCancellable) (error : bool)
    (trace : list (event GFile)) (success : bool) (slot' : option GError) :
  exec (thunar_g_file_write_key_file file key_file cancellable error None) trace
    (success, slot') ->
  (forall e : GError, slot' = Some e ->
     error = true /\ success = false /\ e ∈ trace_errors trace)
  /\ (success = false -> error = true -> exists e, slot' = Some e)
  /\ length trace <= 1.
Proof.
  intros Hexec. unfold thunar_g_file_write_key_file in Hexec.
  replace (error_is_unset error None) with true in Hexec by (by destruct error).
  exec_simpl Hexec. destruct (g_key_file_to_data key_file) as [contents |]; exec_simpl Hexec.
  - exec_next Hexec. exec_next Hexec. injection Hexec as -> ->.
    destruct r as [[] | e_replace]; (split; [| split; [| simpl; lia]]); simpl.
    + done.
    + done.
    + intros err Herr. destruct error; simplify_eq/=. repeat split; try done. left.
    + intros _ ->. by eexists.
  - exec_next Hexec. injection Hexec as -> ->. repeat split; simpl; try done; lia.
Qed.

(** [thunar_g_file_query_key_file] called with an empty error slot makes
    the one call that loads the file, and returns NULL exactly when that
    call failed or the parser refused contents that are not empty; the
    error of the failure is then delivered when errors are asked for. *)
Lemma thunar_g_file_query_key_file_result (file : GFile)
    (cancellable : option GCancellable) (error : bool)
    (trace : list (event GFile)) (res : option GKeyFile) (slot' : option GError) :
  exec (thunar_g_file_query_key_file file cancellable error None) trace (res, slot') ->
  exists loaded : gresult string,
    trace = [Event (g_file_load_contents file cancellable) loaded]
    /\ (res = None <->
        (exists e : GError, loaded = G_FAILED e)
        \/ (exists (contents domain : string) (code : Z) (message : string),
              loaded = G_OK contents /\ contents <> EmptyString
              /\ g_key_file_load_from_data g_key_file_new contents (String.length contents)
                   (Z.lor G_KEY_FILE_KEEP_COMMENTS G_KEY_FILE_KEEP_TRANSLATIONS)
                 = inr (domain, code, message)))
    /\ (forall e : GError, loaded = G_FAILED e -> slot' = if error then Some e else None)
    /\ (forall (contents domain : string) (code : Z) (message : string),
          loaded = G_OK contents -> contents <> EmptyString ->
          g_key_file_load_from_data g_key_file_new contents (String.length contents)
            (Z.lor G_KEY_FILE_KEEP_COMMENTS G_KEY_FILE_KEEP_TRANSLATIONS)
          = inr (domain, code, message) ->
          slot' = if error then Some (g_error_new domain code message) else None)
    /\ (res <> None -> slot' = None).
Proof.
  intros Hexec. unfold thunar_g_file_query_key_file in Hexec.
  replace (error_is_unset error None) with true in Hexec by (by destruct error).
  exec_next Hexec. rename r into loaded.
  destruct loaded as [contents | e_load]; exec_simpl Hexec.
  - destruct (Nat.eqb_spec (String.length contents) 0) as [Hlength | Hlength].
    { exec_next Hexec. injection Hexec as -> ->.
      assert (contents = EmptyString) as -> by (by destruct contents).
      exists (G_OK EmptyString). split; [done |].
      split; [| split; [done | split; [| done]]].
      - split; [done |]. intros [[e He] | (c & d & k & m & Hc & Hne & _)]; [done |].
        injection Hc as <-. done.
      - intros c d k m [= <-] Hne. done. }
    assert (contents <> EmptyString) as Hne by (by intros ->).
    destruct (g_key_file_load_from_data g_key_file_new contents (String.length contents)
                (Z.lor G_KEY_FILE_KEEP_COMMENTS G_KEY_FILE_KEEP_TRANSLATIONS))
      as [key_file | [[d c] m]] eqn:Hparse;
      exec_next Hexec; injection Hexec as -> ->;
      (exists (G_OK contents); split; [done |]).
    + split; [| split; [done | split; [| done]]].
      * split; [done |]. intros [[e He] | (c & d & k & m & [= <-] & _ & Hparse')];
          [done | congruence].
      * intros c d k m [= <-] _ Hparse'. congruence.
    + split; [| split; [done | split; [| done]]].
      * split; [| done]. intros _. right. by exists contents, d, c, m.
      * intros c' d' k' m' [= <-] _ Hparse'. rewrite Hparse in Hparse'.
        injection Hparse' as <- <- <-. by destruct error.
  - exec_next Hexec. injection Hexec as -> ->.
    exists (G_FAILED e_load). split; [done |].
    split; [| split; [| split; [| done]]].
    + split; [| done]. intros _. left. by exists e_load.
    + intros e [= <-]. by destruct error.
    + intros c d k m Hc. discriminate Hc.
Qed.

(** [thunar_g_file_write_key_file] called with an empty error slot makes
    no call when the key file has no text, and returns TRUE; otherwise it
    makes the one call that replaces the contents of the file, and its
    result and error are those of that call. *)
Lemma thunar_g_file_write_key_file_result (file : GFile) (key_file : GKeyFile)
    (cancellable : option GCancellable) (error : bool)
    (trace : list (event GFile)) (success : bool) (slot' : option GError) :
  exec (thunar_g_file_write_key_file file key_file cancellable error None) trace
    (success, slot') ->
  (g_key_file_to_data key_file = None /\ trace = [] /\ success = true /\ slot' = None)
  \/ exists (contents : string) (replaced : gresult unit),
       g_key_file_to_data key_file = Some contents
       /\ trace = [Event (g_file_replace_contents file contents (String.length contents)
                            cancellable) replaced]
       /\ (success = false <-> exists e : GError, replaced = G_FAILED e)
       /\ slot' = if error then gresult_error replaced else None.
Proof.
  intros Hexec. unfold thunar_g_file_write_key_file in Hexec.
  replace (error_is_unset error None) with true in Hexec by (by destruct error).
  exec_simpl Hexec. destruct (g_key_file_to_data key_file) as [contents |]; exec_simpl Hexec.
  - right. exec_next Hexec. exec_next Hexec. injection Hexec as -> ->.
    exists contents, r. split; [done |]. split; [done |]. split.
    + destruct r as [[] | e]; simpl; split; try done.
      * by intros [e He].
      * intros _. by exists e.
    + by destruct r as [[] | e], error.
  - left. exec_next Hexec. by injection Hexec as -> ->.
Qed.

(** C3, amended: an error that [thunar_g_file_copy] or
    [thunar_g_file_set_executable_flags], called with an empty error slot,
    delivers to the caller was asked for by the caller and is the error that
    one of the calls of the execution reported, unchanged, except that
    [thunar_g_file_copy] makes the file-exists error itself when the
    partial step is in effect, the destination exists and may not be
    overwritten.  Nothing is retried: [thunar_g_file_copy] makes at most one
    copy and at most one renaming, [thunar_g_file_set_executable_flags]
    makes no call twice.  When the partial step is not in effect, the result
    and the error of [thunar_g_file_copy] are those of its one copy.
    [thunar_g_file_query_key_file] and [thunar_g_file_write_key_file] make
    at most one call, deliver only the error of that call or of the
    key-file parser, and return the failure indicator exactly when such an
    error occurred: [thunar_g_file_query_key_file] returns NULL exactly when
    the call that loads the file failed or the parser refused contents that
    are not empty, [thunar_g_file_write_key_file] returns FALSE exactly when
    the call that replaces the contents failed; the error of that failure is
    delivered when errors are asked for, and no error otherwise. *)
Theorem delivered_errors_are_native_or_file_exists :
  (forall (source destination : GFile) (flags : GFileCopyFlags) (use_partial : bool)
          (cancellable : option GCancellable)
          (progress_callback : option GFileProgressCallback)
          (progress_callback_data : user_data) (error : bool)
          (trace : list (event GFile)) (success : bool) (slot' : option GError),
     exec (thunar_g_file_copy source destination flags use_partial cancellable
             progress_callback progress_callback_data error None) trace (success, slot') ->
     (forall e : GError, slot' = Some e ->
        error = true
        /\ (e ∈ trace_errors trace
            \/ (e = file_exists_error destination
                /\ destination_found destination trace
                /\ flags_and flags G_FILE_COPY_OVERWRITE = false
                /\ success = false)))
     /\ length (List.filter (fun ev => is_copy_call (event_call ev)) trace) <= 1
     /\ length (List.filter (fun ev => is_rename_call (event_call ev)) trace) <= 1
     /\ (g_file_has_parent destination None = true ->
         ~ (use_partial = true /\ source_found_regular source trace) ->
         exists r : gresult unit,
           last trace = Some (Event (g_file_copy source destination flags cancellable
                                       progress_callback progress_callback_data) r)
           /\ success = gresult_ok r
           /\ slot' = if error then gresult_error r else None))
  /\ (forall (file : GFile) (error : bool)
             (trace : list (event GFile)) (success : bool) (slot' : option GError),
        exec (thunar_g_file_set_executable_flags file error None) trace (success, slot') ->
        (forall e : GError, slot' = Some e -> error = true /\ e ∈ trace_errors trace)
        /\ NoDup (event_call <$> trace))
  /\ (forall (file : GFile) (cancellable : option GCancellable) (error : bool)
             (trace : list (event GFile)) (res : option GKeyFile) (slot' : option GError),
        exec (thunar_g_file_query_key_file file cancellable error None) trace (res, slot') ->
        (forall e : GError, slot' = Some e ->
           error = true /\ res = None
           /\ (e ∈ trace_errors trace
               \/ exists key_file contents length flags,
                    g_key_file_load_from_data key_file contents length flags
                    = inr (domain e, code e, message e)))
        /\ (res = None -> error = true -> exists e, slot' = Some e)
        /\ length trace <= 1
        /\ exists loaded : gresult string,
             trace = [Event (g_file_load_contents file cancellable) loaded]
             /\ (res = None <->
                 (exists e : GError, loaded = G_FAILED e)
                 \/ (exists (contents domain : string) (code : Z) (message : string),
                       loaded = G_OK contents /\ contents <> EmptyString
                       /\ g_key_file_load_from_data g_key_file_new contents
                            (String.length contents)
                            (Z.lor G_KEY_FILE_KEEP_COMMENTS G_KEY_FILE_KEEP_TRANSLATIONS)
                          = inr (domain, code, message)))
             /\ (forall e : GError,
                   loaded = G_FAILED e -> slot' = if error then Some e else None)
             /\ (forall (contents domain : string) (code : Z) (message : string),
                   loaded = G_OK contents -> contents <> EmptyString ->
                   g_key_file_load_from_data g_key_file_new contents (String.length contents)
                     (Z.lor G_KEY_FILE_KEEP_COMMENTS G_KEY_FILE_KEEP_TRANSLATIONS)
                   = inr (domain, code, message) ->
                   slot' = if error then Some (g_error_new domain code message) else None)
             /\ (res <> None -> slot' = None))
  /\ (forall (file : GFile) (key_file : GKeyFile) (cancellable : option GCancellable)
             (error : bool)
             (trace : list (event GFile)) (success : bool) (slot' : option GError),
        exec (thunar_g_file_write_key_file file key_file cancellable error None) trace
          (success, slot') ->
        (forall e : GError, slot' = Some e ->
           error = true /\ success = false /\ e ∈ trace_errors trace)
        /\ (success = false -> error = true -> exists e, slot' = Some e)
        /\ length trace <= 1
        /\ ((g_key_file_to_data key_file = None
             /\ trace = [] /\ success = true /\ slot' = None)
            \/ exists (contents : string) (replaced : gresult unit),
                 g_key_file_to_data key_file = Some contents
                 /\ trace = [Event (g_file_replace_contents file contents
                                      (String.length contents) cancellable) replaced]
                 /\ (success = false <-> exists e : GError, replaced = G_FAILED e)
                 /\ slot' = if error then gresult_error replaced else None)).
Proof.
  split; [| split; [| split]]; intros.
  - by eapply thunar_g_file_copy_errors.
  - by eapply thunar_g_file_set_executable_flags_errors.
  - match goal with
    | Hexec : exec _ _ _ |- _ =>
        destruct (thunar_g_file_query_key_file_errors _ _ _ _ _ _ Hexec)
          as (Hdelivered & Hasked & Hlength);
        pose proof (thunar_g_file_query_key_file_result _ _ _ _ _ _ Hexec) as Hresult
    end.
    split; [exact Hdelivered |]. split; [exact Hasked |]. split; [exact Hlength |].
    exact Hresult.
  - match goal with
    | Hexec : exec _ _ _ |- _ =>
        destruct (thunar_g_file_write_key_file_errors _ _ _ _ _ _ _ Hexec)
          as (Hdelivered & Hasked & Hlength);
        pose proof (thunar_g_file_write_key_file_result _ _ _ _ _ _ _ Hexec) as Hresult
    end.
    split; [exact Hdelivered |]. split; [exact Hasked |]. split; [exact Hlength |].
    exact Hresult.
Qed.

(** C5, amended: [thunar_g_file_query_key_file],
    [thunar_g_file_write_key_file] and [thunar_g_file_compare_checksum] give
    the caller's cancellable to every call they make;
    [thunar_g_file_copy] gives it to the type query on the source and to the
    copy, and gives none to the existence checks, the deletions and the
    renaming. *)
Theorem cancellable_forwarded_to_queries_and_copies :
  (forall (file : GFile) (cancellable : option GCancellable)
          (error : bool) (slot : option GError)
          (trace : list (event GFile)) (res : option GKeyFile * option GError),
     exec (thunar_g_file_query_key_file file cancellable error slot) trace res ->
     Forall (fun ev => call_cancellable (event_call ev) = cancellable) trace)
  /\ (forall (file : GFile) (key_file : GKeyFile) (cancellable : option GCancellable)
             (error : bool) (slot : option GError)
             (trace : list (event GFile)) (res : bool * option GError),
        exec (thunar_g_file_write_key_file file key_file cancellable error slot) trace res ->
        Forall (fun ev => call_cancellable (event_call ev) = cancellable) trace)
  /\ (forall (file_a file_b : GFile) (cancellable : option GCancellable)
             (error : bool) (slot : option GError)
             (trace : list (event GFile)) (res : bool * option GError),
        exec (thunar_g_file_compare_checksum file_a file_b cancellable error slot) trace res ->
        Forall (fun ev => call_cancellable (event_call ev) = cancellable) trace)
  /\ (forall (source destination : GFile) (flags : GFileCopyFlags) (use_partial : bool)
             (cancellable : option GCancellable)
             (progress_callback : option GFileProgressCallback)
             (progress_callback_data : user_data) (error : bool) (slot : option GError)
             (trace : list (event GFile)) (res : bool * option GError),
        exec (thunar_g_file_copy source destination flags use_partial cancellable
                progress_callback progress_callback_data error slot) trace res ->
        Forall (fun ev => copy_cancellable_rule cancellable (event_call ev)) trace).
Proof.
  split; [| split; [| split]]; intros.
  - by eapply thunar_g_file_query_key_file_cancellable.
  - by eapply thunar_g_file_write_key_file_cancellable.
  - by eapply thunar_g_file_compare_checksum_cancellable.
  - by eapply thunar_g_file_copy_cancellable.
Qed.

End OtherWrappers.

(** * More properties *)

(** ** Patterns for icon names *)

Section Patterns.

Lemma string_eqb_cons (a b : ascii) (s t : string) :
  String.eqb (String a s) (String b t) = Ascii.eqb a b && String.eqb s t.
Proof. simpl. by destruct (Ascii.eqb a b). Qed.

Lemma g_pattern_match_simple_literal (pattern s : string) :
  is_literal pattern = true ->
  g_pattern_match_simple pattern s = String.eqb s pattern.
Proof.
  revert s. induction pattern as [| c pattern IH]; intros s Hliteral.
  - by destruct s.
  - simpl in Hliteral.
    apply andb_true_iff in Hliteral as [Hc Hliteral].
    apply andb_true_iff in Hc as [Hstar Hquestion].
    apply negb_true_iff in Hstar, Hquestion.
    simpl. rewrite Hstar.
    destruct s as [| a s]; [done |].
    rewrite Hquestion, (IH s Hliteral). simpl.
    rewrite (Ascii.eqb_sym a c). by destruct (Ascii.eqb c a).
Qed.

Lemma g_pattern_match_simple_star (s : string) : g_pattern_match_simple "*" s = true.
Proof.
  induction s as [| a s IH]; [reflexivity |].
  simpl in IH |- *. exact IH.
Qed.

Lemma before_final_star_literal (pattern prefix : string) (s : string) :
  before_final_star pattern = Some prefix ->
  is_literal prefix = true ->
  g_pattern_match_simple pattern s = String.prefix prefix s.
Proof.
  revert prefix s. induction pattern as [| c pattern IH]; intros prefix s Hbefore Hliteral.
  - discriminate.
  - destruct pattern as [| d pattern].
    + simpl in Hbefore. destruct (Ascii.eqb c "*") eqn:Hc; [| discriminate].
      injection Hbefore as <-.
      apply Ascii.eqb_eq in Hc as ->.
      rewrite g_pattern_match_simple_star. by destruct s.
    + change (before_final_star (String c (String d pattern)))
        with (String c <$> before_final_star (String d pattern)) in Hbefore.
      destruct (before_final_star (String d pattern)) as [prefix' |] eqn:Hprefix';
        [| discriminate].
      injection Hbefore as <-.
      simpl in Hliteral.
      apply andb_true_iff in Hliteral as [Hc Hliteral].
      apply andb_true_iff in Hc as [Hstar Hquestion].
      apply negb_true_iff in Hstar, Hquestion.
      change (g_pattern_match_simple (String c (String d pattern)) s)
        with (if Ascii.eqb c "*"
              then (fix any_sequence (s : string) : bool :=
                      g_pattern_match_simple (String d pattern) s
                      || match s with
                         | EmptyString => false
                         | String _ s' => any_sequence s'
                         end) s
              else match s with
                   | EmptyString => false
                   | String a s' =>
                       (Ascii.eqb c "?" || Ascii.eqb c a)
                       && g_pattern_match_simple (String d pattern) s'
                   end).
      rewrite Hstar.
      destruct s as [| a s]; [done |].
      rewrite Hquestion, (IH prefix' s eq_refl Hliteral). simpl.
      destruct (Ascii.eqb_spec c a) as [-> | Hne].
      * destruct (ascii_dec a a); [done | congruence].
      * destruct (ascii_dec c a); [congruence | done].
Qed.

Lemma g_pattern_match_simple_test (pattern icon_name : string) :
  simple_pattern pattern = true ->
  g_pattern_match_simple pattern icon_name = icon_name_passes (test_of_pattern pattern) icon_name.
Proof.
  unfold simple_pattern, test_of_pattern. intros Hsimple.
  destruct (before_final_star pattern) as [prefix |] eqn:Hbefore.
  - by apply before_final_star_literal.
  - by apply g_pattern_match_simple_literal.
Qed.

End Patterns.

Section DeviceTypes.
Context `{Environment}.

Lemma guess_device_type_from_first (table : list (string * string))
    (icon_name device_type : string) :
  forallb (fun entry => simple_pattern entry.1) table = true ->
  guess_device_type_from table icon_name = Some device_type <->
  exists (i : nat) (entry : string * string),
    table !! i = Some entry /\ device_type = gettext entry.2
    /\ passes_entry icon_name entry = true
    /\ forall (j : nat) (earlier : string * string),
         j < i -> table !! j = Some earlier -> passes_entry icon_name earlier = false.
Proof.
  induction table as [| [pattern type] table IH]; intros Hsimple.
  - split; [discriminate |]. by intros (i & entry & Hi & _).
  - simpl in Hsimple. apply andb_true_iff in Hsimple as [Hpattern Hsimple].
    simpl. rewrite (g_pattern_match_simple_test pattern icon_name Hpattern).
    destruct (icon_name_passes (test_of_pattern pattern) icon_name) eqn:Hpasses.
    + split.
      * intros [= <-]. exists 0, (pattern, type).
        split; [done |]. split; [done |]. split; [exact Hpasses |]. intros j earlier Hj. lia.
      * intros ([| i] & entry & Hi & -> & Hentry & Hfirst).
        -- by injection Hi as <-.
        -- specialize (Hfirst 0 (pattern, type) ltac:(lia) eq_refl).
           unfold passes_entry in Hfirst. simpl in Hfirst. congruence.
    + rewrite (IH Hsimple). split.
      * intros (i & entry & Hi & -> & Hentry & Hfirst).
        exists (S i), entry. split; [done |]. split; [done |]. split; [done |].
        intros [| j] earlier Hj Hearlier.
        -- by injection Hearlier as <-.
        -- apply (Hfirst j earlier); [lia | done].
      * intros ([| i] & entry & Hi & -> & Hentry & Hfirst).
        -- injection Hi as <-. unfold passes_entry in Hentry. simpl in Hentry. congruence.
        -- exists i, entry. split; [done |]. split; [done |]. split; [done |].
           intros j earlier Hj Hearlier. apply (Hfirst (S j) earlier); [lia | done].
Qed.

Lemma guess_device_type_from_None (table : list (string * string)) (icon_name : string) :
  forallb (fun entry => simple_pattern entry.1) table = true ->
  guess_device_type_from table icon_name = None <->
  Forall (fun entry => passes_entry icon_name entry = false) table.
Proof.
  induction table as [| [pattern type] table IH]; intros Hsimple.
  - split; [constructor | done].
  - simpl in Hsimple. apply andb_true_iff in Hsimple as [Hpattern Hsimple].
    simpl. rewrite (g_pattern_match_simple_test pattern icon_name Hpattern).
    rewrite Forall_cons. unfold passes_entry at 1. simpl.
    destruct (icon_name_passes (test_of_pattern pattern) icon_name).
    + split; [discriminate | by intros [? _]].
    + rewrite (IH Hsimple). split; [by split | by intros [_ ?]].
Qed.

(** X1: the type of a device is read off the first entry of the table that
    the icon name passes: an entry without ['*'] stands for that one name,
    an entry [prefix*] for the names that start with [prefix]. *)
Theorem guess_device_type_from_icon_name_first_entry (icon_name device_type : string) :
  guess_device_type_from_icon_name icon_name = Some device_type <->
  exists (i : nat) (pattern type : string),
    device_icon_name !! i = Some (pattern, type) /\ device_type = gettext type
    /\ icon_name_passes (test_of_pattern pattern) icon_name = true
    /\ forall (j : nat) (pattern' type' : string),
         j < i -> device_icon_name !! j = Some (pattern', type') ->
         icon_name_passes (test_of_pattern pattern') icon_name = false.
Proof.
  unfold guess_device_type_from_icon_name.
  rewrite guess_device_type_from_first by reflexivity.
  split.
  - intros (i & [pattern type] & Hi & -> & Hentry & Hfirst).
    exists i, pattern, type. split; [done |]. split; [done |]. split; [done |].
    intros j pattern' type' Hj Hearlier. exact (Hfirst j (pattern', type') Hj Hearlier).
  - intros (i & pattern & type & Hi & -> & Hentry & Hfirst).
    exists i, (pattern, type). split; [done |]. split; [done |]. split; [done |].
    intros j [pattern' type'] Hj Hearlier. exact (Hfirst j pattern' type' Hj Hearlier).
Qed.

Lemma string_eqb_prefix (family name icon_name : string) :
  String.prefix family name = true ->
  String.prefix family icon_name = false ->
  String.eqb icon_name name = false.
Proof.
  intros Hname Hicon. destruct (String.eqb_spec icon_name name) as [-> |]; [congruence | done].
Qed.

(** X2: no type is found exactly for the icon names that are not
    [computer-apple-ipad] and start with none of the eleven family
    prefixes. *)
Theorem guess_device_type_from_icon_name_NULL_iff (icon_name : string) :
  guess_device_type_from_icon_name icon_name = None <->
  icon_name <> "computer-apple-ipad"
  /\ Forall (fun family => String.prefix family icon_name = false) device_icon_families.
Proof.
  unfold guess_device_type_from_icon_name.
  rewrite guess_device_type_from_None by reflexivity.
  unfold device_icon_name, device_icon_families, passes_entry.
  rewrite !Forall_cons.
  change (test_of_pattern ("multimedia-player-apple-ipod-touch", "iPod touch").1)
    with (IS "multimedia-player-apple-ipod-touch").
  cbn [fst].
  repeat match goal with
         | |- context [test_of_pattern ?p] =>
             let t := eval vm_compute in (test_of_pattern p) in
             change (test_of_pattern p) with t
         end.
  cbn [icon_name_passes].
  split.
  - intros (_ & Hipad & _ & _ & _ & _ & _ & Hfamilies).
    split.
    + intros ->. discriminate Hipad.
    + destruct Hfamilies as (? & ? & ? & ? & ? & ? & ? & ? & ? & ? & ? & _).
      repeat (split; [assumption |]). constructor.
  - intros (Hipad & Hcamera & Hharddisk & Hoptical & Hremovable & Hflash & Hfloppy
            & Hmedia & Htape & Hplayer & Hpda & Hphone & _).
    split; [by apply (string_eqb_prefix "multimedia-player") |].
    split; [by apply String.eqb_neq |].
    split; [by apply (string_eqb_prefix "phone") |].
    split; [by apply (string_eqb_prefix "drive-harddisk") |].
    split; [by apply (string_eqb_prefix "drive-harddisk") |].
    split; [by apply (string_eqb_prefix "drive-harddisk") |].
    split; [by apply (string_eqb_prefix "drive-removable-media") |].
    repeat (split; [assumption |]). constructor.
Qed.


End DeviceTypes.

(** ** Schemes, data directories and URI lists *)

Section SchemesAndDirectories.
Context {GFile : Type} `{GFileIface GFile} `{Environment}.
Context `{GLibEnvironment} `{GFilePaths GFile}.

Lemma uri_scheme_supported_from_spec (supported : bool) (supported_schemes : list string)
    (scheme : string) :
  uri_scheme_supported_from supported supported_schemes scheme
  = supported || bool_decide (scheme ∈ supported_schemes).
Proof.
  revert supported. induction supported_schemes as [| candidate rest IH]; intros supported.
  - destruct supported; reflexivity.
  - destruct supported; [reflexivity |].
    cbn [uri_scheme_supported_from negb]. rewrite IH.
    unfold g_strcmp0_is_0.
    destruct (String.eqb_spec candidate scheme) as [-> | Hne].
    + simpl. symmetry. apply bool_decide_eq_true. left.
    + simpl. apply bool_decide_ext. split; [by right |].
      intros Hin. apply elem_of_cons in Hin as [-> | Hin]; done.
Qed.

(** X3: a scheme is reported as supported exactly when it is not NULL, not
    empty, and one of the schemes that the default [GVfs] lists. *)
Theorem thunar_g_vfs_is_uri_scheme_supported_iff (scheme : option string) :
  thunar_g_vfs_is_uri_scheme_supported scheme = true <->
  exists (name : string) (supported_schemes : list string),
    scheme = Some name /\ name <> EmptyString
    /\ g_vfs_get_supported_uri_schemes = Some supported_schemes
    /\ name ∈ supported_schemes.
Proof.
  unfold thunar_g_vfs_is_uri_scheme_supported.
  destruct scheme as [name |]; [| split; [discriminate | by intros (? & ? & ? & _)]].
  destruct (String.eqb_spec name EmptyString) as [-> | Hname]; simpl.
  - split; [discriminate | by intros (? & ? & [= <-] & ? & _)].
  - destruct g_vfs_get_supported_uri_schemes as [supported_schemes |].
    + rewrite uri_scheme_supported_from_spec. simpl. rewrite bool_decide_eq_true.
      split.
      * intros Hin. by exists name, supported_schemes.
      * by intros (? & ? & [= <-] & _ & [= <-] & Hin).
    + split; [discriminate | by intros (? & ? & _ & _ & ? & _)].
Qed.

Lemma is_in_data_dirs_from_iff (path : option string) (data_dirs : list string) :
  is_in_data_dirs_from path data_dirs = true <->
  exists (name data_dir : string),
    path = Some name /\ data_dir ∈ data_dirs /\ String.prefix data_dir name = true.
Proof.
  induction data_dirs as [| data_dir rest IH]; simpl.
  - split; [discriminate |]. intros (? & ? & _ & Hin & _). by apply elem_of_nil in Hin.
  - destruct (g_str_has_prefix_or_NULL path data_dir) eqn:Hprefix.
    + split; [| done]. intros _.
      destruct path as [name |]; [| discriminate].
      exists name, data_dir. split; [done |]. split; [left | exact Hprefix].
    + rewrite IH. split.
      * intros (name & dir & -> & Hin & Hdir). exists name, dir.
        split; [done |]. split; [by right | done].
      * intros (name & dir & -> & Hin & Hdir). exists name, dir.
        split; [done |]. split; [| done].
        apply elem_of_cons in Hin as [-> | Hin]; [| done].
        simpl in Hprefix. unfold g_str_has_prefix in Hprefix. congruence.
Qed.

Lemma string_prefix_app (prefix rest : string) : String.prefix prefix (prefix +:+ rest) = true.
Proof.
  induction prefix as [| c prefix IH]; simpl.
  - by destruct rest.
  - destruct (ascii_dec c c); [exact IH | congruence].
Qed.

(** X4: a file counts as inside the XDG data directories exactly when it is
    native and the text of its path starts with the text of one of them;
    so every path made of a data directory and any text behind it counts,
    whether or not that text starts a new path segment. *)
Theorem thunar_g_file_is_in_xdg_data_dir_iff (file : GFile) :
  (thunar_g_file_is_in_xdg_data_dir file = true <->
   g_file_is_native file = true
   /\ exists (data_dirs : list string) (path data_dir : string),
        g_get_system_data_dirs = Some data_dirs /\ g_file_get_path file = Some path
        /\ data_dir ∈ data_dirs /\ String.prefix data_dir path = true)
  /\ (forall (data_dirs : list string) (data_dir rest : string),
        g_file_is_native file = true ->
        g_get_system_data_dirs = Some data_dirs ->
        data_dir ∈ data_dirs ->
        g_file_get_path file = Some (data_dir +:+ rest) ->
        thunar_g_file_is_in_xdg_data_dir file = true).
Proof.
  assert (Hiff : thunar_g_file_is_in_xdg_data_dir file = true <->
   g_file_is_native file = true
   /\ exists (data_dirs : list string) (path data_dir : string),
        g_get_system_data_dirs = Some data_dirs /\ g_file_get_path file = Some path
        /\ data_dir ∈ data_dirs /\ String.prefix data_dir path = true).
  { unfold thunar_g_file_is_in_xdg_data_dir.
    destruct (g_file_is_native file); [| split; [discriminate | by intros [? _]]].
    destruct g_get_system_data_dirs as [data_dirs |].
    - rewrite is_in_data_dirs_from_iff. split.
      + intros (path & dir & Hpath & Hin & Hdir). split; [done |].
        by exists data_dirs, path, dir.
      + intros (_ & ? & path & dir & [= <-] & Hpath & Hin & Hdir). by exists path, dir.
    - split; [discriminate | by intros (_ & ? & ? & ? & ? & _)]. }
  split; [exact Hiff |].
  intros data_dirs data_dir rest Hnative Hdirs Hin Hpath.
  apply Hiff. split; [done |].
  exists data_dirs, (data_dir +:+ rest), data_dir.
  split; [done |]. split; [done |]. split; [done |]. apply string_prefix_app.
Qed.

End SchemesAndDirectories.

Section UriLists.
Context {GFile : Type} `{GFileIface GFile} `{Environment}.
Context `{GLibEnvironment} `{GFilePaths GFile}.

Lemma list_new_from_uris_map (uris : list string) (l : list GFile) :
  list_new_from_uris uris l = l ++ (g_file_new_for_uri <$> uris).
Proof.
  revert l. induction uris as [| uri rest IH]; intros l; simpl.
  - by rewrite app_nil_r.
  - rewrite IH. unfold g_list_append. by rewrite <- app_assoc.
Qed.

Lemma list_to_stringv_from_spec (lp : list GFile) (written : list (option string))
    (free : list (option string)) :
  length free = length lp ->
  list_to_stringv_from lp (length written) (written ++ free ++ [None])
  = written ++ (stringv_entry <$> lp) ++ [None].
Proof.
  revert written free. induction lp as [| data next IH]; intros written free Hfree.
  - destruct free; [done | discriminate].
  - destruct free as [| slot free]; [discriminate |].
    injection Hfree as Hfree.
    trans (list_to_stringv_from next (S (length written))
             (<[length written := stringv_entry data]>
                (written ++ (slot :: free) ++ [None]))).
    { cbn [list_to_stringv_from]. unfold stringv_entry.
      by destruct (g_file_get_path data). }
    rewrite insert_app_r_alt by lia.
    replace (length written - length written) with 0 by lia.
    cbn [app insert list_insert].
    replace (S (length written)) with (length (written ++ [stringv_entry data]))
      by (rewrite length_app; simpl; lia).
    replace (written ++ stringv_entry data :: free ++ [None])
      with ((written ++ [stringv_entry data]) ++ free ++ [None])
      by (by rewrite <- app_assoc).
    rewrite (IH _ free Hfree), <- app_assoc. reflexivity.
Qed.

(** X5: the array has one slot for each file of the list, in the order of
    the list, and a NULL after them: the slot of a file with a local path
    holds what [g_filename_to_uri] makes of the path, the slot of any other
    file holds its URI. *)
Theorem thunar_g_file_list_to_stringv_slots (l : list GFile) :
  thunar_g_file_list_to_stringv l = (stringv_entry <$> l) ++ [None].
Proof.
  unfold thunar_g_file_list_to_stringv.
  replace (length l + 1) with (S (length l)) by lia.
  rewrite replicate_S_end.
  exact (list_to_stringv_from_spec l [] (replicate (length l) None)
           (length_replicate _ _)).
Qed.

Lemma g_strv_app_NULL (array : list (option string)) (rest : list (option string)) :
  g_strv (array ++ None :: rest) = g_strv array.
Proof.
  induction array as [| [str |] array IH]; simpl; [done | by rewrite IH | done].
Qed.

Lemma g_strv_length_le (array : list (option string)) (i : nat) :
  array !! i = Some None -> length (g_strv array) <= i.
Proof.
  revert i. induction array as [| [str |] array IH]; intros [| i] Hi; simpl in *;
    try discriminate; try lia.
  specialize (IH i Hi). lia.
Qed.

Lemma g_strv_all (array : list (option string)) :
  Forall (fun slot => slot <> None) array -> Some <$> g_strv array = array.
Proof.
  induction 1 as [| [str |] array Hslot _ IH]; [done | | done].
  cbn [g_strv fmap list_fmap]. f_equal. exact IH.
Qed.

Lemma g_strv_list_to_stringv (l : list GFile) :
  g_strv (thunar_g_file_list_to_stringv l) = g_strv (stringv_entry <$> l).
Proof.
  trans (g_strv ((stringv_entry <$> l) ++ [None])); [| apply g_strv_app_NULL].
  f_equal. unfold thunar_g_file_list_to_stringv.
  replace (length l + 1) with (S (length l)) by lia.
  rewrite replicate_S_end.
  exact (list_to_stringv_from_spec l [] (replicate (length l) None)
           (length_replicate _ _)).
Qed.

(** X6: a reader of the NULL-terminated array sees the entries of all the
    files when every local path could be turned into a URI; when it could
    not be for the file at index [i], the reader sees fewer than [i + 1]
    entries: the array ends where the first conversion failed. *)
Theorem thunar_g_file_list_to_stringv_contents (l : list GFile) :
  ((forall file : GFile, file ∈ l -> stringv_entry file <> None) ->
   Some <$> g_strv (thunar_g_file_list_to_stringv l) = stringv_entry <$> l)
  /\ (forall (i : nat) (file : GFile),
        l !! i = Some file -> stringv_entry file = None ->
        length (g_strv (thunar_g_file_list_to_stringv l)) <= i).
Proof.
  rewrite g_strv_list_to_stringv.
  split.
  - intros Hall. apply g_strv_all. apply Forall_fmap, Forall_forall. exact Hall.
  - intros i file Hi Hentry. apply g_strv_length_le.
    rewrite list_lookup_fmap, Hi. simpl. by rewrite Hentry.
Qed.

(** X7: the list made from a URI list has one handle for each URI, in the
    order of the URIs; turned back into an array, it gives the URIs again
    when the library reproduces each of them from its handle. *)
Theorem thunar_g_file_list_round_trip (str : string) :
  thunar_g_file_list_new_from_string str = g_file_new_for_uri <$> g_uri_list_extract_uris str
  /\ ((forall uri : string, uri ∈ g_uri_list_extract_uris str ->
         stringv_entry (g_file_new_for_uri uri) = Some uri) ->
      g_strv (thunar_g_file_list_to_stringv (thunar_g_file_list_new_from_string str))
      = g_uri_list_extract_uris str).
Proof.
  assert (Hlist : thunar_g_file_list_new_from_string str
                  = g_file_new_for_uri <$> g_uri_list_extract_uris str).
  { unfold thunar_g_file_list_new_from_string. by rewrite list_new_from_uris_map. }
  split; [exact Hlist |].
  intros Hreproduced.
  rewrite Hlist, g_strv_list_to_stringv.
  clear Hlist. revert Hreproduced.
  generalize (g_uri_list_extract_uris str). intros uris.
  induction uris as [| uri uris IH]; intros Hreproduced; [done |].
  cbn [fmap list_fmap]. rewrite (Hreproduced uri) by left. simpl.
  f_equal. apply IH. intros uri' Hin. apply Hreproduced. by right.
Qed.

End UriLists.

Section LinkPaths.
Context {GFile : Type} `{GFileIface GFile} `{Environment}.
Context `{GLibEnvironment} `{GFilePaths GFile}.

Lemma filesystem_root_from_chain (file : GFile) (chain : list GFile) (fuel : nat) :
  parent_chain file chain ->
  length chain <= S fuel ->
  filesystem_root_from fuel file = last chain.
Proof.
  intros Hchain. revert fuel.
  induction Hchain as [file Hroot | file parent chain Hparent Hchain IH]; intros fuel Hfuel.
  - destruct fuel; simpl; by rewrite Hroot.
  - destruct fuel as [| fuel].
    + simpl in Hfuel. destruct Hchain; simpl in Hfuel; lia.
    + simpl filesystem_root_from. rewrite Hparent.
      rewrite (IH fuel) by (simpl in Hfuel; lia).
      destruct Hchain; reflexivity.
Qed.

(** X8: when one of the two files is native, the link path is the local
    path of the file to link to, which can be NULL; otherwise it is ["/"]
    followed by the path of that file relative to the last handle of its
    chain of parents, and the bare ["/"] when the library gives no relative
    path. *)
Theorem thunar_g_file_get_link_path_for_symlink_cases (file_to_link symlink : GFile)
    (chain : list GFile) (fuel : nat) :
  parent_chain file_to_link chain ->
  length chain <= S fuel ->
  exists root : GFile,
    last chain = Some root
    /\ thunar_g_file_get_link_path_for_symlink fuel file_to_link symlink
       = Some (if g_file_is_native file_to_link || g_file_is_native symlink
               then g_file_get_path file_to_link
               else match g_file_get_relative_path root file_to_link with
                    | Some relative_path => Some ("/" +:+ relative_path)
                    | None => Some "/"
                    end).
Proof.
  intros Hchain Hfuel.
  assert (Hlast : exists root : GFile, last chain = Some root).
  { destruct Hchain as [file Hroot | file parent chain Hparent Hchain].
    - by exists file.
    - destruct (last (file :: chain)) as [root |] eqn:Hlast; [by exists root |].
      by apply last_None in Hlast. }
  destruct Hlast as [root Hlast]. exists root. split; [exact Hlast |].
  unfold thunar_g_file_get_link_path_for_symlink.
  destruct (g_file_is_native file_to_link || g_file_is_native symlink); [reflexivity |].
  rewrite (filesystem_root_from_chain _ _ _ Hchain Hfuel), Hlast.
  unfold g_strconcat. by destruct (g_file_get_relative_path root file_to_link).
Qed.

End LinkPaths.

(** ** The shape of the remote display name *)

Section Suffixes.

Lemma string_take_drop (n : nat) (s : string) : string_take n s +:+ string_drop n s = s.
Proof.
  revert s. induction n as [| n IH]; intros s; [reflexivity |].
  destruct s as [| c s]; [reflexivity |].
  change (String c (string_take n s +:+ string_drop n s) = String c s). by rewrite IH.
Qed.

Lemma string_app_assoc (a b c : string) : (a +:+ b) +:+ c = a +:+ (b +:+ c).
Proof.
  induction a as [| x a IH]; [reflexivity |].
  change (String x ((a +:+ b) +:+ c) = String x (a +:+ (b +:+ c))). by rewrite IH.
Qed.

Lemma string_length_app (a b : string) :
  String.length (a +:+ b) = String.length a + String.length b.
Proof.
  induction a as [| x a IH]; [reflexivity |].
  change (S (String.length (a +:+ b)) = S (String.length a + String.length b)).
  by rewrite IH.
Qed.

Lemma string_drop_app (a b : string) : string_drop (String.length a) (a +:+ b) = b.
Proof. induction a as [| x a IH]; [reflexivity | exact IH]. Qed.

Lemma drop_colons_slashes_suffix (s : string) :
  exists before : string, s = before +:+ drop_colons_slashes s.
Proof.
  induction s as [| a s [before IH]]; [by exists EmptyString |].
  simpl. destruct (Ascii.eqb a ":" || Ascii.eqb a "/").
  - exists (String a before).
    change (String a s = String a (before +:+ drop_colons_slashes s)). by rewrite <- IH.
  - by exists EmptyString.
Qed.

Lemma index_of_string_drop (c : ascii) (k : nat) (s : string) :
  index_of c s = None -> index_of c (string_drop k s) = None.
Proof.
  revert s. induction k as [| k IH]; intros s Hs; [exact Hs |].
  destruct s as [| a s]; [reflexivity |].
  simpl in Hs. destruct (Ascii.eqb a c); [discriminate |].
  apply IH. by destruct (index_of c s).
Qed.

Lemma index_of_string_take (c : ascii) (s : string) (i : nat) :
  index_of c s = Some i -> index_of c (string_take i s) = None.
Proof.
  revert i. induction s as [| a s IH]; intros i Hi; [discriminate |].
  simpl in Hi. destruct (Ascii.eqb a c) eqn:Hac.
  - by injection Hi as <-.
  - destruct (index_of c s) as [j |] eqn:Hj; [| discriminate].
    injection Hi as <-. simpl. rewrite Hac. by rewrite (IH j eq_refl).
Qed.

Lemma index_of_string_drop_at (c : ascii) (s : string) (i : nat) :
  index_of c s = Some i -> exists rest : string, string_drop i s = String c rest.
Proof.
  revert i. induction s as [| a s IH]; intros i Hi; [discriminate |].
  simpl in Hi. destruct (Ascii.eqb_spec a c) as [-> | Hne].
  - injection Hi as <-. by exists s.
  - destruct (index_of c s) as [j |] eqn:Hj; [| discriminate].
    injection Hi as <-. exact (IH j eq_refl).
Qed.

Lemma skip_credential_drop (sep : ascii) (dot : nat) (host : string) :
  exists (dot' k : nat), skip_credential sep (dot, host) = (dot', string_drop k host).
Proof.
  unfold skip_credential. destruct (index_of sep host) as [i |].
  - destruct (i <? dot)%nat; [by exists (dot - S i), (S i) | by exists dot, 0].
  - by exists dot, 0.
Qed.

(** The host of a remote name is a piece of the parse name that has no
    ['/'], and the path starts with ['/']; the two are the end of the parse
    name, unless the parse name has no path and ["/"] stands for it. *)
Lemma remote_host_and_path_shape (scheme parse_name : string) :
  let host := (remote_host_and_path scheme parse_name).1 in
  let path := (remote_host_and_path scheme parse_name).2 in
  index_of "/" host = None
  /\ String.prefix "/" path = true
  /\ exists before : string,
       parse_name = before +:+ host +:+ path
       \/ (path = "/" /\ parse_name = before +:+ host).
Proof.
  unfold remote_host_and_path.
  set (dropped := string_drop (String.length scheme) parse_name).
  set (rest := drop_colons_slashes dropped).
  assert (Hrest : exists before : string, parse_name = before +:+ rest).
  { destruct (drop_colons_slashes_suffix dropped) as [seps Hseps]. fold rest in Hseps.
    exists (string_take (String.length scheme) parse_name +:+ seps).
    rewrite string_app_assoc, <- Hseps. subst dropped. by rewrite string_take_drop. }
  destruct Hrest as [before Hrest].
  assert (Hskip : forall (host0 : string) (dot : nat),
            exists k : nat,
              (skip_credential "@" (skip_credential ":" (dot, host0))).2
              = string_drop k host0).
  { intros host0 dot.
    destruct (skip_credential_drop ":" dot host0) as (dot1 & k1 & ->).
    destruct (skip_credential_drop "@" dot1 (string_drop k1 host0)) as (dot2 & k2 & ->).
    exists (k1 + k2). simpl. by rewrite string_drop_add. }
  assert (Hhost : forall host0 : string,
            exists k : nat,
              match index_of "." rest with
              | Some dot => (skip_credential "@" (skip_credential ":" (dot, host0))).2
              | None => host0
              end = string_drop k host0).
  { intros host0. destruct (index_of "." rest) as [dot |]; [apply Hskip | by exists 0]. }
  destruct (index_of "/" rest) as [slash |] eqn:Hslash.
  - destruct (Hhost (string_take slash rest)) as [k Hk].
    cbn [fst snd]. rewrite Hk.
    split; [by apply index_of_string_drop, index_of_string_take |].
    destruct (index_of_string_drop_at _ _ _ Hslash) as [tail Htail].
    split; [rewrite Htail; simpl; by destruct tail |].
    exists (before +:+ string_take k (string_take slash rest)). left.
    rewrite string_app_assoc, <- (string_app_assoc (string_take k _)), string_take_drop.
    rewrite string_take_drop. exact Hrest.
  - destruct (Hhost rest) as [k Hk].
    cbn [fst snd]. rewrite Hk.
    split; [by apply index_of_string_drop |].
    split; [reflexivity |].
    exists (before +:+ string_take k rest). right. split; [reflexivity |].
    rewrite string_app_assoc, string_take_drop. exact Hrest.
Qed.

End Suffixes.

Section RemoteNames.
Context {GFile : Type} `{GFileIface GFile} `{Environment}.

(** X9: the display name of a remote mount point is the message
    [%s on %s] filled with the path, unescaped, and the host, where host and
    path are those of [remote_host_and_path].  The host has
    no ['/']; the path, before it is unescaped, starts with ['/']; host and
    path are the end of the parse name, or the parse name ends with the
    host and the path is ["/"].  When the path cannot be unescaped the
    display name shows [(null)] in its place. *)
Theorem thunar_g_file_get_display_name_remote_shape (mount_point : GFile) (scheme : string) :
  g_file_is_native mount_point = false ->
  g_file_get_uri_scheme mount_point = Some scheme ->
  g_str_has_prefix (g_file_get_parse_name mount_point) scheme = true ->
  let parse_name := g_file_get_parse_name mount_point in
  let host := (remote_host_and_path scheme parse_name).1 in
  let path := (remote_host_and_path scheme parse_name).2 in
  thunar_g_file_get_display_name_remote mount_point
  = g_strdup_printf (gettext "%s on %s") [g_uri_unescape_string path; Some host]
  /\ index_of "/" host = None
  /\ String.prefix "/" path = true
  /\ (exists before : string,
        parse_name = before +:+ host +:+ path
        \/ (path = "/" /\ parse_name = before +:+ host))
  /\ (gettext "%s on %s" = "%s on %s" ->
      g_uri_unescape_string path = None ->
      thunar_g_file_get_display_name_remote mount_point = "(null) on " +:+ host).
Proof.
  intros Hnative Hscheme Hprefix parse_name host path.
  assert (Hname : thunar_g_file_get_display_name_remote mount_point
                  = g_strdup_printf (gettext "%s on %s")
                      [g_uri_unescape_string path; Some host]).
  { unfold thunar_g_file_get_display_name_remote.
    rewrite Hnative, Hscheme, Hprefix. simpl.
    pose proof (remote_host_and_path_offsets scheme (g_file_get_parse_name mount_point))
      as Hoffsets.
    simpl in Hoffsets. subst host path parse_name.
    destruct (remote_host_and_path scheme (g_file_get_parse_name mount_point))
      as [host path].
    by rewrite Hoffsets. }
  split; [exact Hname |].
  destruct (remote_host_and_path_shape scheme parse_name) as (Hhost & Hpath & Hend).
  split; [exact Hhost |]. split; [exact Hpath |]. split; [exact Hend |].
  intros Hmsg Hunescaped. rewrite Hname, Hmsg, Hunescaped. simpl.
  by rewrite append_empty_r.
Qed.

End RemoteNames.

(** ** Checksums, execute bits and deletions *)

Section Bits.

Lemma lor_eq_land (old bits : Z) :
  (old =? Z.lor old bits)%Z = (Z.land old bits =? bits)%Z.
Proof.
  destruct (Z.eqb_spec old (Z.lor old bits)) as [Hlor | Hlor];
    destruct (Z.eqb_spec (Z.land old bits) bits) as [Hland | Hland]; try reflexivity.
  - destruct Hland. rewrite Hlor. apply Z.bits_inj'. intros n Hn.
    rewrite Z.land_spec, Z.lor_spec.
    by destruct (Z.testbit old n), (Z.testbit bits n).
  - destruct Hlor. rewrite <- Hland. apply Z.bits_inj'. intros n Hn.
    rewrite Z.lor_spec, Z.land_spec.
    by destruct (Z.testbit old n), (Z.testbit bits n).
Qed.

End Bits.

Section Checksums.
Context {GFile : Type} `{GFileIface GFile} `{Environment}.

(** X10: both checksums are always asked for, the one of [file_a] first and
    the one of [file_b] also when the first failed; the files are reported
    equal when both checksums were made and are the same, and also when
    neither could be made; the caller gets the error of the first checksum
    that failed. *)
Theorem thunar_g_file_compare_checksum_result (file_a file_b : GFile)
    (cancellable : option GCancellable) (error : bool) (slot : option GError)
    (trace : list (event GFile)) (is_equal : bool) (slot' : option GError) :
  error_is_unset error slot = true ->
  exec (thunar_g_file_compare_checksum file_a file_b cancellable error slot) trace
    (is_equal, slot') ->
  exists r_a r_b : gresult string,
    trace = [Event (xfce_g_file_create_checksum file_a cancellable) r_a;
             Event (xfce_g_file_create_checksum file_b cancellable) r_b]
    /\ is_equal = match r_a, r_b with
                  | G_OK str_a, G_OK str_b => String.eqb str_a str_b
                  | G_FAILED _, G_FAILED _ => true
                  | _, _ => false
                  end
    /\ slot' = if error
               then match r_a, r_b with
                    | G_FAILED e, _ => Some e
                    | G_OK _, G_FAILED e => Some e
                    | G_OK _, G_OK _ => None
                    end
               else slot.
Proof.
  intros Hunset Hexec. unfold thunar_g_file_compare_checksum in Hexec.
  rewrite Hunset in Hexec. exec_next Hexec. rename r into r_a.
  exec_next Hexec. rename r into r_b. exec_next Hexec.
  injection Hexec as -> ->. exists r_a, r_b.
  split; [reflexivity |]. split.
  - by destruct r_a, r_b.
  - destruct error; [| by destruct r_a, r_b].
    destruct slot; [discriminate |]. by destruct r_a, r_b.
Qed.

End Checksums.

Section ExecutableFlags.
Context {GFile : Type} `{GFileIface GFile} `{Environment}.

(** X11: the mode is asked for without following symbolic links; it is
    written back, with the three execute bits added and no other bit
    changed, exactly when one of these bits was missing; a warning is logged
    when the mode is not reported.  Whatever the calls reply, the result is
    TRUE when the caller gave no place for an error and FALSE when it gave
    one. *)
Theorem thunar_g_file_set_executable_flags_result (file : GFile)
    (error : bool) (slot : option GError)
    (trace : list (event GFile)) (success : bool) (slot' : option GError) :
  error_is_unset error slot = true ->
  exec (thunar_g_file_set_executable_flags file error slot) trace (success, slot') ->
  let query :=
    g_file_query_info file G_FILE_ATTRIBUTE_UNIX_MODE G_FILE_QUERY_INFO_NOFOLLOW_SYMLINKS None in
  let execute_bits :=
    Z.lor (Z.lor THUNAR_FILE_MODE_USR_EXEC THUNAR_FILE_MODE_GRP_EXEC)
      THUNAR_FILE_MODE_OTH_EXEC in
  success = negb error
  /\ exists r : gresult GFileInfo,
       match r with
       | G_FAILED _ => trace = [Event query r]
       | G_OK info =>
           if g_file_info_has_attribute info G_FILE_ATTRIBUTE_UNIX_MODE
           then
             let old_mode := g_file_info_get_attribute_uint32 info G_FILE_ATTRIBUTE_UNIX_MODE in
             if (Z.land old_mode execute_bits =? execute_bits)%Z
             then trace = [Event query r]
             else exists written : gresult unit,
                    trace = [Event query r;
                             Event (g_file_set_attribute_uint32 file G_FILE_ATTRIBUTE_UNIX_MODE
                                      (Z.lor old_mode execute_bits)
                                      G_FILE_QUERY_INFO_NOFOLLOW_SYMLINKS None) written]
           else trace = [Event query r;
                         Event (g_warning "No unix::mode attribute found") tt]
       end.
Proof.
  intros Hunset Hexec query execute_bits.
  unfold thunar_g_file_set_executable_flags in Hexec.
  rewrite Hunset in Hexec. exec_next Hexec. fold query in r, Hexec |- *.
  destruct r as [info | e]; exec_simpl Hexec.
  - destruct (g_file_info_has_attribute info G_FILE_ATTRIBUTE_UNIX_MODE) eqn:Hmode.
    + set (old_mode := g_file_info_get_attribute_uint32 info G_FILE_ATTRIBUTE_UNIX_MODE)
        in Hexec.
      replace (Z.lor (Z.lor (Z.lor old_mode THUNAR_FILE_MODE_USR_EXEC)
                        THUNAR_FILE_MODE_GRP_EXEC) THUNAR_FILE_MODE_OTH_EXEC)
        with (Z.lor old_mode execute_bits) in Hexec
        by (subst execute_bits; by rewrite !Z.lor_assoc).
      rewrite lor_eq_land in Hexec.
      destruct (Z.land old_mode execute_bits =? execute_bits)%Z eqn:Hbits;
        exec_simpl Hexec.
      * exec_next Hexec. injection Hexec as -> ->. split; [done |].
        exists (G_OK info). rewrite Hmode. cbv zeta. fold old_mode. by rewrite Hbits.
      * exec_next Hexec. exec_next Hexec. injection Hexec as -> ->. split; [done |].
        exists (G_OK info). rewrite Hmode. cbv zeta. fold old_mode. rewrite Hbits. by exists r.
    + exec_next Hexec. exec_next Hexec. injection Hexec as -> ->. split; [done |].
      exists (G_OK info). rewrite Hmode. by destruct r.
  - exec_next Hexec. injection Hexec as -> ->. split; [done |]. by exists (G_FAILED e).
Qed.

End ExecutableFlags.

Section CopyDeletions.
Context {GFile : Type} `{GFileIface GFile}.

Lemma thunar_g_file_copy_to_partial_deletions (source destination parent : GFile)
    (flags : GFileCopyFlags) (cancellable : option GCancellable)
    (progress_callback : option GFileProgressCallback) (progress_callback_data : user_data)
    (error : bool) (slot : option GError)
    (trace : list (event GFile)) (success : bool) (slot' : option GError) :
  g_file_get_parent destination = Some parent ->
  exec (thunar_g_file_copy_to_partial source destination flags cancellable
          progress_callback progress_callback_data error slot) trace (success, slot') ->
  let base_name :=
    match g_file_get_basename destination with
    | Some base_name => base_name
    | None => "UNNAMED"
    end in
  let partial := g_file_get_child parent (partial_name_of base_name) in
  forall (ev : event GFile) (file : GFile),
    ev ∈ trace -> deleted_file (event_call ev) = Some file -> file = partial.
Proof.
  intros Hparent Hexec base_name partial ev file Hin Hdeleted.
  destruct (thunar_g_file_copy_to_partial_trace _ _ _ _ _ _ _ _ _ _ _ _ Hparent Hexec)
    as (preparation & steps & -> & Hprep & Hsteps & _).
  fold base_name partial in Hprep, Hsteps.
  apply elem_of_app in Hin as [Hin | Hin].
  - destruct Hprep as [-> | [deleted ->]].
    + apply list_elem_of_singleton in Hin as ->. discriminate.
    + apply elem_of_cons in Hin as [-> | Hin]; [discriminate |].
      apply list_elem_of_singleton in Hin as ->. by injection Hdeleted as <-.
  - destruct Hsteps;
      repeat (apply elem_of_cons in Hin as [-> | Hin];
              [first [discriminate | by injection Hdeleted as <-] |]);
      by apply elem_of_nil in Hin.
Qed.

(** X12: the copy deletes nothing but the partial file and, with the partial
    step in effect, a destination that it found and was asked to overwrite:
    that deletion is the third call, before anything is copied.  When the
    partial file is another file than the destination, no call deletes the
    destination without the overwrite flag.  The partial file is the
    destination itself when the base name of the destination is 100 bytes
    followed by [.partial~]: then, whatever the flags, a copy that fails is
    followed by the deletion of the destination, in an execution where no
    existence check found anything. *)
Theorem thunar_g_file_copy_deletions (source destination parent : GFile)
    (flags : GFileCopyFlags) (use_partial : bool) (cancellable : option GCancellable)
    (progress_callback : option GFileProgressCallback) (progress_callback_data : user_data)
    (error : bool) (slot : option GError)
    (trace : list (event GFile)) (success : bool) (slot' : option GError) :
  g_file_get_parent destination = Some parent ->
  exec (thunar_g_file_copy source destination flags use_partial cancellable
          progress_callback progress_callback_data error slot) trace (success, slot') ->
  let base_name :=
    match g_file_get_basename destination with
    | Some base_name => base_name
    | None => "UNNAMED"
    end in
  let partial :=
    g_file_get_child parent (String.substring 0 100 base_name +:+ ".partial~") in
  (forall (i : nat) (ev : event GFile) (file : GFile),
     trace !! i = Some ev ->
     deleted_file (event_call ev) = Some file ->
     file = partial
     \/ (file = destination /\ i = 2
         /\ use_partial = true /\ source_found_regular source trace
         /\ destination_found destination trace
         /\ flags_and flags G_FILE_COPY_OVERWRITE = true))
  /\ (partial <> destination ->
      flags_and flags G_FILE_COPY_OVERWRITE = false ->
      forall ev : event GFile,
        ev ∈ trace -> deleted_file (event_call ev) <> Some destination)
  /\ (partial = destination ->
      forall e : GError,
        exists trace' : list (event GFile),
          exec (thunar_g_file_copy source destination flags true cancellable
                  progress_callback progress_callback_data error slot)
            trace' (false, g_set_error error slot e)
          /\ Forall (fun ev => event_found ev = false) trace'
          /\ last trace' = Some (Event (g_file_delete destination None) (G_OK tt))).
Proof.
  intros Hparent Hexec base_name partial.
  assert (Hclass : forall (i : nat) (ev : event GFile) (file : GFile),
            trace !! i = Some ev ->
            deleted_file (event_call ev) = Some file ->
            file = partial
            \/ (file = destination /\ i = 2
                /\ use_partial = true /\ source_found_regular source trace
                /\ destination_found destination trace
                /\ flags_and flags G_FILE_COPY_OVERWRITE = true)).
  { intros i ev file Hi Hdeleted.
    destruct (thunar_g_file_copy_cases _ _ _ _ _ _ _ _ _ _ _ _ _ Hparent Hexec)
      as [(Huse & r & -> & _)
         | [(Huse & found & r & -> & _)
           | [(Huse & found & -> & _)
             | [(Huse & found & deleted & rest & -> & Htype & Hoverwrite & Hrest)
               | (Huse & found & rest & -> & Htype & Hrest)]]]].
    - destruct i as [| i]; [| by destruct i]. injection Hi as <-. discriminate.
    - destruct i as [| [| i]]; [| | by destruct i]; injection Hi as <-; discriminate.
    - destruct i as [| [| i]]; [| | by destruct i]; injection Hi as <-; discriminate.
    - destruct i as [| [| [| i]]].
      + injection Hi as <-. discriminate.
      + injection Hi as <-. discriminate.
      + injection Hi as <-. injection Hdeleted as <-. right.
        split; [done |]. split; [done |]. split; [done |].
        split; [| split; [| done]].
        * eexists. split; [reflexivity |]. split; [by eexists _, _ | done].
        * eexists. split; [reflexivity |]. by split.
      + left. simpl in Hi. apply list_elem_of_lookup_2 in Hi.
        exact (thunar_g_file_copy_to_partial_deletions _ _ _ _ _ _ _ _ _ _ _ _
                 Hparent Hrest ev file Hi Hdeleted).
    - destruct i as [| [| i]].
      + injection Hi as <-. discriminate.
      + injection Hi as <-. discriminate.
      + left. simpl in Hi. apply list_elem_of_lookup_2 in Hi.
        exact (thunar_g_file_copy_to_partial_deletions _ _ _ _ _ _ _ _ _ _ _ _
                 Hparent Hrest ev file Hi Hdeleted). }
  split; [exact Hclass |]. split.
  - intros Hdifferent Hflag ev Hin Hdeleted.
    apply list_elem_of_lookup in Hin as [i Hi].
    destruct (Hclass i ev destination Hi Hdeleted) as [Heq | (_ & _ & _ & _ & _ & Hoverwrite)];
      congruence.
  - intros Hsame e.
    set (info := <[G_FILE_ATTRIBUTE_STANDARD_TYPE := ATTRIBUTE_UINT32 1]> (∅ : GFileInfo)).
    exists [Event (g_file_query_info source G_FILE_ATTRIBUTE_STANDARD_TYPE
                     (if flags_and flags G_FILE_COPY_NOFOLLOW_SYMLINKS
                      then G_FILE_QUERY_INFO_NOFOLLOW_SYMLINKS
                      else G_FILE_QUERY_INFO_NONE) cancellable) (G_OK info);
            Event (g_file_query_exists destination None) false;
            Event (g_file_query_exists destination None) false;
            Event (g_file_copy source destination flags cancellable
                     progress_callback progress_callback_data) (G_FAILED e);
            Event (g_file_delete destination None) (G_OK tt)].
    split; [| split; [by repeat constructor | reflexivity]].
    unfold thunar_g_file_copy, g_file_has_parent. rewrite Hparent.
    unfold mret, mbind, gio_ret, gio_mbind. cbn [negb gio_bind call].
    apply exec_Call. cbn [gresult_pointer].
    change (GFileType_eqb (g_file_info_get_file_type info) G_FILE_TYPE_REGULAR) with true.
    cbn [negb gio_bind].
    apply exec_Call.
    unfold thunar_g_file_copy_to_partial. rewrite Hparent.
    fold base_name. change (partial_name_of base_name)
      with (String.substring 0 100 base_name +:+ ".partial~").
    fold partial. rewrite Hsame.
    unfold mret, mbind, gio_ret, gio_mbind. cbn [negb gio_bind call].
    apply exec_Call. cbn [gio_bind].
    apply exec_Call. cbn [gio_bind gresult_ok negb].
    apply exec_Call. cbn [gio_bind g_propagate]. apply exec_Ret.
Qed.

(** X13: when the destination was found and is to be overwritten, it is
    deleted with the third call, whose reply is not looked at, and from
    then on no error reaches the caller: the place for the error ends up
    empty when the caller gave one.  A failed copy is then reported by the
    result alone: for every error of the copy there is such an execution
    that returns FALSE and leaves no error. *)
Theorem thunar_g_file_copy_overwrite_reports_no_error (source destination parent : GFile)
    (flags : GFileCopyFlags) (cancellable : option GCancellable)
    (progress_callback : option GFileProgressCallback) (progress_callback_data : user_data)
    (error : bool) (slot : option GError) :
  g_file_get_parent destination = Some parent ->
  flags_and flags G_FILE_COPY_OVERWRITE = true ->
  (forall (trace : list (event GFile)) (success : bool) (slot' : option GError),
     exec (thunar_g_file_copy source destination flags true cancellable
             progress_callback progress_callback_data error slot) trace (success, slot') ->
     source_found_regular source trace ->
     destination_found destination trace ->
     (exists deleted : gresult unit,
        trace !! 2 = Some (Event (g_file_delete destination None) deleted))
     /\ slot' = if error then None else slot)
  /\ (forall e : GError,
        exists trace : list (event GFile),
          exec (thunar_g_file_copy source destination flags true cancellable
                  progress_callback progress_callback_data true None) trace (false, None)
          /\ source_found_regular source trace
          /\ destination_found destination trace
          /\ e ∈ trace_errors trace).
Proof.
  intros Hparent Hoverwrite. split.
  - intros trace success slot' Hexec Hregular Hfound.
    destruct (thunar_g_file_copy_cases _ _ _ _ _ _ _ _ _ _ _ _ _ Hparent Hexec)
      as [(Huse & _)
         | [(_ & found & r & -> & Htype & _)
           | [(_ & found & -> & _ & Hno & _)
             | [(_ & found & deleted & rest & -> & Htype & _ & Hrest)
               | (_ & found & rest & -> & Htype & Hrest)]]]].
    + discriminate.
    + destruct Hregular as (ev & [= <-] & _ & Hregular). done.
    + congruence.
    + split; [by exists deleted |].
      destruct (thunar_g_file_copy_to_partial_trace _ _ _ _ _ _ _ _ _ _ _ _ Hparent Hrest)
        as (_ & _ & _ & _ & _ & [-> | (? & _)]); [reflexivity | discriminate].
    + destruct Hfound as (ev & [= <-] & _ & Hfound). done.
  - intros e.
    set (info := <[G_FILE_ATTRIBUTE_STANDARD_TYPE := ATTRIBUTE_UINT32 1]> (∅ : GFileInfo)).
    set (base_name :=
           match g_file_get_basename destination with
           | Some base_name => base_name
           | None => "UNNAMED"
           end).
    set (partial := g_file_get_child parent (partial_name_of base_name)).
    exists [Event (g_file_query_info source G_FILE_ATTRIBUTE_STANDARD_TYPE
                     (if flags_and flags G_FILE_COPY_NOFOLLOW_SYMLINKS
                      then G_FILE_QUERY_INFO_NOFOLLOW_SYMLINKS
                      else G_FILE_QUERY_INFO_NONE) cancellable) (G_OK info);
            Event (g_file_query_exists destination None) true;
            Event (g_file_delete destination None) (G_OK tt);
            Event (g_file_query_exists partial None) false;
            Event (g_file_copy source partial flags cancellable
                     progress_callback progress_callback_data) (G_FAILED e);
            Event (g_file_delete partial None) (G_OK tt)].
    split; [| split; [| split]].
    + unfold thunar_g_file_copy, g_file_has_parent. rewrite Hparent.
      unfold mret, mbind, gio_ret, gio_mbind. cbn [negb gio_bind call].
      apply exec_Call. cbn [gresult_pointer].
      change (GFileType_eqb (g_file_info_get_file_type info) G_FILE_TYPE_REGULAR) with true.
      cbn [negb gio_bind].
      apply exec_Call. rewrite Hoverwrite.
      cbn [gio_bind]. apply exec_Call.
      unfold thunar_g_file_copy_to_partial. rewrite Hparent.
      fold base_name partial.
      unfold mret, mbind, gio_ret, gio_mbind. cbn [negb gio_bind call].
      apply exec_Call. cbn [gio_bind].
      apply exec_Call. cbn [gio_bind gresult_ok negb].
      apply exec_Call. cbn [gio_bind]. apply exec_Ret.
    + eexists. split; [reflexivity |]. split; [by eexists _, _ | reflexivity].
    + eexists. split; [reflexivity |]. by split.
    + unfold trace_errors. simpl. left.
Qed.

End CopyDeletions.

(** ** More about parents and descendants *)

Section MoreParents.
Context {GFile : Type} `{GFileIface GFile}.

Lemma list_get_parents_from_app (l l' : list (gpointer GFile)) (folders : list GFile) :
  list_get_parents_from (l ++ l') folders
  = list_get_parents_from l' (list_get_parents_from l folders).
Proof.
  revert folders. induction l as [| data next IH]; intros folders; simpl; [done |].
  destruct data as [file |]; [| apply IH].
  destruct (g_file_get_parent file) as [parent_folder |]; [| apply IH].
  destruct (folder_already_added folders parent_folder); apply IH.
Qed.

Lemma list_get_parents_from_length (l : list (gpointer GFile)) (folders : list GFile) :
  length (list_get_parents_from l folders)
  <= length folders + length (List.filter has_parent_folder l).
Proof.
  revert folders. induction l as [| data next IH]; intros folders; simpl; [lia |].
  destruct data as [file |]; [| apply IH].
  cbn [has_parent_folder].
  destruct (g_file_get_parent file) as [parent_folder |]; [| apply IH].
  cbn [length].
  destruct (folder_already_added folders parent_folder).
  - specialize (IH folders). lia.
  - specialize (IH (g_list_append folders parent_folder)).
    unfold g_list_append in *. rewrite length_app in IH. simpl in IH. lia.
Qed.

Lemma list_get_parents_from_known (l : list (gpointer GFile)) (folders : list GFile) :
  (forall file p, G_FILE file ∈ l -> g_file_get_parent file = Some p ->
     exists q, q ∈ folders /\ same_file q p) ->
  list_get_parents_from l folders = folders.
Proof.
  induction l as [| data next IH]; intros Hknown; simpl; [done |].
  assert (Hnext : list_get_parents_from next folders = folders).
  { apply IH. intros file p Hin. apply Hknown. by right. }
  destruct data as [file |]; [| exact Hnext].
  destruct (g_file_get_parent file) as [parent_folder |] eqn:Hparent; [| exact Hnext].
  destruct (folder_already_added folders parent_folder) eqn:Hadded; [exact Hnext |].
  destruct (Hknown file parent_folder) as (q & Hq & Hsame); [left | done |].
  assert (folder_already_added folders parent_folder = true); [| congruence].
  apply folder_already_added_iff. by exists q.
Qed.

(** X14: the list of parents is never longer than the number of the files of
    the input that have a parent; and when a handle is equal to itself,
    files that the list already holds add nothing: the parents of the list
    followed by some of its own elements are the parents of the list. *)
Theorem thunar_g_file_list_get_parents_repeated (l l' : list (gpointer GFile)) :
  length (thunar_g_file_list_get_parents l) <= length (List.filter has_parent_folder l)
  /\ (Reflexive same_file ->
      (forall data, data ∈ l' -> data ∈ l) ->
      thunar_g_file_list_get_parents (l ++ l') = thunar_g_file_list_get_parents l).
Proof.
  unfold thunar_g_file_list_get_parents. split.
  - exact (list_get_parents_from_length l []).
  - intros Hrefl Hsub. rewrite list_get_parents_from_app.
    apply list_get_parents_from_known. intros file p Hin Hparent.
    destruct (list_get_parents_from_spec l [] distinct_folders_nil)
      as (added & -> & _ & _ & Hall).
    apply (Hall Hrefl file p); [by apply Hsub | done].
Qed.

End MoreParents.

Section MoreDescendants.
Context {GFile : Type} `{GFileIface GFile}.

Lemma parent_chain_head (file : GFile) (chain : list GFile) :
  parent_chain file chain -> exists rest, chain = file :: rest.
Proof. destruct 1; eauto. Qed.

Lemma parent_chain_drop (file : GFile) (chain before after : list GFile) (f : GFile) :
  parent_chain file chain ->
  chain = before ++ f :: after ->
  parent_chain f (f :: after).
Proof.
  intros Hchain. revert before.
  induction Hchain as [file Hroot | file parent chain Hparent Hchain IH]; intros before Hsplit.
  - destruct before as [| g before].
    + injection Hsplit as <- <-. by constructor.
    + injection Hsplit as _ Hsplit. by destruct before.
  - destruct before as [| g before].
    + injection Hsplit as <- <-. by econstructor.
    + injection Hsplit as _ Hsplit. by eapply IH.
Qed.

Lemma parent_chain_same (a b : GFile) (chain_b : list GFile) :
  parents_respect_equality ->
  same_file a b ->
  parent_chain b chain_b ->
  exists chain_a : list GFile,
    parent_chain a chain_a /\ Forall2 same_file chain_a chain_b.
Proof.
  intros Hrespect Hsame Hchain. revert a Hsame.
  induction Hchain as [b Hroot | b parent chain Hparent Hchain IH]; intros a Hsame.
  - specialize (Hrespect a b Hsame). rewrite Hroot in Hrespect.
    destruct (g_file_get_parent a) eqn:Ha; [done |].
    exists [a]. split; [by constructor | by repeat constructor].
  - specialize (Hrespect a b Hsame). rewrite Hparent in Hrespect.
    destruct (g_file_get_parent a) as [p |] eqn:Ha; [| done].
    destruct (IH p Hrespect) as (chain_p & Hchain_p & Hall).
    exists (a :: chain_p). split; [by econstructor | by constructor].
Qed.

Lemma parent_chain_unique (file : GFile) (chain chain' : list GFile) :
  parent_chain file chain -> parent_chain file chain' -> chain = chain'.
Proof.
  intros Hchain. revert chain'.
  induction Hchain as [file Hroot | file parent chain Hparent Hchain IH];
    intros chain' Hchain'; destruct Hchain' as [file Hroot' | file parent' chain' Hparent' Hchain'];
    try congruence.
  f_equal. apply IH. congruence.
Qed.

Lemma is_descendant_from_true (file ancestor : GFile) (chain : list GFile) (fuel : nat) :
  parent_chain file chain ->
  is_descendant_from fuel (Some file) ancestor = Some true ->
  exists (before after : list GFile) (f : GFile),
    chain = before ++ f :: after /\ same_file f ancestor.
Proof.
  intros Hchain. revert fuel.
  induction Hchain as [file Hroot | file parent chain Hparent Hchain IH]; intros fuel Htrue.
  - destruct fuel; simpl in Htrue;
      (destruct (g_file_equal file ancestor) eqn:Heq; [by exists [], [], file |]);
      [done |].
    rewrite Hroot in Htrue. by destruct fuel.
  - destruct fuel; simpl in Htrue;
      (destruct (g_file_equal file ancestor) eqn:Heq; [by exists [], chain, file |]);
      [done |].
    rewrite Hparent in Htrue.
    destruct (IH fuel Htrue) as (before & after & f & -> & Hsame).
    by exists (file :: before), after, f.
Qed.

(** X15: being a descendant is transitive, when handle equality is an
    equivalence that the parent links respect: if the walk from [a] finds
    [b] and the walk from [b] finds [c], the walk from [a], given fuel for
    the chain of [a], finds [c]. *)
Theorem thunar_g_file_is_descendant_transitive (a b c : GFile) (chain : list GFile)
    (fuel_ab fuel_bc : nat) :
  Equivalence same_file ->
  parents_respect_equality ->
  parent_chain a chain ->
  thunar_g_file_is_descendant fuel_ab a b = Some true ->
  thunar_g_file_is_descendant fuel_bc b c = Some true ->
  forall fuel : nat, length chain <= fuel ->
    thunar_g_file_is_descendant fuel a c = Some true.
Proof.
  intros [Hrefl Hsym Htrans] Hrespect Hchain Hab Hbc fuel Hfuel.
  unfold thunar_g_file_is_descendant in *.
  destruct (is_descendant_from_true _ _ _ _ Hchain Hab)
    as (before & after & b' & Hsplit & Hb').
  pose proof (parent_chain_drop _ _ _ _ _ Hchain Hsplit) as Hchain_b'.
  destruct (parent_chain_same b b' _ Hrespect (Hsym _ _ Hb') Hchain_b')
    as (chain_b & Hchain_b & Hall).
  destruct (is_descendant_from_true _ _ _ _ Hchain_b Hbc)
    as (before_b & after_b & c' & -> & Hc').
  apply Forall2_app_inv_l in Hall as (before' & tail & _ & Htail & Htail_eq).
  apply Forall2_cons_inv_l in Htail as (c'' & after' & Hc'' & _ & ->).
  rewrite (is_descendant_from_chain c a chain Hchain fuel Hfuel). f_equal.
  apply existsb_exists. exists c''. split.
  - apply list_elem_of_In. rewrite Hsplit, Htail_eq.
    apply elem_of_app. right. apply elem_of_app. right. left.
  - apply (Htrans _ c'); [by apply Hsym | done].
Qed.

(** X16: two files that are descendants of each other are equal, under the
    same conditions on handle equality. *)
Theorem thunar_g_file_is_descendant_antisymmetric (a b : GFile) (chain : list GFile)
    (fuel_ab fuel_ba : nat) :
  Equivalence same_file ->
  parents_respect_equality ->
  parent_chain a chain ->
  thunar_g_file_is_descendant fuel_ab a b = Some true ->
  thunar_g_file_is_descendant fuel_ba b a = Some true ->
  g_file_equal a b = true.
Proof.
  intros [Hrefl Hsym Htrans] Hrespect Hchain Hab Hba.
  unfold thunar_g_file_is_descendant in *.
  destruct (is_descendant_from_true _ _ _ _ Hchain Hab)
    as (before & after & b' & Hsplit & Hb').
  pose proof (parent_chain_drop _ _ _ _ _ Hchain Hsplit) as Hchain_b'.
  destruct (parent_chain_same b b' _ Hrespect (Hsym _ _ Hb') Hchain_b')
    as (chain_b & Hchain_b & Hall_b).
  destruct (is_descendant_from_true _ _ _ _ Hchain_b Hba)
    as (before_b & after_b & a' & Hsplit_b & Ha').
  pose proof (parent_chain_drop _ _ _ _ _ Hchain_b Hsplit_b) as Hchain_a'.
  destruct (parent_chain_same a a' _ Hrespect (Hsym _ _ Ha') Hchain_a')
    as (chain_a & Hchain_a & Hall_a).
  rewrite (parent_chain_unique _ _ _ Hchain_a Hchain) in Hall_a.
  apply Forall2_length in Hall_a, Hall_b.
  rewrite Hsplit_b, length_app in Hall_b. rewrite Hsplit, length_app in Hall_a.
  simpl in Hall_a, Hall_b.
  destruct before as [| g before]; [| simpl in Hall_a; lia].
  destruct (parent_chain_head _ _ Hchain) as [rest Hhead].
  rewrite Hhead in Hsplit. injection Hsplit as -> _. exact Hb'.
Qed.

End MoreDescendants.

(** ** Desktop files *)

Section DesktopFiles.
Context {GFile : Type} `{GFileIface GFile} `{Environment}.
Context `{GLibEnvironment} `{GFilePaths GFile}.

Lemma string_eqb_eq_iff (a b : string) : String.eqb a b = true <-> a = b.
Proof. destruct (String.eqb_spec a b); split; congruence. Qed.

Lemma g_str_has_suffix_iff (str : option string) (suffix : string) :
  g_str_has_suffix str suffix = true <->
  exists stem : string, str = Some (stem +:+ suffix).
Proof.
  unfold g_str_has_suffix, strlen, strcmp_is_0.
  destruct str as [name |]; [| split; [discriminate | by intros [? ?]]].
  rewrite g_strdup_drop.
  destruct (Nat.ltb_spec (String.length name) (String.length suffix)) as [Hlt | Hge].
  - split; [discriminate |]. intros [stem [= ->]].
    rewrite string_length_app in Hlt. lia.
  - rewrite string_eqb_eq_iff. split.
    + intros Hdrop.
      exists (string_take (String.length name - String.length suffix) name).
      f_equal.
      rewrite <- (string_take_drop (String.length name - String.length suffix) name) at 1.
      by rewrite Hdrop.
    + intros [stem [= ->]]. rewrite string_length_app.
      replace (String.length stem + String.length suffix - String.length suffix)
        with (String.length stem) by lia.
      apply string_drop_app.
Qed.

(** X17: a file is a desktop file exactly when its base name ends with
    [.desktop] and the type query, which does not follow symbolic links,
    finds a regular file; the library is not asked about a file with
    another name, and never more than once. *)
Theorem thunar_g_file_is_desktop_file_iff (file : GFile)
    (trace : list (event GFile)) (is_desktop_file : bool) :
  exec (thunar_g_file_is_desktop_file file) trace is_desktop_file ->
  let query :=
    g_file_query_info file G_FILE_ATTRIBUTE_STANDARD_TYPE
      G_FILE_QUERY_INFO_NOFOLLOW_SYMLINKS None in
  (is_desktop_file = true <->
   exists (stem : string) (info : GFileInfo),
     g_file_get_basename file = Some (stem +:+ ".desktop")
     /\ trace = [Event query (G_OK info)]
     /\ g_file_info_get_file_type info = G_FILE_TYPE_REGULAR)
  /\ ((forall stem : string, g_file_get_basename file <> Some (stem +:+ ".desktop")) ->
      trace = [])
  /\ (trace = [] \/ exists found : gresult GFileInfo, trace = [Event query found]).
Proof.
  intros Hexec query. unfold thunar_g_file_is_desktop_file in Hexec.
  destruct (g_str_has_suffix (g_file_get_basename file) ".desktop") eqn:Hsuffix.
  - apply g_str_has_suffix_iff in Hsuffix as [stem Hstem].
    exec_next Hexec. fold query in r, Hexec |- *.
    destruct r as [info | e]; exec_simpl Hexec.
    + destruct (GFileType_eqb (g_file_info_get_file_type info) G_FILE_TYPE_REGULAR)
        eqn:Htype; exec_next Hexec; subst is_desktop_file.
      * split; [| split].
        -- split; [| done]. intros _. exists stem, info.
           split; [done |]. split; [done |].
           by destruct (g_file_info_get_file_type info).
        -- intros Hname. by destruct (Hname stem).
        -- right. by exists (G_OK info).
      * split; [| split].
        -- split; [done |]. intros (? & info' & _ & Htrace & Hregular).
           apply (f_equal (fun t => t !! 0 ≫= event_file_type)) in Htrace.
           simpl in Htrace. injection Htrace as Hinfo.
           by rewrite Hinfo, Hregular in Htype.
        -- intros Hname. by destruct (Hname stem).
        -- right. by exists (G_OK info).
    + exec_next Hexec. subst is_desktop_file. split; [| split].
      * split; [done |]. intros (? & info' & _ & Htrace & _).
        apply (f_equal (fun t => t !! 0 ≫= event_file_type)) in Htrace.
        discriminate Htrace.
      * intros Hname. by destruct (Hname stem).
      * right. by exists (G_FAILED e).
  - exec_next Hexec. subst is_desktop_file. split; [| split].
    + split; [done |]. by intros (? & ? & _ & ? & _).
    + done.
    + by left.
Qed.

End DesktopFiles.

(** ** Executions of the programs over other calls *)

Section ProgramExecutions.
Context {Call : Type} {Reply : Call -> Type}.

Lemma performs_Return_iff {A : Type} (a a' : A) (steps : list (step Call Reply)) :
  performs (Return a) steps a' <-> steps = [] /\ a' = a.
Proof.
  split.
  - intros Hp. inversion Hp. by subst.
  - intros [-> ->]. constructor.
Qed.

Lemma performs_inv {A : Type} (m : program Call Reply A) (steps : list (step Call Reply))
    (a : A) :
  performs m steps a ->
  match m with
  | Return a' => steps = [] /\ a = a'
  | Perform c k => exists (r : Reply c) (rest : list (step Call Reply)),
      steps = Step c r :: rest /\ performs (k r) rest a
  end.
Proof. destruct 1; eauto. Qed.

Lemma performs_Perform_iff {A : Type} (c : Call) (k : Reply c -> program Call Reply A)
    (steps : list (step Call Reply)) (a : A) :
  performs (Perform c k) steps a <->
  exists (r : Reply c) (rest : list (step Call Reply)),
    steps = Step c r :: rest /\ performs (k r) rest a.
Proof.
  split.
  - apply (performs_inv (Perform c k)).
  - intros (r & rest & -> & Hp). by constructor.
Qed.

Lemma performs_bind {A B : Type} (m : program Call Reply A) (f : A -> program Call Reply B)
    (steps : list (step Call Reply)) (b : B) :
  performs (program_bind f m) steps b <->
  exists (a : A) (first rest : list (step Call Reply)),
    steps = first ++ rest /\ performs m first a /\ performs (f a) rest b.
Proof.
  revert steps. induction m as [a | c k IH]; intros steps; simpl.
  - split.
    + intros Hp. exists a, [], steps. repeat split; [constructor | done].
    + intros (a' & first & rest & -> & Hm & Hf).
      apply performs_Return_iff in Hm as [-> ->]. done.
  - rewrite performs_Perform_iff. split.
    + intros (r & rest & -> & Hp). apply IH in Hp as (a & first & rest' & -> & Hm & Hf).
      exists a, (Step c r :: first), rest'. repeat split; [by constructor | done].
    + intros (a & first & rest & -> & Hm & Hf).
      apply performs_Perform_iff in Hm as (r & first' & -> & Hm).
      exists r, (first' ++ rest). split; [done |]. apply IH. by exists a, first', rest.
Qed.

Lemma run_program_performs {World A : Type}
    (lib : forall c : Call, World -> Reply c * World) (m : program Call Reply A) (w : World) :
  performs m (run_program lib m w).1.1 (run_program lib m w).1.2.
Proof.
  revert w. induction m as [a | c k IH]; intros w; simpl; [constructor |].
  destruct (lib c w) as [r w1]. specialize (IH r w1).
  destruct (run_program lib (k r) w1) as [[steps a] w2]. by constructor.
Qed.

End ProgramExecutions.

Ltac performs_simpl H :=
  unfold mret, mbind, program_ret, program_mbind, perform in H;
  cbn [program_bind negb] in H.

Ltac performs_next H :=
  performs_simpl H;
  lazymatch type of H with
  | performs (Return _) _ _ => apply performs_Return_iff in H as [-> H]
  | performs (Perform _ _) _ _ =>
      let r := fresh "r" in
      let rest := fresh "rest" in
      apply performs_Perform_iff in H as (r & rest & -> & H)
  end.

Section LocalDevices.
Context {GFile : Type} `{GFileIface GFile} `{GFilePaths GFile}.
Context {GMount : Type} `{GMountIface GMount}.

Lemma existing_target_from_chain (file : GFile) (chain : list GFile) :
  parent_chain file chain ->
  forall (fuel : nat) (steps : list (step (Mounts.Call GFile) (Mounts.Reply GMount)))
         (target : option (option GFile)),
    length chain <= fuel ->
    performs (existing_target_from fuel (Some file)) steps target ->
    (exists (before after : list GFile) (target_file : GFile),
       chain = before ++ target_file :: after
       /\ steps = found_nothing before
                  ++ [Step (Mounts.g_file_query_exists target_file None) true]
       /\ target = Some (Some target_file))
    \/ (steps = found_nothing chain /\ target = Some None).
Proof.
  induction 1 as [file Hroot | file parent chain Hparent Hchain IH];
    intros fuel steps target Hfuel Hp;
    (destruct fuel as [| fuel]; [simpl in Hfuel; lia |]);
    simpl in Hp; performs_next Hp; (destruct r; performs_simpl Hp).
  - performs_next Hp. subst target. left. by exists [], [], file.
  - rewrite Hroot in Hp. destruct fuel; simpl in Hp; performs_next Hp; subst target;
      by right.
  - performs_next Hp. subst target. left. by exists [], chain, file.
  - rewrite Hparent in Hp.
    destruct (IH fuel rest target ltac:(simpl in Hfuel; lia) Hp)
      as [(before & after & target_file & -> & -> & ->) | [-> ->]].
    + left. by exists (file :: before), after, target_file.
    + by right.
Qed.

(** X18: a file whose scheme is not [file] is not on a local device, and
    nothing is asked about it.  Otherwise the handles from the file up to
    the root are asked, in this order, whether they exist, up to the first
    that does; that one alone is asked for its mount, and the file is on a
    local device when there is no mount or the mount cannot be unmounted.
    When none of the handles exists the answer is FALSE. *)
Theorem thunar_g_file_is_on_local_device_walk (file : GFile) (chain : list GFile)
    (fuel : nat) (steps : list (step (Mounts.Call GFile) (Mounts.Reply GMount)))
    (is_local : option bool) :
  parent_chain file chain ->
  length chain <= fuel ->
  performs (thunar_g_file_is_on_local_device fuel file) steps is_local ->
  if g_file_has_uri_scheme file "file"
  then
    (exists (before after : list GFile) (target_file : GFile) (file_mount : option GMount),
       chain = before ++ target_file :: after
       /\ steps = found_nothing before
                  ++ [Step (Mounts.g_file_query_exists target_file None) true;
                      Step (Mounts.g_file_find_enclosing_mount target_file None) file_mount]
       /\ is_local = Some match file_mount with
                          | None => true
                          | Some file_mount => negb (g_mount_can_unmount file_mount)
                          end)
    \/ (steps = found_nothing chain /\ is_local = Some false)
  else steps = [] /\ is_local = Some false.
Proof.
  intros Hchain Hfuel Hp. unfold thunar_g_file_is_on_local_device in Hp.
  destruct (g_file_has_uri_scheme file "file"); simpl in Hp.
  2:{ by performs_next Hp. }
  unfold mbind, program_mbind in Hp.
  apply performs_bind in Hp as (target & first & rest & -> & Hwalk & Hp).
  destruct (existing_target_from_chain file chain Hchain fuel first target Hfuel Hwalk)
    as [(before & after & target_file & -> & -> & ->) | [-> ->]].
  - left. performs_next Hp. rename r into file_mount.
    exists before, after, target_file, file_mount. split; [done |].
    destruct file_mount as [file_mount |]; performs_next Hp; subst is_local;
      (split; [by rewrite <- app_assoc | done]).
  - right. performs_next Hp. subst is_local. by rewrite app_nil_r.
Qed.

Lemma metadata_is_supported_from_iff (infos : list string) :
  metadata_is_supported_from infos = true <-> "metadata" ∈ infos.
Proof.
  induction infos as [| name rest IH]; simpl.
  - split; [discriminate | by intros ?%elem_of_nil].
  - destruct (String.eqb_spec name "metadata") as [-> | Hne].
    + split; [intros _; left | done].
    + rewrite IH. split; [by right |].
      intros Hin. apply elem_of_cons in Hin as [Heq | Hin]; [congruence | done].
Qed.

(** X19: metadata is reported as supported exactly when ["metadata"] is one
    of the namespaces that can be written on the root [file:///], which is
    the one thing asked. *)
Theorem thunar_g_vfs_metadata_is_supported_iff
    (steps : list (step (Mounts.Call GFile) (Mounts.Reply GMount)))
    (metadata_is_supported : bool) :
  performs thunar_g_vfs_metadata_is_supported steps metadata_is_supported ->
  exists infos : list string,
    steps = [Step (Mounts.g_file_query_writable_namespaces
                     (g_file_new_for_uri "file:///") None) infos]
    /\ (metadata_is_supported = true <-> "metadata" ∈ infos).
Proof.
  intros Hp. unfold thunar_g_vfs_metadata_is_supported in Hp.
  performs_next Hp. performs_next Hp. subst metadata_is_supported.
  exists r. split; [done |]. apply metadata_is_supported_from_iff.
Qed.

End LocalDevices.

(** ** Launches *)

Section Launching.
Context {GFile : Type} `{GFileIface GFile}.
Context {GAppInfo : Type} `{GAppInfoIface GAppInfo}.
Context {GAppLaunchContext ThunarFile : Type}.

Local Abbreviation launch_step := (step (Launch.Call GFile GAppInfo GAppLaunchContext ThunarFile) Launch.Reply).

Lemma update_steps_nil (info : GAppInfo) (skip_app_info_update : bool) :
  update_steps info skip_app_info_update ([] : list launch_step).
Proof.
  split; [constructor |]. split; [constructor |].
  intros i s Hi. by rewrite lookup_nil in Hi.
Qed.

Lemma update_steps_quiet (info : GAppInfo) (skip_app_info_update : bool)
    (steps : list launch_step) :
  Forall (fun s => Launch.is_change_working_directory (step_call s) = false
                   /\ Launch.is_launch (step_call s) = false
                   /\ Launch.is_last_used_call (step_call s) = false) steps ->
  update_steps info skip_app_info_update steps.
Proof.
  intros Hquiet. split; [| split].
  - eapply Forall_impl; [exact Hquiet |]. by intros s (? & ? & _).
  - intros _. eapply Forall_impl; [exact Hquiet |]. by intros s (_ & _ & ?).
  - intros i s Hi Hchanged. rewrite Forall_lookup in Hquiet.
    destruct (Hquiet i s Hi) as (_ & _ & Hlast).
    destruct s as [[] r]; simpl in *; congruence.
Qed.

Lemma update_steps_app (info : GAppInfo) (skip_app_info_update : bool)
    (first rest : list launch_step) :
  update_steps info skip_app_info_update first ->
  update_steps info skip_app_info_update rest ->
  (forall s, rest !! 0 = Some s -> Launch.changed_file (step_call s) = None) ->
  update_steps info skip_app_info_update (first ++ rest).
Proof.
  intros (Hf1 & Hf2 & Hf3) (Hr1 & Hr2 & Hr3) Hhead. split; [| split].
  - by apply Forall_app.
  - intros Hskip. apply Forall_app. by split; [apply Hf2 | apply Hr2].
  - intros i s Hi Hchanged.
    apply lookup_app_Some in Hi as [Hi | [Hge Hi]].
    + destruct (Hf3 i s Hi Hchanged) as (j & s' & -> & Hj & Hset).
      exists j, s'. split; [done |]. split; [| done]. by apply lookup_app_l_Some.
    + destruct (Hr3 _ s Hi Hchanged) as (j & s' & Hij & Hj & Hset).
      exists (length first + j), s'. split; [lia |]. split; [| done].
      rewrite lookup_app_r by lia. by replace (length first + j - length first) with j by lia.
Qed.

Lemma update_last_used_steps (info : GAppInfo) (skip_app_info_update : bool) (data : GFile)
    (steps : list launch_step) (u : unit) :
  performs (update_last_used info skip_app_info_update data) steps u ->
  update_steps info skip_app_info_update steps
  /\ (forall s, steps !! 0 = Some s -> Launch.changed_file (step_call s) = None).
Proof.
  intros Hp. unfold update_last_used in Hp.
  performs_next Hp. rename r into file.
  split; [| by intros s [= <-]].
  destruct file as [file |]; performs_simpl Hp.
  2:{ performs_next Hp. apply update_steps_quiet. by repeat constructor. }
  performs_next Hp. rename r into content_type.
  performs_next Hp. rename r into default_app_info.
  set (update_app_info :=
         match default_app_info with
         | Some default_app_info =>
             if g_app_info_equal info default_app_info
             then false else negb skip_app_info_update
         | None => negb skip_app_info_update
         end) in Hp.
  assert (Hskip : skip_app_info_update = true -> update_app_info = false).
  { intros ->. subst update_app_info. destruct default_app_info as [d |]; [| done].
    by destruct (g_app_info_equal info d). }
  destruct update_app_info; performs_simpl Hp.
  2:{ performs_next Hp. apply update_steps_quiet. by repeat constructor. }
  assert (Hno_skip : skip_app_info_update = false).
  { destruct skip_app_info_update; [by specialize (Hskip eq_refl) | done]. }
  performs_next Hp. rename r into recommended_app_infos.
  assert (Hend : forall (rest : list launch_step) (update : bool),
            performs
              (if update
               then set ← perform (Launch.g_app_info_set_as_last_used_for_type info content_type);
                    if set : bool
                    then perform (Launch.thunar_file_changed file)
                    else mret tt
               else mret tt) rest u ->
            update_steps info skip_app_info_update
              (Step (Launch.thunar_file_get data) (Some file)
               :: Step (Launch.thunar_file_get_content_type file) content_type
               :: Step (Launch.thunar_file_get_default_handler file) default_app_info
               :: Step (Launch.g_app_info_get_recommended_for_type content_type)
                    recommended_app_infos
               :: rest)).
  { clear Hp. intros rest update Hp. destruct update; performs_simpl Hp.
    - performs_next Hp. rename r into set. destruct set; performs_simpl Hp.
      + performs_next Hp. performs_next Hp.
        split; [by repeat constructor |]. split; [congruence |].
        intros i s Hi Hchanged.
        do 6 (destruct i as [| i]; [injection Hi as <-; simpl in Hchanged; try congruence |]).
        * exists 4, (Step (Launch.g_app_info_set_as_last_used_for_type info content_type) true).
          by repeat split.
        * destruct i; discriminate Hi.
      + performs_next Hp.
        split; [by repeat constructor |]. split; [congruence |].
        intros i s Hi Hchanged.
        do 5 (destruct i as [| i]; [injection Hi as <-; simpl in Hchanged; congruence |]).
        destruct i; discriminate Hi.
    - performs_next Hp.
      split; [by repeat constructor |]. split; [congruence |].
      intros i s Hi Hchanged.
      do 4 (destruct i as [| i]; [injection Hi as <-; simpl in Hchanged; congruence |]).
      destruct i; discriminate Hi. }
  destruct recommended_app_infos as [| first others]; performs_simpl Hp.
  - exact (Hend _ true Hp).
  - destruct (g_app_info_equal info first); performs_simpl Hp.
    + exact (Hend _ false Hp).
    + exact (Hend _ true Hp).
Qed.

Lemma update_last_used_from_steps (info : GAppInfo) (skip_app_info_update : bool)
    (lp : list GFile) (steps : list launch_step) (u : unit) :
  performs (update_last_used_from info skip_app_info_update lp) steps u ->
  update_steps info skip_app_info_update steps
  /\ (forall s, steps !! 0 = Some s -> Launch.changed_file (step_call s) = None).
Proof.
  revert steps. induction lp as [| data next IH]; intros steps Hp.
  - simpl in Hp. performs_next Hp. split; [apply update_steps_nil | done].
  - cbn [update_last_used_from] in Hp. unfold mbind at 1, program_mbind at 1 in Hp.
    apply performs_bind in Hp as ([] & first & rest & -> & Hfirst & Hrest).
    apply update_last_used_steps in Hfirst as [Hfirst Hhead].
    apply IH in Hrest as [Hrest Hhead'].
    split; [by apply update_steps_app |].
    intros s Hs. destruct first as [| s0 first]; [by apply Hhead' | by apply Hhead].
Qed.

(** X20: the application is launched exactly once, and the result and the
    error are those of the launch.  When the working directory has a local
    path, the first call changes to it; when that change gave back the
    directory that was left, the last call changes back to it, whether or
    not the launch succeeded; no other call changes the directory.  Between
    the launch and the way back: nothing after a failed launch; nothing
    about the last used application when [info] carries the flag that skips
    the update; and [changed] is signalled on a file only straight after
    [info] was made the last used application for its type. *)
Theorem thunar_g_app_info_launch_steps (info : GAppInfo) (working_directory : option GFile)
    (path_list : list GFile) (context : GAppLaunchContext)
    (error : bool) (slot : option GError)
    (steps : list launch_step) (result : bool) (slot' : option GError) :
  path_list <> [] ->
  error_is_unset error slot = true ->
  performs (thunar_g_app_info_launch info working_directory path_list context error slot)
    steps (result, slot') ->
  exists (there updates back : list launch_step) (launched : gresult unit),
    steps = there ++ Step (Launch.g_app_info_launch info path_list context) launched
                     :: updates ++ back
    /\ result = gresult_ok launched
    /\ slot' = g_propagate error slot launched
    /\ match working_directory ≫= g_file_get_path with
       | Some new_path =>
           exists old_path : option string,
             there = [Step (Launch.thunar_util_change_working_directory new_path) old_path]
             /\ match old_path with
                | Some old_path =>
                    exists left : option string,
                      back = [Step (Launch.thunar_util_change_working_directory old_path) left]
                | None => back = []
                end
       | None => there = [] /\ back = []
       end
    /\ (result = false -> updates = [])
    /\ update_steps info
         (match g_object_get_data info "skip-app-info-update" with
          | Some _ => true
          | None => false
          end) updates.
Proof.
  intros Hlist Hunset Hp. unfold thunar_g_app_info_launch in Hp.
  destruct path_list as [| data next]; [done |].
  rewrite Hunset in Hp. cbn [negb] in Hp.
  set (path_list := data :: next) in *.
  set (skip := match g_object_get_data info "skip-app-info-update" with
               | Some _ => true
               | None => false
               end) in *.
  unfold mbind, program_mbind in Hp.
  apply performs_bind in Hp as (old_path & there & rest & -> & Hthere & Hp).
  performs_next Hp. rename r into launched.
  apply performs_bind in Hp as ([] & updates & back & -> & Hupdates & Hback).
  exists there, updates, back, launched.
  split; [done |].
  assert (Hresult : result = gresult_ok launched /\ slot' = g_propagate error slot launched
                    /\ match old_path with
                       | Some old_path =>
                           exists left : option string,
                             back = [Step (Launch.thunar_util_change_working_directory
                                             old_path) left]
                       | None => back = []
                       end).
  { destruct old_path as [old_path |]; performs_simpl Hback.
    - performs_next Hback. performs_next Hback. injection Hback as -> ->.
      split; [done |]. split; [done |]. by exists r.
    - performs_next Hback. by injection Hback as -> ->. }
  destruct Hresult as (-> & -> & Hback').
  split; [done |]. split; [done |].
  split; [| split].
  - destruct working_directory as [working_directory |]; simpl.
    + unfold g_file_get_path in *. destruct (g_file_peek_path working_directory) as [new_path |].
      * performs_next Hthere. performs_next Hthere. subst old_path. by exists r.
      * performs_next Hthere. by subst old_path.
    + performs_next Hthere. by subst old_path.
  - intros Hfailed. rewrite Hfailed in Hupdates. by performs_next Hupdates.
  - destruct (gresult_ok launched).
    + by apply update_last_used_from_steps in Hupdates as [Hupdates _].
    + performs_next Hupdates. apply update_steps_nil.
Qed.

End Launching.

Section LaunchedUpdates.
Context {GFile : Type} `{GFileIface GFile}.
Context {GAppInfo : Type} `{GAppInfoIface GAppInfo}.
Context {GAppLaunchContext ThunarFile : Type}.

Local Abbreviation launch_step :=
  (step (Launch.Call GFile GAppInfo GAppLaunchContext ThunarFile) Launch.Reply).

Lemma set_after_checks_quiet (info : GAppInfo) (steps : list launch_step) :
  Forall (fun s => is_set_as_last_used (step_call s) = false) steps ->
  set_after_checks info steps.
Proof.
  intros Hquiet i s Hi Hset. rewrite Forall_lookup in Hquiet.
  specialize (Hquiet i s Hi). congruence.
Qed.

Lemma set_after_checks_app (info : GAppInfo) (first rest : list launch_step) :
  set_after_checks info first ->
  set_after_checks info rest ->
  set_after_checks info (first ++ rest).
Proof.
  intros Hfirst Hrest i s Hi Hset.
  apply lookup_app_Some in Hi as [Hi | [Hge Hi]].
  - destruct (Hfirst i s Hi Hset)
      as (j & data & file & ct & d & r & -> & H0' & H1' & H2' & H3' & Hcall & Hd & Hr).
    exists j, data, file, ct, d, r.
    split; [done |].
    split; [by apply lookup_app_l_Some |]. split; [by apply lookup_app_l_Some |].
    split; [by apply lookup_app_l_Some |]. split; [by apply lookup_app_l_Some |]. done.
  - destruct (Hrest _ s Hi Hset)
      as (j & data & file & ct & d & r & Hij & H0' & H1' & H2' & H3' & Hcall & Hd & Hr).
    exists (length first + j), data, file, ct, d, r.
    split; [lia |].
    assert (forall (k : nat) (x : launch_step),
              rest !! (j + k) = Some x -> (first ++ rest) !! (length first + j + k) = Some x)
      as Hshift.
    { intros k x Hx. rewrite lookup_app_r by lia.
      by replace (length first + j + k - length first) with (j + k) by lia. }
    split.
    { specialize (Hshift 0). rewrite !Nat.add_0_r in Hshift. by apply Hshift. }
    split; [by apply Hshift |]. split; [by apply Hshift |]. split; [by apply Hshift |].
    done.
Qed.

Lemma update_last_used_checks (info : GAppInfo) (skip_app_info_update : bool) (data : GFile)
    (steps : list launch_step) (u : unit) :
  performs (update_last_used info skip_app_info_update data) steps u ->
  set_after_checks info steps.
Proof.
  intros Hp. unfold update_last_used in Hp.
  performs_next Hp. rename r into file.
  destruct file as [file |]; performs_simpl Hp.
  2:{ performs_next Hp. apply set_after_checks_quiet. by repeat constructor. }
  performs_next Hp. rename r into content_type.
  performs_next Hp. rename r into default_app_info.
  set (update_app_info :=
         match default_app_info with
         | Some default_app_info =>
             if g_app_info_equal info default_app_info
             then false else negb skip_app_info_update
         | None => negb skip_app_info_update
         end) in Hp.
  assert (Hdefault : update_app_info = true ->
            forall default : GAppInfo,
              default_app_info = Some default -> g_app_info_equal info default = false).
  { subst update_app_info. intros Hupdate default ->.
    by destruct (g_app_info_equal info default). }
  destruct update_app_info; performs_simpl Hp.
  2:{ performs_next Hp. apply set_after_checks_quiet. by repeat constructor. }
  specialize (Hdefault eq_refl).
  performs_next Hp. rename r into recommended_app_infos.
  assert (Hquiet : forall rest : list launch_step,
            performs (mret tt) rest u ->
            set_after_checks info
              (Step (Launch.thunar_file_get data) (Some file)
               :: Step (Launch.thunar_file_get_content_type file) content_type
               :: Step (Launch.thunar_file_get_default_handler file) default_app_info
               :: Step (Launch.g_app_info_get_recommended_for_type content_type)
                    recommended_app_infos
               :: rest)).
  { intros rest Hrest. performs_next Hrest.
    apply set_after_checks_quiet. by repeat constructor. }
  assert (Hset : forall rest : list launch_step,
            (forall (first : GAppInfo) (others : list GAppInfo),
               recommended_app_infos = first :: others ->
               g_app_info_equal info first = false) ->
            performs
              (set ← perform (Launch.g_app_info_set_as_last_used_for_type info content_type);
               if set : bool
               then perform (Launch.thunar_file_changed file)
               else mret tt) rest u ->
            set_after_checks info
              (Step (Launch.thunar_file_get data) (Some file)
               :: Step (Launch.thunar_file_get_content_type file) content_type
               :: Step (Launch.thunar_file_get_default_handler file) default_app_info
               :: Step (Launch.g_app_info_get_recommended_for_type content_type)
                    recommended_app_infos
               :: rest)).
  { clear Hp. intros rest Hfirst Hp. performs_next Hp. rename r into set.
    lazymatch type of Hp with
    | performs _ ?tail _ =>
        assert (Hrest : Forall (fun s => is_set_as_last_used (step_call s) = false) tail)
    end.
    { destruct set; performs_simpl Hp.
      - performs_next Hp. performs_next Hp. by repeat constructor.
      - performs_next Hp. constructor. }
    intros i s Hi Hcall.
    do 4 (destruct i as [| i]; [injection Hi as <-; discriminate Hcall |]).
    destruct i as [| i].
    - injection Hi as <-.
      exists 0, data, file, content_type, default_app_info, recommended_app_infos.
      by repeat split.
    - simpl in Hi. rewrite Forall_lookup in Hrest.
      specialize (Hrest i s Hi). congruence. }
  destruct recommended_app_infos as [| first others]; performs_simpl Hp.
  - apply Hset; [done | exact Hp].
  - destruct (g_app_info_equal info first) eqn:Hequal; performs_simpl Hp.
    + exact (Hquiet _ Hp).
    + apply Hset; [| exact Hp]. by intros ? ? [= <- <-].
Qed.

Lemma update_last_used_from_checks (info : GAppInfo) (skip_app_info_update : bool)
    (lp : list GFile) (steps : list launch_step) (u : unit) :
  performs (update_last_used_from info skip_app_info_update lp) steps u ->
  set_after_checks info steps.
Proof.
  revert steps. induction lp as [| data next IH]; intros steps Hp.
  - simpl in Hp. performs_next Hp. apply set_after_checks_quiet. constructor.
  - cbn [update_last_used_from] in Hp. unfold mbind at 1, program_mbind at 1 in Hp.
    apply performs_bind in Hp as ([] & first & rest & -> & Hfirst & Hrest).
    apply set_after_checks_app; [by eapply update_last_used_checks | by apply IH].
Qed.

(** X21: in an execution of [thunar_g_app_info_launch], the application
    is made the last used one for a content type only straight after the
    handle of a file, its content type, its default handler and the
    applications recommended for the type were read, in this order, and
    only when the application is neither that default handler nor the
    first of the recommended applications. *)
Theorem thunar_g_app_info_launch_last_used (info : GAppInfo)
    (working_directory : option GFile) (path_list : list GFile)
    (context : GAppLaunchContext) (error : bool) (slot : option GError)
    (steps : list launch_step) (result : bool) (slot' : option GError) :
  performs (thunar_g_app_info_launch info working_directory path_list context error slot)
    steps (result, slot') ->
  set_after_checks info steps.
Proof.
  intros Hp. unfold thunar_g_app_info_launch in Hp.
  destruct path_list as [| data next].
  { performs_next Hp. apply set_after_checks_quiet. constructor. }
  destruct (error_is_unset error slot); cbn [negb] in Hp.
  2:{ performs_next Hp. apply set_after_checks_quiet. constructor. }
  unfold mbind, program_mbind in Hp.
  apply performs_bind in Hp as (old_path & there & rest & -> & Hthere & Hp).
  performs_next Hp. rename r into launched.
  apply performs_bind in Hp as ([] & updates & back & -> & Hupdates & Hback).
  apply set_after_checks_app; [| apply (set_after_checks_app info [_])];
    [| | apply set_after_checks_app].
  - apply set_after_checks_quiet.
    destruct working_directory as [working_directory |].
    + destruct (g_file_get_path working_directory) as [new_path |].
      * performs_next Hthere. performs_next Hthere. by repeat constructor.
      * performs_next Hthere. constructor.
    + performs_next Hthere. constructor.
  - apply set_after_checks_quiet. by repeat constructor.
  - destruct (gresult_ok launched).
    + by eapply update_last_used_from_checks.
    + performs_next Hupdates. apply set_after_checks_quiet. constructor.
  - apply set_after_checks_quiet. destruct old_path as [old_path |]; performs_simpl Hback.
    + performs_next Hback. performs_next Hback. by repeat constructor.
    + performs_next Hback. constructor.
Qed.

End LaunchedUpdates.

(** * The properties on concrete handles *)

Section Examples.
Import Toy.

(** C1, as stated, fails: asked for the total size only ([fs_free_return]
    is NULL), on a file system whose info has the size but not the free
    space, [thunar_g_file_get_free_space] reports success. *)
Lemma thunar_g_file_get_free_space_size_only :
  g_file_info_has_attribute size_only_info G_FILE_ATTRIBUTE_FILESYSTEM_FREE = false
  /\ exec (thunar_g_file_get_free_space notes false true)
       [Event (g_file_query_filesystem_info notes "filesystem::*" None) (G_OK size_only_info)]
       (true, None, Some 1000%Z).
Proof.
  split; [by vm_compute |].
  exact (run_exec lib (thunar_g_file_get_free_space notes false true) [notes]).
Qed.

(** On the same file system, with both return locations, the answer of the
    test for the free space is overwritten by the answer of the test for the
    size: success is reported, and 0 is written as the free space. *)
Lemma thunar_g_file_get_free_space_without_free_attribute :
  exec (thunar_g_file_get_free_space notes true true)
    [Event (g_file_query_filesystem_info notes "filesystem::*" None) (G_OK size_only_info)]
    (true, Some 0%Z, Some 1000%Z).
Proof. exact (run_exec lib (thunar_g_file_get_free_space notes true true) [notes]). Qed.

Lemma thunar_g_file_get_free_space_success_only_if_witness :
  exists info : GFileInfo,
    (run lib (thunar_g_file_get_free_space notes false true) [notes]).1.1
    = [Event (g_file_query_filesystem_info notes "filesystem::*" None) (G_OK info)]
    /\ g_file_info_has_attribute info G_FILE_ATTRIBUTE_FILESYSTEM_SIZE = true.
Proof.
  destruct (thunar_g_file_get_free_space_success_only_if notes false true
              (run lib (thunar_g_file_get_free_space notes false true) [notes]).1.1
              true None (Some 1000%Z)
              (run_exec lib (thunar_g_file_get_free_space notes false true) [notes])
              eq_refl) as (info & Htrace & Hsize & _).
  exists info. split; [exact Htrace | exact (Hsize eq_refl)].
Defined.

(** The trash root, as [thunar_g_file_new_for_trash] makes it: its base
    name is [/], [thunar_g_file_is_trash] accepts it, and its display name is
    the label of the file system root. *)
Lemma thunar_g_file_get_display_name_trash_root_witness :
  g_file_get_basename (thunar_g_file_new_for_trash (GFile := file)) = Some "/"
  /\ thunar_g_file_is_trash (thunar_g_file_new_for_trash (GFile := file)) = true
  /\ thunar_g_file_get_display_name (thunar_g_file_new_for_trash (GFile := file))
     = "File System"
  /\ "File System" <> "Trash".
Proof.
  split; [reflexivity |]. split; [reflexivity |]. split; [| discriminate].
  exact (thunar_g_file_get_display_name_trash_root
           (thunar_g_file_new_for_trash (GFile := file)) eq_refl eq_refl).
Defined.

Lemma notes_parent_chain :
  parent_chain notes
    [notes; new_for_path "/home/user"; new_for_path "/home"; new_for_path "/"].
Proof. repeat first [by apply parent_chain_root | eapply parent_chain_step; [by vm_compute |]]. Qed.

Lemma thunar_g_file_is_descendant_iff_witness :
  thunar_g_file_is_descendant 2 notes (new_for_path "/home") = Some true.
Proof.
  destruct (thunar_g_file_is_descendant_iff notes (new_for_path "/home") _ notes_parent_chain)
    as (_ & Hfirst & _).
  apply (Hfirst [notes; new_for_path "/home/user"] (new_for_path "/home") [new_for_path "/"]);
    vm_compute; reflexivity.
Defined.

#[local] Instance same_file_equivalence : Equivalence (same_file (GFile := file)).
Proof.
  unfold same_file. split.
  - intros a. by apply bool_decide_eq_true.
  - intros a b Hab. apply bool_decide_eq_true in Hab. by apply bool_decide_eq_true.
  - intros a b c Hab Hbc. apply bool_decide_eq_true in Hab, Hbc.
    apply bool_decide_eq_true. congruence.
Qed.

Lemma thunar_g_file_list_get_parents_one_entry_per_parent_witness :
  thunar_g_file_list_get_parents
    [G_FILE notes; G_FILE backup; NOT_A_FILE; G_FILE (new_for_path "/home/user/todo");
     G_FILE (new_for_path "/")]
  = thunar_g_file_list_get_parents
      [G_FILE notes; G_FILE backup; G_FILE (new_for_path "/home/user/todo")].
Proof.
  apply (thunar_g_file_list_get_parents_one_entry_per_parent
           [G_FILE notes; G_FILE backup; NOT_A_FILE; G_FILE (new_for_path "/home/user/todo");
            G_FILE (new_for_path "/")] same_file_equivalence).
Defined.

(** C4, as stated, fails: the login before the host [localhost], which has
    no [.], is kept when the path has no [.] either, and it is skipped when
    the path has one. *)
Lemma thunar_g_file_get_display_name_remote_dotless_host :
  let mount := new_for_uri "sftp://user@localhost/" in
  let mount_notes := new_for_uri "sftp://user@localhost/notes.txt" in
  (g_file_is_native mount = false
   /\ g_str_has_prefix (g_file_get_parse_name mount) "sftp" = true
   /\ thunar_g_file_get_display_name_remote mount = "/ on user@localhost")
  /\ (g_file_is_native mount_notes = false
      /\ g_str_has_prefix (g_file_get_parse_name mount_notes) "sftp" = true
      /\ thunar_g_file_get_display_name_remote mount_notes = "/notes.txt on localhost").
Proof. by vm_compute. Qed.

Lemma thunar_g_file_get_display_name_remote_host_and_path_witness :
  thunar_g_file_get_display_name_remote share = "/some dir/x on host.example.org".
Proof.
  destruct (thunar_g_file_get_display_name_remote_host_and_path share "sftp")
    as [_ Hname]; [by vm_compute | by vm_compute | by vm_compute |].
  apply (Hname eq_refl "/some dir/x"). by vm_compute.
Defined.



(** C3, as stated, fails: the error that the refused copy delivers was
    reported by no call of the execution; [thunar_g_file_copy] made it. *)
Lemma thunar_g_file_copy_delivers_its_own_error :
  let trace := [type_query_of_notes; Event (g_file_query_exists backup None) true] in
  exec (copy_notes G_FILE_COPY_NONE) trace (false, Some (file_exists_error backup))
  /\ trace_errors trace = []
  /\ file_exists_error backup
     = g_error_new G_IO_ERROR G_IO_ERROR_EXISTS
         ("Error opening file " +:+ dquote +:+ "/media/usb/notes.txt" +:+ dquote
          +:+ ": File exists").
Proof.
  split; [exact (run_exec lib (copy_notes G_FILE_COPY_NONE) [notes; backup]) |].
  split; by vm_compute.
Qed.

Lemma delivered_errors_are_native_or_file_exists_witness :
  length (List.filter (fun ev => is_copy_call (event_call ev))
            (run lib (copy_notes G_FILE_COPY_NONE) [notes]).1.1) <= 1
  /\ NoDup (event_call <$> (run lib (thunar_g_file_set_executable_flags notes true None)
                              [notes]).1.1).
Proof.
  destruct (delivered_errors_are_native_or_file_exists (GFile := file) (GKeyFile := string))
    as (Hcopy & Hflags & _).
  split.
  - eapply (Hcopy notes backup G_FILE_COPY_NONE true request None (UserData 0) true _ true None).
    exact (run_exec lib (copy_notes G_FILE_COPY_NONE) [notes]).
  - eapply (Hflags notes true _ false None).
    exact (run_exec lib (thunar_g_file_set_executable_flags notes true None) [notes]).
Defined.

(** C5, as stated, fails: asked to overwrite [backup], the copy is given
    the cancellable [request], and so is the type query, but the existence
    checks, the deletion and the renaming are given none. *)
Lemma thunar_g_file_copy_calls_without_cancellable :
  let trace := (run lib (copy_notes G_FILE_COPY_OVERWRITE) [notes; backup]).1.1 in
  exec (copy_notes G_FILE_COPY_OVERWRITE) trace (true, None)
  /\ event_call <$> trace
     = [g_file_query_info notes "standard::type" 0%Z request;
        g_file_query_exists backup None;
        g_file_delete backup None;
        g_file_query_exists backup_partial None;
        g_file_copy notes backup_partial G_FILE_COPY_OVERWRITE request None (UserData 0);
        g_file_set_display_name backup_partial "notes.txt" None]
  /\ Exists (fun ev => call_cancellable (event_call ev) <> request) trace.
Proof.
  split; [exact (run_exec lib (copy_notes G_FILE_COPY_OVERWRITE) [notes; backup]) |].
  split; [by vm_compute |].
  apply Exists_cons_tl, Exists_cons_hd. by vm_compute.
Qed.

Lemma cancellable_forwarded_to_queries_and_copies_witness :
  Forall (fun ev => copy_cancellable_rule request (event_call ev))
    (run lib (copy_notes G_FILE_COPY_OVERWRITE) [notes; backup]).1.1.
Proof.
  destruct (cancellable_forwarded_to_queries_and_copies (GFile := file) (GKeyFile := string))
    as (_ & _ & _ & Hcopy).
  eapply (Hcopy notes backup G_FILE_COPY_OVERWRITE true request None (UserData 0) true None).
  exact (run_exec lib (copy_notes G_FILE_COPY_OVERWRITE) [notes; backup]).
Defined.

End Examples.

(** * More properties on concrete handles *)

Section MoreExamples.
Import Toy.

Lemma thunar_g_file_is_in_xdg_data_dir_iff_witness :
  thunar_g_file_is_in_xdg_data_dir (new_for_path "/usr/share-old/thunar.desktop") = true.
Proof.
  destruct (thunar_g_file_is_in_xdg_data_dir_iff
              (new_for_path "/usr/share-old/thunar.desktop")) as [_ Htext].
  apply (Htext ["/usr/local/share"; "/usr/share"] "/usr/share" "-old/thunar.desktop");
    [reflexivity | reflexivity | | reflexivity].
  right. left.
Defined.

Lemma thunar_g_file_list_to_stringv_contents_witness :
  Some <$> g_strv (thunar_g_file_list_to_stringv [notes; share])
  = [Some "file:///home/user/notes.txt";
     Some "sftp://user:pw@host.example.org/some%20dir/x"].
Proof.
  destruct (thunar_g_file_list_to_stringv_contents [notes; share]) as [Hall _].
  apply Hall. intros f Hin.
  apply elem_of_cons in Hin as [-> | Hin]; [by vm_compute |].
  apply list_elem_of_singleton in Hin as ->. by vm_compute.
Defined.

Lemma thunar_g_file_list_round_trip_witness :
  g_strv (thunar_g_file_list_to_stringv (thunar_g_file_list_new_from_string uri_list))
  = ["sftp://host/a"; "file:///home/user/notes.txt"].
Proof.
  destruct (thunar_g_file_list_round_trip uri_list) as [_ Hback].
  apply Hback. intros uri Hin.
  change (g_uri_list_extract_uris uri_list)
    with ["sftp://host/a"; "file:///home/user/notes.txt"] in Hin.
  apply elem_of_cons in Hin as [-> | Hin]; [by vm_compute |].
  apply list_elem_of_singleton in Hin as ->. by vm_compute.
Defined.

Lemma share_parent_chain :
  parent_chain share
    [share; new_for_uri "sftp://user:pw@host.example.org/some%20dir"; share_root].
Proof. repeat first [by apply parent_chain_root | eapply parent_chain_step; [by vm_compute |]]. Qed.

Lemma thunar_g_file_get_link_path_for_symlink_cases_witness :
  thunar_g_file_get_link_path_for_symlink 3 share share_root = Some (Some "/some%20dir/x").
Proof.
  destruct (thunar_g_file_get_link_path_for_symlink_cases share share_root _ 3
              share_parent_chain ltac:(simpl; lia)) as (root & Hlast & Hpath).
  injection Hlast as <-. exact Hpath.
Defined.

Lemma thunar_g_file_get_display_name_remote_shape_witness :
  thunar_g_file_get_display_name_remote share = "/some dir/x on host.example.org"
  /\ index_of "/" "host.example.org" = None
  /\ String.prefix "/" "/some%20dir/x" = true
  /\ g_file_get_parse_name share
     = "sftp://user:pw@" +:+ "host.example.org" +:+ "/some%20dir/x".
Proof.
  destruct (thunar_g_file_get_display_name_remote_shape share "sftp"
              ltac:(by vm_compute) ltac:(by vm_compute) ltac:(by vm_compute))
    as (Hname & Hhost & Hpath & _).
  split; [etrans; [exact Hname | by vm_compute] |].
  split; [exact Hhost |]. split; [exact Hpath |]. by vm_compute.
Defined.

(** Neither file exists: both checksums fail, and the files are reported
    equal. *)
Lemma thunar_g_file_compare_checksum_result_witness :
  exists r_a r_b : gresult string,
    (run lib (thunar_g_file_compare_checksum notes backup request true None) []).1.1
    = [Event (xfce_g_file_create_checksum notes request) r_a;
       Event (xfce_g_file_create_checksum backup request) r_b]
    /\ true = match r_a, r_b with
              | G_OK str_a, G_OK str_b => String.eqb str_a str_b
              | G_FAILED _, G_FAILED _ => true
              | _, _ => false
              end
    /\ Some ENOENT = match r_a, r_b with
                     | G_FAILED e, _ => Some e
                     | G_OK _, G_FAILED e => Some e
                     | G_OK _, G_OK _ => None
                     end.
Proof.
  exact (thunar_g_file_compare_checksum_result notes backup request true None _ true
           (Some ENOENT) eq_refl
           (run_exec lib (thunar_g_file_compare_checksum notes backup request true None) [])).
Defined.

(** The mode of [notes] is 0644: it is written back as 0755, and the
    result is TRUE because no place for an error was given. *)
Lemma thunar_g_file_set_executable_flags_result_witness :
  true = negb false
  /\ exists r : gresult GFileInfo,
       match r with
       | G_FAILED _ =>
           (run lib (thunar_g_file_set_executable_flags notes false None) [notes]).1.1
           = [Event (g_file_query_info notes "unix::mode" 1%Z None) r]
       | G_OK info =>
           if g_file_info_has_attribute info "unix::mode"
           then
             if (Z.land (g_file_info_get_attribute_uint32 info "unix::mode") 73 =? 73)%Z
             then (run lib (thunar_g_file_set_executable_flags notes false None) [notes]).1.1
                  = [Event (g_file_query_info notes "unix::mode" 1%Z None) r]
             else exists written : gresult unit,
                    (run lib (thunar_g_file_set_executable_flags notes false None) [notes]).1.1
                    = [Event (g_file_query_info notes "unix::mode" 1%Z None) r;
                       Event (g_file_set_attribute_uint32 notes "unix::mode"
                                (Z.lor (g_file_info_get_attribute_uint32 info "unix::mode") 73)
                                1%Z None) written]
           else (run lib (thunar_g_file_set_executable_flags notes false None) [notes]).1.1
                = [Event (g_file_query_info notes "unix::mode" 1%Z None) r;
                   Event (g_warning "No unix::mode attribute found") tt]
       end.
Proof.
  exact (thunar_g_file_set_executable_flags_result notes false None _ true None eq_refl
           (run_exec lib (thunar_g_file_set_executable_flags notes false None) [notes])).
Defined.

(** [own_partial] is its own partial file: without the overwrite flag, a
    copy to it that fails ends with its deletion. *)
Lemma thunar_g_file_copy_deletions_witness :
  g_file_get_child usb (String.substring 0 100 own_partial_name +:+ ".partial~") = own_partial
  /\ exists trace : list (event file),
       exec (thunar_g_file_copy notes own_partial G_FILE_COPY_NONE true request None
               (UserData 0) true None) trace (false, Some ENOENT)
       /\ Forall (fun ev => event_found ev = false) trace
       /\ last trace = Some (Event (g_file_delete own_partial None) (G_OK tt)).
Proof.
  split; [by vm_compute |].
  destruct (thunar_g_file_copy_deletions notes own_partial usb G_FILE_COPY_NONE true
              request None (UserData 0) true None
              (run lib (thunar_g_file_copy notes own_partial G_FILE_COPY_NONE true request
                          None (UserData 0) true None) [notes]).1.1 _ _
              ltac:(by vm_compute)
              (run_exec lib _ [notes]))
    as (_ & _ & Hown).
  exact (Hown ltac:(by vm_compute) ENOENT).
Defined.

Lemma thunar_g_file_copy_overwrite_reports_no_error_witness :
  exists trace : list (event file),
    exec (copy_notes G_FILE_COPY_OVERWRITE) trace (false, None)
    /\ source_found_regular notes trace
    /\ destination_found backup trace
    /\ ENOENT ∈ trace_errors trace.
Proof.
  destruct (thunar_g_file_copy_overwrite_reports_no_error notes backup usb
              G_FILE_COPY_OVERWRITE request None (UserData 0) true None
              ltac:(by vm_compute) ltac:(by vm_compute))
    as [_ Hfails].
  exact (Hfails ENOENT).
Defined.

Lemma thunar_g_file_list_get_parents_repeated_witness :
  thunar_g_file_list_get_parents ([G_FILE notes; G_FILE backup] ++ [G_FILE notes])
  = thunar_g_file_list_get_parents [G_FILE notes; G_FILE backup].
Proof.
  destruct (thunar_g_file_list_get_parents_repeated
              [G_FILE notes; G_FILE backup] [G_FILE notes]) as [_ Hrepeated].
  apply Hrepeated.
  - intros f. by apply bool_decide_eq_true.
  - intros data Hin. apply list_elem_of_singleton in Hin as ->. left.
Defined.

Lemma toy_parents_respect_equality : parents_respect_equality (GFile := file).
Proof.
  intros a b Hab. apply bool_decide_eq_true in Hab as ->.
  destruct (g_file_get_parent b); [by apply bool_decide_eq_true | done].
Qed.

Lemma thunar_g_file_is_descendant_transitive_witness :
  thunar_g_file_is_descendant 4 notes (new_for_path "/home") = Some true.
Proof.
  apply (thunar_g_file_is_descendant_transitive notes home (new_for_path "/home") _ 1 1
           same_file_equivalence toy_parents_respect_equality notes_parent_chain
           eq_refl eq_refl 4).
  simpl. lia.
Defined.

Lemma thunar_g_file_is_descendant_antisymmetric_witness :
  g_file_equal notes notes = true.
Proof.
  exact (thunar_g_file_is_descendant_antisymmetric notes notes _ 0 0
           same_file_equivalence toy_parents_respect_equality notes_parent_chain
           eq_refl eq_refl).
Defined.

Lemma thunar_g_file_is_desktop_file_iff_witness :
  exists (stem : string) (info : GFileInfo),
    g_file_get_basename launcher = Some (stem +:+ ".desktop")
    /\ (run lib (thunar_g_file_is_desktop_file launcher) [launcher]).1.1
       = [Event (g_file_query_info launcher "standard::type" 1%Z None) (G_OK info)]
    /\ g_file_info_get_file_type info = G_FILE_TYPE_REGULAR.
Proof.
  destruct (thunar_g_file_is_desktop_file_iff launcher _ _
              (run_exec lib (thunar_g_file_is_desktop_file launcher) [launcher]))
    as [[Hregular _] _].
  apply Hregular. by vm_compute.
Defined.

Lemma backup_parent_chain :
  parent_chain backup [backup; usb; new_for_path "/media"; new_for_path "/"].
Proof. repeat first [by apply parent_chain_root | eapply parent_chain_step; [by vm_compute |]]. Qed.

(** [backup] does not exist yet, the volume it is to be on does: that
    volume can be unmounted, so the file is not on a local device. *)
Lemma thunar_g_file_is_on_local_device_walk_witness :
  let steps := (run_program mount_lib (thunar_g_file_is_on_local_device 4 backup) [usb]).1.1 in
  (exists (before after : list file) (target_file : file) (file_mount : option string),
     [backup; usb; new_for_path "/media"; new_for_path "/"] = before ++ target_file :: after
     /\ steps = found_nothing before
                ++ [Step (Mounts.g_file_query_exists target_file None) true;
                    Step (Mounts.g_file_find_enclosing_mount target_file None) file_mount]
     /\ Some false = Some match file_mount with
                           | None => true
                           | Some file_mount => negb (g_mount_can_unmount file_mount)
                           end)
  \/ (steps = found_nothing [backup; usb; new_for_path "/media"; new_for_path "/"]
      /\ Some false = Some false).
Proof.
  exact (thunar_g_file_is_on_local_device_walk backup _ 4 _ (Some false)
           backup_parent_chain ltac:(simpl; lia)
           (run_program_performs mount_lib (thunar_g_file_is_on_local_device 4 backup) [usb])).
Defined.

Lemma thunar_g_vfs_metadata_is_supported_iff_witness :
  exists infos : list string,
    (run_program mount_lib (thunar_g_vfs_metadata_is_supported (GMount := string)) []).1.1
    = [Step (Mounts.g_file_query_writable_namespaces (new_for_uri "file:///") None) infos]
    /\ (true = true <-> "metadata" ∈ infos).
Proof.
  exact (thunar_g_vfs_metadata_is_supported_iff _ true
           (run_program_performs mount_lib thunar_g_vfs_metadata_is_supported [])).
Defined.

(** [gedit] is launched on [notes] from the home directory: the process
    changes to it and back, and [gedit], which is neither the default nor
    the last used application, becomes the last used one. *)
Lemma thunar_g_app_info_launch_steps_witness :
  let steps :=
    (run_program launch_lib
       (thunar_g_app_info_launch "gedit" (Some home) [notes] tt true None) "/").1.1 in
  exists (there updates back : list (step (Launch.Call file string unit file) Launch.Reply))
         (launched : gresult unit),
    steps = there ++ Step (Launch.g_app_info_launch "gedit" [notes] tt) launched
                     :: updates ++ back
    /\ true = gresult_ok launched
    /\ None = g_propagate true None launched
    /\ (exists old_path : option string,
          there = [Step (Launch.thunar_util_change_working_directory "/home/user") old_path]
          /\ match old_path with
             | Some old_path =>
                 exists left : option string,
                   back = [Step (Launch.thunar_util_change_working_directory old_path) left]
             | None => back = []
             end)
    /\ (true = false -> updates = [])
    /\ update_steps "gedit" false updates.
Proof.
  exact (thunar_g_app_info_launch_steps "gedit" (Some home) [notes] tt true None _ true None
           ltac:(discriminate) eq_refl
           (run_program_performs launch_lib
              (thunar_g_app_info_launch "gedit" (Some home) [notes] tt true None) "/")).
Defined.

(** In the same launch, [gedit] becomes the last used application with
    the seventh call, after the four calls that read about [notes]. *)
Lemma thunar_g_app_info_launch_last_used_witness :
  let steps :=
    (run_program launch_lib
       (thunar_g_app_info_launch "gedit" (Some home) [notes] tt true None) "/").1.1 in
  exists (j : nat) (data : file) (f : file) (content_type : option string)
         (default_app_info : option string) (recommended_app_infos : list string),
    6 = j + 4
    /\ steps !! j = Some (Step (Launch.thunar_file_get data) (Some f))
    /\ steps !! (j + 1) = Some (Step (Launch.thunar_file_get_content_type f) content_type)
    /\ steps !! (j + 2)
       = Some (Step (Launch.thunar_file_get_default_handler f) default_app_info)
    /\ steps !! (j + 3)
       = Some (Step (Launch.g_app_info_get_recommended_for_type content_type)
                 recommended_app_infos)
    /\ (Launch.g_app_info_set_as_last_used_for_type "gedit" (Some "text/plain")
         : Launch.Call file string unit file)
       = Launch.g_app_info_set_as_last_used_for_type "gedit" content_type
    /\ (forall default : string,
          default_app_info = Some default -> g_app_info_equal "gedit" default = false)
    /\ (forall (first : string) (others : list string),
          recommended_app_infos = first :: others -> g_app_info_equal "gedit" first = false).
Proof.
  exact (thunar_g_app_info_launch_last_used "gedit" (Some home) [notes] tt true None _ true None
           (run_program_performs launch_lib
              (thunar_g_app_info_launch "gedit" (Some home) [notes] tt true None) "/")
           6 (Step (Launch.g_app_info_set_as_last_used_for_type "gedit" (Some "text/plain"))
                true)
           eq_refl eq_refl).
Defined.

End MoreExamples.
